(** * Asemantic fragment validation protocol: a shallow embedding

    The Python package [asemantic_protocol] (crypto.py, fragment.py,
    state.py, validator.py) is embedded function by function.  Python
    [bytes] and [bytearray] are lists of [byte]; Python integers are [Z];
    [None] is [None]; an exception is the [Raise] outcome of [result].
    Objects that the code mutates ([ReceiverState], the validator's
    statistics, the file system) live in an explicit [Heap] threaded by a
    small state-and-exception monad. *)

From Stdlib Require Import String Ascii ZArith Lia Bool List.
From Stdlib.Strings Require Import Byte.
From Equations Require Import Equations.
Import ListNotations.

Local Open Scope Z_scope.

(** ** Bytes *)

Definition bytes := list byte.

Definition Z_of_byte (b : byte) : Z := Z.of_N (Byte.to_N b).

Definition byte_of_Z (z : Z) : byte :=
  match Byte.of_N (Z.to_N (z mod 256)) with
  | Some b => b
  | None => x00
  end.

(** [be_bytes n z]: the [n] low-order base-256 digits of [z], most
    significant first. *)
Fixpoint be_bytes (n : nat) (z : Z) : bytes :=
  match n with
  | O => []
  | S n' => be_bytes n' (z / 256) ++ [byte_of_Z z]
  end.

(** Big-endian value of a byte string ([int.from_bytes(b, 'big')]). *)
Definition be_value (b : bytes) : Z :=
  fold_left (fun acc x => acc * 256 + Z_of_byte x) b 0.

(** Little-endian counterparts, used by the Keccak lanes. *)
Definition le_bytes (n : nat) (z : Z) : bytes := rev (be_bytes n z).
Definition le_value (b : bytes) : Z := be_value (rev b).

(** [chunks k n l]: the first [n] consecutive pieces of [l], [k] items each. *)
Fixpoint chunks {A} (k n : nat) (l : list A) : list (list A) :=
  match n with
  | O => []
  | S n' => firstn k l :: chunks k n' (skipn k l)
  end.

Definition bytes_of_string (s : string) : bytes := list_byte_of_string s.

(** ** The hash primitives of the Python standard library

    crypto.py calls [hashlib.sha256], [hmac.new(.., hashlib.sha256)] and
    [hashlib.shake_256].  They are defined here from their standards so that
    the embedding can be evaluated on concrete inputs. *)

Module Fips.

Definition mask32 : Z := Eval vm_compute in Z.ones 32.
Definition mask64 : Z := Eval vm_compute in Z.ones 64.

(** Truncation to 32 and to 64 bits. *)
Definition u32 (x : Z) : Z := Z.land x mask32.
Definition u64 (x : Z) : Z := Z.land x mask64.

(** *** SHA-256 (FIPS 180-4) *)

Definition is_prime (p : Z) : bool :=
  forallb (fun d => negb (p mod d =? 0))
          (map Z.of_nat (seq 2 (Z.to_nat p - 2)%nat)).

Definition first_primes (n : nat) : list Z :=
  firstn n (filter is_prime (map Z.of_nat (seq 2 320))).

(** Integer cube root below [2^36], one bit at a time. *)
Definition icbrt (n : Z) : Z :=
  fold_left (fun r b => let c := r + 2 ^ b in if c * c * c <=? n then c else r)
            (rev (map Z.of_nat (seq 0 36))) 0.

(** Section 4.2.2: fractional parts of the cube roots of the first 64 primes. *)
Definition K256 : list Z :=
  Eval vm_compute in map (fun p => u32 (icbrt (p * 2 ^ 96))) (first_primes 64).

(** Section 5.3.3: fractional parts of the square roots of the first 8 primes. *)
Definition H256 : list Z :=
  Eval vm_compute in map (fun p => u32 (Z.sqrt (p * 2 ^ 64))) (first_primes 8).

Definition rotr32 (n x : Z) : Z :=
  Z.lor (Z.shiftr x n) (u32 (Z.shiftl x (32 - n))).

Definition Ch (x y z : Z) : Z :=
  Z.lxor (Z.land x y) (Z.land (Z.lxor x mask32) z).
Definition Maj (x y z : Z) : Z :=
  Z.lxor (Z.lxor (Z.land x y) (Z.land x z)) (Z.land y z).
Definition bsig0 (x : Z) : Z :=
  Z.lxor (Z.lxor (rotr32 2 x) (rotr32 13 x)) (rotr32 22 x).
Definition bsig1 (x : Z) : Z :=
  Z.lxor (Z.lxor (rotr32 6 x) (rotr32 11 x)) (rotr32 25 x).
Definition ssig0 (x : Z) : Z :=
  Z.lxor (Z.lxor (rotr32 7 x) (rotr32 18 x)) (Z.shiftr x 3).
Definition ssig1 (x : Z) : Z :=
  Z.lxor (Z.lxor (rotr32 17 x) (rotr32 19 x)) (Z.shiftr x 10).

(** The message schedule, most recent word first while it is built. *)
Fixpoint schedule_rev (n : nat) (ws : list Z) : list Z :=
  match n with
  | O => ws
  | S n' =>
      let w := u32 (ssig1 (nth 1 ws 0) + nth 6 ws 0
                    + ssig0 (nth 14 ws 0) + nth 15 ws 0) in
      schedule_rev n' (w :: ws)
  end.

Definition schedule (block : bytes) : list Z :=
  rev (schedule_rev 48 (rev (map be_value (chunks 4 16 block)))).

Record sha_state := ShaState {
  sa : Z; sb : Z; sc : Z; sd : Z; se : Z; sf : Z; sg : Z; sh : Z }.

Definition sha_round (s : sha_state) (kw : Z * Z) : sha_state :=
  let t1 := u32 (sh s + bsig1 (se s) + Ch (se s) (sf s) (sg s) + fst kw + snd kw) in
  let t2 := u32 (bsig0 (sa s) + Maj (sa s) (sb s) (sc s)) in
  ShaState (u32 (t1 + t2)) (sa s) (sb s) (sc s) (u32 (sd s + t1)) (se s) (sf s) (sg s).

Definition sha_compress (h : sha_state) (block : bytes) : sha_state :=
  let s := fold_left sha_round (combine K256 (schedule block)) h in
  ShaState (u32 (sa h + sa s)) (u32 (sb h + sb s)) (u32 (sc h + sc s))
           (u32 (sd h + sd s)) (u32 (se h + se s)) (u32 (sf h + sf s))
           (u32 (sg h + sg s)) (u32 (sh h + sh s)).

Definition sha_init : sha_state :=
  ShaState (nth 0 H256 0) (nth 1 H256 0) (nth 2 H256 0) (nth 3 H256 0)
           (nth 4 H256 0) (nth 5 H256 0) (nth 6 H256 0) (nth 7 H256 0).

Definition sha_pad (msg : bytes) : bytes :=
  let len := Z.of_nat (length msg) in
  msg ++ [x80] ++ repeat x00 (Z.to_nat ((55 - len) mod 64)) ++ be_bytes 8 (8 * len).

Definition sha_digest (s : sha_state) : bytes :=
  be_bytes 4 (sa s) ++ be_bytes 4 (sb s) ++ be_bytes 4 (sc s) ++ be_bytes 4 (sd s)
  ++ be_bytes 4 (se s) ++ be_bytes 4 (sf s) ++ be_bytes 4 (sg s) ++ be_bytes 4 (sh s).

Definition sha256 (msg : bytes) : bytes :=
  let padded := sha_pad msg in
  sha_digest (fold_left sha_compress
                        (chunks 64 (Nat.div (length padded) 64) padded) sha_init).

(** *** HMAC (FIPS 198-1) over SHA-256 *)

Definition xor_pad (c : Z) (key : bytes) : bytes :=
  map (fun b => byte_of_Z (Z.lxor (Z_of_byte b) c)) key.

Definition hmac_sha256 (key msg : bytes) : bytes :=
  let k0 := if (64 <? length key)%nat then sha256 key else key in
  let k := k0 ++ repeat x00 (64 - length k0)%nat in
  sha256 (xor_pad 92 k ++ sha256 (xor_pad 54 k ++ msg)).

(** *** SHAKE256 (FIPS 202) *)

Definition rotl64 (x n : Z) : Z :=
  Z.lor (u64 (Z.shiftl x n)) (Z.shiftr x (64 - n)).

Definition lane (st : list Z) (x y : nat) : Z :=
  nth (Nat.modulo x 5 + 5 * Nat.modulo y 5)%nat st 0.

(** Rotation offsets of the rho step, by the walk of section 3.2.2. *)
Fixpoint rho_walk (n : nat) (t : Z) (x y : nat) : list (nat * Z) :=
  match n with
  | O => []
  | S n' => ((x + 5 * y)%nat, ((t + 1) * (t + 2) / 2) mod 64)
            :: rho_walk n' (t + 1) y (Nat.modulo (2 * x + 3 * y)%nat 5)
  end.

Definition rho_offset (i : nat) : Z :=
  match find (fun p => Nat.eqb (fst p) i) (rho_walk 24 0 1 0) with
  | Some p => snd p
  | None => 0
  end.

(** Round constants of the iota step, from the degree-8 LFSR. *)
Fixpoint iota_bits (n : nat) (lfsr : Z) (j : Z) (acc : Z) : Z * Z :=
  match n with
  | O => (acc, lfsr)
  | S n' =>
      let acc' := if Z.testbit lfsr 0 then Z.lor acc (2 ^ (2 ^ j - 1)) else acc in
      let l2 := Z.shiftl lfsr 1 in
      let lfsr' := if Z.testbit lfsr 7 then Z.lxor (l2 mod 256) 113 else l2 in
      iota_bits n' lfsr' (j + 1) acc'
  end.

Fixpoint round_constants (n : nat) (lfsr : Z) : list Z :=
  match n with
  | O => []
  | S n' => let '(rc, lfsr') := iota_bits 7 lfsr 0 0 in
            rc :: round_constants n' lfsr'
  end.

Definition RC : list Z := Eval vm_compute in round_constants 24 1.
Definition RHO : list Z := Eval vm_compute in map rho_offset (seq 0 25).

Definition theta (st : list Z) : list Z :=
  let c := map (fun x => fold_left Z.lxor (map (lane st x) (seq 0 5)) 0) (seq 0 5) in
  let d := map (fun x => Z.lxor (nth (Nat.modulo (x + 4)%nat 5) c 0)
                                (rotl64 (nth (Nat.modulo (x + 1)%nat 5) c 0) 1))
               (seq 0 5) in
  map (fun i => Z.lxor (nth i st 0) (nth (Nat.modulo i 5) d 0)) (seq 0 25).

Definition rho_pi (st : list Z) : list Z :=
  map (fun i => let x := Nat.modulo i 5 in
                let y := Nat.div i 5 in
                let sx := Nat.modulo (x + 3 * y)%nat 5 in
                rotl64 (lane st sx x) (nth (sx + 5 * x)%nat RHO 0))
      (seq 0 25).

Definition chi (st : list Z) : list Z :=
  map (fun i => let x := Nat.modulo i 5 in
                let y := Nat.div i 5 in
                Z.lxor (lane st x y)
                       (Z.land (Z.lxor (lane st (x + 1)%nat y) mask64)
                               (lane st (x + 2)%nat y)))
      (seq 0 25).

Definition iota (rc : Z) (st : list Z) : list Z :=
  map (fun i => if Nat.eqb i 0 then Z.lxor (nth i st 0) rc else nth i st 0) (seq 0 25).

Definition keccak_round (st : list Z) (rc : Z) : list Z :=
  iota rc (chi (rho_pi (theta st))).

Definition keccak_f (st : list Z) : list Z := fold_left keccak_round RC st.

Definition shake_rate : nat := 136.

Definition shake_pad (msg : bytes) : bytes :=
  let q := (shake_rate - Nat.modulo (length msg) shake_rate)%nat in
  if Nat.eqb q 1 then msg ++ [x9f]
  else msg ++ [x1f] ++ repeat x00 (q - 2)%nat ++ [x80].

Definition absorb (st : list Z) (block : bytes) : list Z :=
  let lanes := map le_value (chunks 8 17 block) in
  keccak_f (map (fun i => Z.lxor (nth i st 0) (nth i lanes 0)) (seq 0 25)).

Fixpoint squeeze (blocks : nat) (st : list Z) : bytes :=
  match blocks with
  | O => []
  | S n => flat_map (le_bytes 8) (firstn 17 st) ++ squeeze n (keccak_f st)
  end.

Definition shake_256 (msg : bytes) (n : nat) : bytes :=
  let padded := shake_pad msg in
  let st := fold_left absorb
                      (chunks shake_rate (Nat.div (length padded) shake_rate) padded)
                      (repeat 0 25) in
  firstn n (squeeze (S (Nat.div n shake_rate)) st).

End Fips.

(** ** Python outcomes: a value or a raised exception *)

Inductive exn : Type :=
| ValueError
| OverflowError
| TypeError
| AttributeError
| OSError
| JSONDecodeError
| UnicodeDecodeError
| SecurityError.

Inductive result (A : Type) : Type :=
| Ok (a : A)
| Raise (e : exn).
Arguments Ok {A} a.
Arguments Raise {A} e.

Definition rbind {A B} (r : result A) (k : A -> result B) : result B :=
  match r with
  | Ok a => k a
  | Raise e => Raise e
  end.

Declare Scope py_scope.
Delimit Scope py_scope with py.
Notation "x <- c ;; k" := (rbind c (fun x => k))
  (at level 61, c at next level, right associativity) : py_scope.

(** Remembers the equation when a [with] clause inspects a test. *)
Definition inspect {A} (a : A) : {b : A | a = b} := exist _ a eq_refl.

(** [int.to_bytes(length, 'big')] for an unsigned conversion: negative
    numbers and numbers that do not fit raise [OverflowError]. *)
Definition to_bytes (length : nat) (n : Z) : result bytes :=
  if (n <? 0) || (256 ^ Z.of_nat length <=? n) then Raise OverflowError
  else Ok (be_bytes length n).

(** The interface crypto.py uses from [hashlib] and [hmac], with the digest
    sizes the library documents. *)
Class Hashlib : Type := {
  sha256 : bytes -> bytes;
  hmac_sha256 : bytes -> bytes -> bytes;
  shake_256 : bytes -> nat -> bytes;
  sha256_digest_size : forall m, length (sha256 m) = 32%nat;
  hmac_sha256_digest_size : forall k m, length (hmac_sha256 k m) = 32%nat;
  shake_256_digest_size : forall m n, length (shake_256 m n) = n
}.

(** ** crypto.py *)

Module Crypto.
Section WithHashlib.
Context {H : Hashlib}.
Local Open Scope py_scope.

Definition DEFAULT_FRAGMENT_LENGTH : Z := 256.

Definition KDF_TAG : bytes := bytes_of_string "ASEMANTIC_KDF_V1".

(** [KDF(seed, context=None)] *)
Definition KDF (seed : bytes) (context : option bytes) : bytes :=
  let data := match context with
              | Some context => seed ++ context
              | None => seed
              end in
  hmac_sha256 seed (data ++ KDF_TAG).

Definition length_prefix (data : bytes) : result bytes :=
  p <- to_bytes 4 (Z.of_nat (length data)) ;; Ok (p ++ data).

(** [encode(domain, content, evolution_param)] *)
Definition encode (domain content evolution_param : bytes) : result bytes :=
  d <- length_prefix domain ;;
  c <- length_prefix content ;;
  z <- length_prefix evolution_param ;;
  Ok (d ++ c ++ z).

(** The counter-mode extension loop of the keyed branch:
    [while len(output) < fragment_length_bytes: ...]. *)
Equations? extend_output (key encoded_input : bytes) (fragment_length_bytes : nat)
  (output : bytes) : result bytes by wf (fragment_length_bytes - length output)%nat lt :=
  extend_output key encoded_input n output with inspect (length output <? n)%nat := {
    | exist _ false _ => Ok output
    | exist _ true Hlt with to_bytes 4 (Z.of_nat (length output)) := {
        | Raise e => Raise e
        | Ok counter =>
            extend_output key encoded_input n
                          (output ++ hmac_sha256 key (encoded_input ++ counter)) } }.
Proof.
  apply Nat.ltb_lt in Hlt.
  rewrite length_app, hmac_sha256_digest_size. lia.
Qed.

(** [compute_fragment(domain, content, evolution_param,
                      fragment_length_bits, key)] *)
Definition compute_fragment (domain content evolution_param : bytes)
  (fragment_length_bits : Z) (key : option bytes) : result bytes :=
  if fragment_length_bits <? 256 then Raise ValueError
  else
    let fragment_length_bytes := Z.to_nat (fragment_length_bits / 8) in
    encoded_input <- encode domain content evolution_param ;;
    output <- match key with
              | Some key =>
                  extend_output key encoded_input fragment_length_bytes
                                (hmac_sha256 key encoded_input)
              | None => Ok (shake_256 encoded_input fragment_length_bytes)
              end ;;
    Ok (firstn fragment_length_bytes output).

(** [constant_time_equal(a, b)] *)
Definition constant_time_equal (a b : bytes) : bool :=
  if negb (length a =? length b)%nat then false
  else
    let diff := fold_left (fun diff xy =>
                             Z.lor diff (Z.lxor (Z_of_byte (fst xy)) (Z_of_byte (snd xy))))
                          (combine a b) 0 in
    diff =? 0.

(** [data[i] = v] on a buffer; [i] is always in range where it is used. *)
Fixpoint set_item (data : bytes) (i : nat) (v : byte) : bytes :=
  match data, i with
  | [], _ => []
  | _ :: tl, O => v :: tl
  | x :: tl, S i' => x :: set_item tl i' v
  end.

(** [secure_erase(data)]: the buffer after both passes.  [random_bytes] is
    what [secrets.token_bytes(length)] returned for the first pass. *)
Definition secure_erase (random_bytes data : bytes) : bytes :=
  let length := length data in
  let data := fold_left (fun data i => set_item data i (nth i random_bytes x00))
                        (seq 0 length) data in
  fold_left (fun data i => set_item data i x00) (seq 0 length) data.

(** [prepare_content(content, use_hash)] on bytes. *)
Definition prepare_content (content : bytes) (use_hash : bool) : bytes :=
  if use_hash then sha256 content else content.

End WithHashlib.
End Crypto.

(** ** The standard primitives are an instance of the interface *)

Lemma be_bytes_length (n : nat) (z : Z) : length (be_bytes n z) = n.
Proof.
  revert z. induction n as [|n IH]; intro z; simpl; [reflexivity|].
  rewrite length_app, IH. simpl. lia.
Qed.

Lemma fips_sha256_length (m : bytes) : length (Fips.sha256 m) = 32%nat.
Proof.
  unfold Fips.sha256, Fips.sha_digest.
  repeat rewrite length_app. repeat rewrite be_bytes_length. reflexivity.
Qed.

Lemma fips_hmac_sha256_length (k m : bytes) :
  length (Fips.hmac_sha256 k m) = 32%nat.
Proof. unfold Fips.hmac_sha256. apply fips_sha256_length. Qed.

Lemma keccak_round_length (st : list Z) (rc : Z) :
  length (Fips.keccak_round st rc) = 25%nat.
Proof.
  unfold Fips.keccak_round, Fips.iota. rewrite length_map, length_seq. reflexivity.
Qed.

Lemma keccak_rounds_length (rcs : list Z) (st : list Z) :
  length st = 25%nat -> length (fold_left Fips.keccak_round rcs st) = 25%nat.
Proof.
  revert st. induction rcs as [|rc rcs IH]; intros st Hst; simpl; [exact Hst|].
  apply IH, keccak_round_length.
Qed.

Lemma keccak_f_length (st : list Z) :
  length st = 25%nat -> length (Fips.keccak_f st) = 25%nat.
Proof. apply keccak_rounds_length. Qed.

Lemma absorb_all_length (blocks : list bytes) (st : list Z) :
  length st = 25%nat -> length (fold_left Fips.absorb blocks st) = 25%nat.
Proof.
  revert st. induction blocks as [|b blocks IH]; intros st Hst; simpl; [exact Hst|].
  apply IH. unfold Fips.absorb. apply keccak_f_length.
  rewrite length_map, length_seq. reflexivity.
Qed.

Lemma flat_map_le_bytes_length (l : list Z) :
  length (flat_map (le_bytes 8) l) = (8 * length l)%nat.
Proof.
  induction l as [|x l IH]; cbn [flat_map]; [reflexivity|].
  rewrite length_app, IH. unfold le_bytes. rewrite length_rev, be_bytes_length.
  cbn [length]. lia.
Qed.

Lemma squeeze_length (blocks : nat) (st : list Z) :
  length st = 25%nat ->
  length (Fips.squeeze blocks st) = (Fips.shake_rate * blocks)%nat.
Proof.
  revert st. induction blocks as [|n IH]; intros st Hst; cbn [Fips.squeeze].
  - simpl. lia.
  - rewrite length_app, flat_map_le_bytes_length, length_firstn, Hst.
    rewrite IH by (apply keccak_f_length; exact Hst).
    unfold Fips.shake_rate. lia.
Qed.

Lemma fips_shake_256_length (m : bytes) (n : nat) :
  length (Fips.shake_256 m n) = n.
Proof.
  unfold Fips.shake_256. rewrite length_firstn.
  rewrite squeeze_length by (apply absorb_all_length, repeat_length).
  unfold Fips.shake_rate.
  pose proof (Nat.div_mod_eq n 136) as E.
  pose proof (Nat.mod_upper_bound n 136) as B.
  lia.
Qed.

#[export] Instance fips_hashlib : Hashlib := {|
  sha256 := Fips.sha256;
  hmac_sha256 := Fips.hmac_sha256;
  shake_256 := Fips.shake_256;
  sha256_digest_size := fips_sha256_length;
  hmac_sha256_digest_size := fips_hmac_sha256_length;
  shake_256_digest_size := fips_shake_256_length
|}.

(** ** Strings as the code uses them *)

(** [str.upper()] on ASCII text. *)
Definition upper_ascii (c : ascii) : ascii :=
  let n := nat_of_ascii c in
  if ((97 <=? n) && (n <=? 122))%nat then ascii_of_nat (n - 32) else c.

Fixpoint upper (s : string) : string :=
  match s with
  | EmptyString => EmptyString
  | String c tl => String (upper_ascii c) (upper tl)
  end.

Definition hex_digit (n : Z) : ascii :=
  ascii_of_nat (Z.to_nat (if n <? 10 then 48 + n else 87 + n)).

(** [bytes.hex()] *)
Fixpoint hex (b : bytes) : string :=
  match b with
  | [] => EmptyString
  | x :: tl => String (hex_digit (Z_of_byte x / 16))
                 (String (hex_digit (Z_of_byte x mod 16)) (hex tl))
  end.

Definition hex_value (c : ascii) : option Z :=
  let n := Z.of_nat (nat_of_ascii c) in
  if (48 <=? n) && (n <=? 57) then Some (n - 48)
  else if (97 <=? n) && (n <=? 102) then Some (n - 87)
  else if (65 <=? n) && (n <=? 70) then Some (n - 55)
  else None.

Definition is_space (c : ascii) : bool :=
  let n := nat_of_ascii c in
  ((n =? 32) || ((9 <=? n) && (n <=? 13)))%nat.

(** [bytes.fromhex(s)]: pairs of hexadecimal digits, ASCII whitespace allowed
    between the pairs; anything else raises [ValueError]. *)
Fixpoint fromhex (s : string) : result bytes :=
  match s with
  | EmptyString => Ok []
  | String c tl =>
      if is_space c then fromhex tl
      else match tl with
           | EmptyString => Raise ValueError
           | String c' tl' =>
               match hex_value c, hex_value c' with
               | Some hi, Some lo =>
                   rbind (fromhex tl') (fun rest => Ok (byte_of_Z (16 * hi + lo) :: rest))
               | _, _ => Raise ValueError
               end
           end
  end.

(** Truth value of an optional path: [None] and the empty string are false. *)
Definition truthy_path (p : option string) : bool :=
  match p with
  | Some (String _ _) => true
  | _ => false
  end.

(** [range(start, stop)] *)
Definition range (start stop : Z) : list Z :=
  map (fun i => start + Z.of_nat i) (seq 0 (Z.to_nat (stop - start))).

(** ** fragment.py *)

Module Fragment.
Section WithHashlib.
Context {H : Hashlib}.
Local Open Scope py_scope.

(** The attributes of a [FragmentBuilder]. *)
Record FragmentBuilder : Type := {
  domain : bytes;
  mode : string;
  fragment_length : Z;
  use_keyed_mode : bool;
  _index : Z;
  _seed : option bytes;
  _evol_func : option (Z -> result bytes)
}.

(** [FragmentBuilder.__init__] *)
Definition __init__ (domain : bytes) (mode : string) (seed : option bytes)
  (evol_func : option (Z -> result bytes)) (fragment_length : Z)
  (use_keyed_mode : bool) : result FragmentBuilder :=
  let mode := upper mode in
  if (mode =? "A")%string then
    match seed with
    | None => Raise ValueError
    | Some seed =>
        Ok {| domain := domain; mode := mode; fragment_length := fragment_length;
              use_keyed_mode := use_keyed_mode; _index := 0;
              _seed := Some seed; _evol_func := None |}
    end
  else if (mode =? "B")%string then
    match evol_func with
    | None => Raise ValueError
    | Some evol_func =>
        Ok {| domain := domain; mode := mode; fragment_length := fragment_length;
              use_keyed_mode := use_keyed_mode; _index := 0;
              _seed := None; _evol_func := Some evol_func |}
    end
  else Raise ValueError.

(** [FragmentBuilder.mode_a(domain, seed, fragment_length, use_keyed_mode)] *)
Definition mode_a (domain seed : bytes) (fragment_length : Z) (use_keyed_mode : bool)
  : result FragmentBuilder :=
  __init__ domain "A" (Some seed) None fragment_length use_keyed_mode.

(** [FragmentBuilder.mode_b(domain, evol_func, fragment_length)] *)
Definition mode_b (domain : bytes) (evol_func : Z -> result bytes) (fragment_length : Z)
  : result FragmentBuilder :=
  __init__ domain "B" None (Some evol_func) fragment_length true.

(** [FragmentBuilder.build(content, content_is_prepared)] *)
Definition build (self : FragmentBuilder) (content : bytes) (content_is_prepared : bool)
  : result bytes :=
  let prepared := if content_is_prepared then content
                  else Crypto.prepare_content content true in
  zk <- (if (mode self =? "A")%string then
           match _seed self with
           | Some seed => Ok (seed, if use_keyed_mode self then Some seed else None)
           | None => Raise TypeError
           end
         else
           match _evol_func self with
           | Some evol_func => z <- evol_func (_index self) ;; Ok (z, None)
           | None => Raise TypeError
           end) ;;
  Crypto.compute_fragment (domain self) prepared (fst zk) (fragment_length self)
                          (if use_keyed_mode self then snd zk else None).

Definition set_seed (self : FragmentBuilder) (seed : option bytes) : FragmentBuilder :=
  {| domain := domain self; mode := mode self; fragment_length := fragment_length self;
     use_keyed_mode := use_keyed_mode self; _index := _index self;
     _seed := seed; _evol_func := _evol_func self |}.

Definition set_index (self : FragmentBuilder) (index : Z) : FragmentBuilder :=
  {| domain := domain self; mode := mode self; fragment_length := fragment_length self;
     use_keyed_mode := use_keyed_mode self; _index := index;
     _seed := _seed self; _evol_func := _evol_func self |}.

(** [FragmentBuilder.advance()].  [token_bytes] stands for
    [secrets.token_bytes], used by the first pass of [secure_erase]. *)
Definition advance (token_bytes : nat -> bytes) (self : FragmentBuilder)
  : result FragmentBuilder :=
  self <- (if (mode self =? "A")%string then
             match _seed self with
             | Some seed =>
                 let next_seed := Crypto.KDF seed None in
                 let self := set_seed self
                               (Some (Crypto.secure_erase (token_bytes (length seed)) seed)) in
                 Ok (set_seed self (Some next_seed))
             | None => Raise TypeError
             end
           else Ok self) ;;
  Ok (set_index self (_index self + 1)).

(** [k] calls of [advance()] in a row. *)
Fixpoint advance_times (token_bytes : nat -> bytes) (k : nat) (self : FragmentBuilder)
  : result FragmentBuilder :=
  match k with
  | O => Ok self
  | S k' => self <- advance token_bytes self ;; advance_times token_bytes k' self
  end.

End WithHashlib.
End Fragment.

(** ** The mutable world of the receiver *)

Inductive state_class : Type := ReceiverStateClass | SecureElementStateClass.

(** The attributes of a [ReceiverState] object.  [_rollback_counter] exists
    only on a [SecureElementState], and only once its [__init__] has set it. *)
Record ReceiverState : Type := {
  state_cls : state_class;
  mode : string;
  _anchor : Z;
  _seed : option bytes;
  _persistence_path : option string;
  _rollback_counter : option Z
}.

Inductive validator_class : Type := FragmentValidatorClass | ConstantTimeValidatorClass.

(** The [_stats] dictionary of a validator; its four keys are fixed. *)
Record Stats : Type := {
  total_validations : Z;
  accepts : Z;
  rejects : Z;
  comparisons : Z
}.

(** The attributes of a [FragmentValidator] object. *)
Record FragmentValidator : Type := {
  validator_cls : validator_class;
  domain : bytes;
  window_size : Z;
  fragment_length : Z;
  use_keyed_mode : bool;
  evol_func : option (Z -> result bytes);
  _stats : Stats
}.

(** A persisted state blob after [json.load]: a JSON object whose fields,
    when present, have the types [_save_state] writes. *)
Record Blob : Type := {
  blob_mode : option string;
  blob_anchor : option Z;
  blob_version : option Z;
  blob_seed : option string;
  blob_rollback_counter : option Z
}.

(** What a path of the file system holds: a file that cannot be opened for
    reading, bytes that the text layer cannot decode, text that is not JSON,
    or a JSON object of the shape above.  (JSON text of another shape, a
    list or an object with fields of other types, is not represented.) *)
Inductive file : Type :=
| Unreadable
| NotText
| NotJson
| Json (b : Blob).

(** Calls of the three primitives the validators make (a ghost counter). *)
Record Calls : Type := {
  n_compute_fragment : nat;
  n_KDF : nat;
  n_constant_time_equal : nat
}.

Record Heap : Type := {
  state : ReceiverState;
  validator : FragmentValidator;
  fs_files : list (string * file);
  (** paths where opening for writing raises [OSError] *)
  fs_unwritable : list string;
  (** paths onto which [os.replace] raises [OSError] *)
  fs_unreplaceable : list string;
  (** what [secrets.token_bytes] returns *)
  token_bytes : nat -> bytes;
  (** contents of the buffers handed to [secure_erase], latest first (ghost) *)
  erased : list bytes;
  calls : Calls
}.

(** *** State and exceptions *)

Definition M (A : Type) : Type := Heap -> result A * Heap.

Definition ret {A} (a : A) : M A := fun h => (Ok a, h).
Definition raise {A} (e : exn) : M A := fun h => (Raise e, h).
Definition bind {A B} (m : M A) (k : A -> M B) : M B :=
  fun h => match m h with
           | (Ok a, h') => k a h'
           | (Raise e, h') => (Raise e, h')
           end.
Definition lift {A} (r : result A) : M A := fun h => (r, h).
Definition get : M Heap := fun h => (Ok h, h).
Definition put (h : Heap) : M unit := fun _ => (Ok tt, h).

(** [try: m except <caught>: handler] *)
Definition try_except {A} (m : M A) (caught : exn -> bool) (handler : exn -> M A) : M A :=
  fun h => match m h with
           | (Ok a, h') => (Ok a, h')
           | (Raise e, h') => if caught e then handler e h' else (Raise e, h')
           end.

Declare Scope heap_scope.
Delimit Scope heap_scope with heap.
Notation "x <- c ;; k" := (bind c (fun x => k))
  (at level 61, c at next level, right associativity) : heap_scope.
Notation "c ;; k" := (bind c (fun _ => k))
  (at level 61, right associativity) : heap_scope.

Definition with_state (h : Heap) (s : ReceiverState) : Heap :=
  {| state := s; validator := validator h; fs_files := fs_files h;
     fs_unwritable := fs_unwritable h; fs_unreplaceable := fs_unreplaceable h;
     token_bytes := token_bytes h; erased := erased h; calls := calls h |}.

Definition with_validator (h : Heap) (v : FragmentValidator) : Heap :=
  {| state := state h; validator := v; fs_files := fs_files h;
     fs_unwritable := fs_unwritable h; fs_unreplaceable := fs_unreplaceable h;
     token_bytes := token_bytes h; erased := erased h; calls := calls h |}.

Definition with_files (h : Heap) (f : list (string * file)) : Heap :=
  {| state := state h; validator := validator h; fs_files := f;
     fs_unwritable := fs_unwritable h; fs_unreplaceable := fs_unreplaceable h;
     token_bytes := token_bytes h; erased := erased h; calls := calls h |}.

Definition with_erased (h : Heap) (e : list bytes) : Heap :=
  {| state := state h; validator := validator h; fs_files := fs_files h;
     fs_unwritable := fs_unwritable h; fs_unreplaceable := fs_unreplaceable h;
     token_bytes := token_bytes h; erased := e; calls := calls h |}.

Definition with_calls (h : Heap) (c : Calls) : Heap :=
  {| state := state h; validator := validator h; fs_files := fs_files h;
     fs_unwritable := fs_unwritable h; fs_unreplaceable := fs_unreplaceable h;
     token_bytes := token_bytes h; erased := erased h; calls := c |}.

Definition get_state : M ReceiverState := fun h => (Ok (state h), h).
Definition put_state (s : ReceiverState) : M unit := fun h => (Ok tt, with_state h s).
Definition get_validator : M FragmentValidator := fun h => (Ok (validator h), h).
Definition put_validator (v : FragmentValidator) : M unit :=
  fun h => (Ok tt, with_validator h v).

(** *** The file system *)

Definition fs_lookup (files : list (string * file)) (path : string) : option file :=
  option_map snd (find (fun kv => (fst kv =? path)%string) files).

Definition fs_delete (files : list (string * file)) (path : string) : list (string * file) :=
  filter (fun kv => negb (fst kv =? path)%string) files.

Definition mem_string (s : string) (l : list string) : bool :=
  existsb (fun x => (x =? s)%string) l.

(** [os.path.exists(path)] *)
Definition os_path_exists (path : string) : M bool :=
  fun h => (Ok (match fs_lookup (fs_files h) path with Some _ => true | None => false end), h).

(** [os.remove(path)] of a path that exists. *)
Definition os_remove (path : string) : M unit :=
  fun h => (Ok tt, with_files h (fs_delete (fs_files h) path)).

(** [with open(path, 'w') as f: json.dump(blob, f); f.flush(); os.fsync(..)] *)
Definition write_json (path : string) (b : Blob) : M unit :=
  fun h => if mem_string path (fs_unwritable h) then (Raise OSError, h)
           else (Ok tt, with_files h ((path, Json b) :: fs_delete (fs_files h) path)).

(** [os.replace(src, dst)] *)
Definition os_replace (src dst : string) : M unit :=
  fun h => match fs_lookup (fs_files h) src with
           | None => (Raise OSError, h)
           | Some f =>
               if mem_string dst (fs_unreplaceable h) then (Raise OSError, h)
               else (Ok tt, with_files h
                              ((dst, f) :: fs_delete (fs_delete (fs_files h) src) dst))
           end.

(** [with open(path, 'r') as f: json.load(f)]: [open] raises [OSError];
    [f.read()] inside [json.load] raises [UnicodeDecodeError] on bytes it
    cannot decode; the parser raises [JSONDecodeError]. *)
Definition read_json (path : string) : M Blob :=
  fun h => match fs_lookup (fs_files h) path with
           | None | Some Unreadable => (Raise OSError, h)
           | Some NotText => (Raise UnicodeDecodeError, h)
           | Some NotJson => (Raise JSONDecodeError, h)
           | Some (Json b) => (Ok b, h)
           end.

(** ** state.py *)

Module State.
Section WithHashlib.
Context {H : Hashlib}.
Local Open Scope heap_scope.

Definition set_anchor (anchor : Z) : M unit :=
  fun h => let s := state h in
    (Ok tt, with_state h
       {| state_cls := state_cls s; mode := mode s; _anchor := anchor; _seed := _seed s;
          _persistence_path := _persistence_path s;
          _rollback_counter := _rollback_counter s |}).

Definition set_seed (seed : option bytes) : M unit :=
  fun h => let s := state h in
    (Ok tt, with_state h
       {| state_cls := state_cls s; mode := mode s; _anchor := _anchor s; _seed := seed;
          _persistence_path := _persistence_path s;
          _rollback_counter := _rollback_counter s |}).

Definition set_rollback_counter (c : option Z) : M unit :=
  fun h => let s := state h in
    (Ok tt, with_state h
       {| state_cls := state_cls s; mode := mode s; _anchor := _anchor s; _seed := _seed s;
          _persistence_path := _persistence_path s; _rollback_counter := c |}).

(** [secure_erase(buffer)] on a buffer that nothing refers to afterwards:
    only the ghost log remembers what it held. *)
Definition erase_buffer (buffer : option bytes) : M unit :=
  match buffer with
  | None => raise TypeError
  | Some data =>
      fun h => let _zeroed := Crypto.secure_erase (token_bytes h (length data)) data in
               (Ok tt, with_erased h (data :: erased h))
  end.

(** [ReceiverState.anchor] (property) *)
Definition anchor : M Z := s <- get_state ;; ret (_anchor s).

(** [ReceiverState.seed] (property) *)
Definition seed : M (option bytes) := s <- get_state ;; ret (_seed s).

(** [for _ in range(n): current = KDF(current)] *)
Fixpoint derive (n : nat) (current : bytes) : bytes :=
  match n with
  | O => current
  | S n' => derive n' (Crypto.KDF current None)
  end.

(** [ReceiverState.get_seed_for_index(index)] *)
Definition get_seed_for_index (index : Z) : M (option bytes) :=
  s <- get_state ;;
  if negb (mode s =? "A")%string then ret None
  else if index <? _anchor s then ret None
  else match _seed s with
       | None => raise TypeError
       | Some current => ret (Some (derive (Z.to_nat (index - _anchor s)) current))
       end.

(** The dictionary [_save_state] dumps; [seed] is present in Mode A when the
    stored seed is non-empty. *)
Definition state_blob (s : ReceiverState) (counter : option Z) : Blob :=
  {| blob_mode := Some (mode s);
     blob_anchor := Some (_anchor s);
     blob_version := Some 1;
     blob_seed := if (mode s =? "A")%string then
                    match _seed s with
                    | Some (x :: tl) => Some (hex (x :: tl))
                    | _ => None
                    end
                  else None;
     blob_rollback_counter := counter |}.

Definition temp_path (path : string) : string := (path ++ ".tmp")%string.

(** [ReceiverState._save_state()] *)
Definition ReceiverState__save_state : M unit :=
  s <- get_state ;;
  match _persistence_path s with
  | Some (String c tl) =>
      let path := String c tl in
      try_except
        (write_json (temp_path path) (state_blob s None) ;;
         os_replace (temp_path path) path)
        (fun _ => true)
        (fun e =>
           present <- os_path_exists (temp_path path) ;;
           (if present then os_remove (temp_path path) else ret tt) ;;
           raise e)
  | _ => ret tt
  end.

(** [SecureElementState._save_state()] *)
Definition SecureElementState__save_state : M unit :=
  s <- get_state ;;
  match _persistence_path s with
  | Some (String c tl) =>
      let path := String c tl in
      match _rollback_counter s with
      | None => raise AttributeError
      | Some counter =>
          write_json (temp_path path) (state_blob s (Some counter)) ;;
          os_replace (temp_path path) path
      end
  | _ => ret tt
  end.

(** [self._save_state()]: the method of the object's class. *)
Definition _save_state : M unit :=
  s <- get_state ;;
  match state_cls s with
  | ReceiverStateClass => ReceiverState__save_state
  | SecureElementStateClass => SecureElementState__save_state
  end.

Definition io_fault (e : exn) : bool :=
  match e with
  | JSONDecodeError | OSError => true
  | _ => false
  end.

Definition apply_blob_seed (b : Blob) : M unit :=
  s <- get_state ;;
  if (mode s =? "A")%string then
    match blob_seed b with
    | Some text => loaded <- lift (fromhex text) ;; set_seed (Some loaded)
    | None => ret tt
    end
  else ret tt.

Definition default (d : Z) (o : option Z) : Z :=
  match o with
  | Some v => v
  | None => d
  end.

(** [ReceiverState._load_state()] *)
Definition ReceiverState__load_state : M unit :=
  s <- get_state ;;
  match _persistence_path s with
  | Some (String c tl) =>
      let path := String c tl in
      present <- os_path_exists path ;;
      if negb present then ret tt
      else
        try_except
          (b <- read_json path ;;
           let loaded_anchor := default 0 (blob_anchor b) in
           if loaded_anchor >=? _anchor s then
             set_anchor loaded_anchor ;;
             apply_blob_seed b
           else ret tt)
          io_fault
          (fun _ => ret tt)
  | _ => ret tt
  end.

(** [SecureElementState._load_state()] *)
Definition SecureElementState__load_state : M unit :=
  s <- get_state ;;
  match _persistence_path s with
  | Some (String c tl) =>
      let path := String c tl in
      present <- os_path_exists path ;;
      if negb present then ret tt
      else
        try_except
          (b <- read_json path ;;
           let loaded_counter := default 0 (blob_rollback_counter b) in
           match _rollback_counter s with
           | None => raise AttributeError
           | Some counter =>
               if loaded_counter <? counter then raise SecurityError
               else
                 set_anchor (default 0 (blob_anchor b)) ;;
                 set_rollback_counter (Some loaded_counter) ;;
                 apply_blob_seed b
           end)
          io_fault
          (fun _ => ret tt)
  | _ => ret tt
  end.

(** [self._load_state()]: the method of the object's class. *)
Definition _load_state : M unit :=
  s <- get_state ;;
  match state_cls s with
  | ReceiverStateClass => ReceiverState__load_state
  | SecureElementStateClass => SecureElementState__load_state
  end.

(** [ReceiverState.__init__(mode, anchor, seed, persistence_path)], run for
    an object of class [cls]; the new object becomes the heap's [state]. *)
Definition ReceiverState___init__ (cls : state_class) (mode : string) (anchor : Z)
  (seed : option bytes) (persistence_path : option string) : M unit :=
  let mode := upper mode in
  (if (mode =? "A")%string then
     match seed with
     | None => raise ValueError
     | Some seed =>
         put_state {| state_cls := cls; mode := mode; _anchor := anchor;
                      _seed := Some seed; _persistence_path := persistence_path;
                      _rollback_counter := None |}
     end
   else
     put_state {| state_cls := cls; mode := mode; _anchor := anchor;
                  _seed := None; _persistence_path := persistence_path;
                  _rollback_counter := None |}) ;;
  match persistence_path with
  | Some (String c tl) =>
      present <- os_path_exists (String c tl) ;;
      if present then _load_state else ret tt
  | _ => ret tt
  end.

(** [SecureElementState.__init__(...)] *)
Definition SecureElementState___init__ (mode : string) (anchor : Z)
  (seed : option bytes) (persistence_path : option string) : M unit :=
  ReceiverState___init__ SecureElementStateClass mode anchor seed persistence_path ;;
  set_rollback_counter (Some 0).

(** [ReceiverState.mode_a(seed, persistence_path, initial_anchor)] *)
Definition mode_a (seed : bytes) (persistence_path : option string) (initial_anchor : Z)
  : M unit :=
  ReceiverState___init__ ReceiverStateClass "A" initial_anchor (Some seed) persistence_path.

(** [ReceiverState.mode_b(persistence_path, initial_anchor)] *)
Definition mode_b (persistence_path : option string) (initial_anchor : Z) : M unit :=
  ReceiverState___init__ ReceiverStateClass "B" initial_anchor None persistence_path.

(** [ReceiverState.advance(new_anchor, new_seed)] *)
Definition ReceiverState_advance (new_anchor : Z) (new_seed : option bytes) : M bool :=
  s <- get_state ;;
  if new_anchor <=? _anchor s then ret false
  else
    let persist_and_return :=
      (if truthy_path (_persistence_path s) then _save_state else ret tt) ;;
      ret true in
    if (mode s =? "A")%string then
      match new_seed with
      | None => ret false
      | Some new_seed =>
          let old_seed := _seed s in
          set_seed (Some new_seed) ;;
          set_anchor new_anchor ;;
          erase_buffer old_seed ;;
          persist_and_return
      end
    else
      set_anchor new_anchor ;;
      persist_and_return.

(** [SecureElementState.advance(new_anchor, new_seed)] *)
Definition SecureElementState_advance (new_anchor : Z) (new_seed : option bytes) : M bool :=
  success <- ReceiverState_advance new_anchor new_seed ;;
  (if success : bool then
     s <- get_state ;;
     match _rollback_counter s with
     | None => raise AttributeError
     | Some counter => set_rollback_counter (Some (counter + 1))
     end
   else ret tt) ;;
  ret success.

(** [state.advance(...)]: the method of the object's class. *)
Definition advance (new_anchor : Z) (new_seed : option bytes) : M bool :=
  s <- get_state ;;
  match state_cls s with
  | ReceiverStateClass => ReceiverState_advance new_anchor new_seed
  | SecureElementStateClass => SecureElementState_advance new_anchor new_seed
  end.

(** [ReceiverState.get_window_range(window_size)] *)
Definition get_window_range (window_size : Z) : M (list Z) :=
  s <- get_state ;; ret (range (_anchor s) (_anchor s + window_size + 1)).

(** [ReceiverState.is_in_window(index, window_size)] *)
Definition is_in_window (index window_size : Z) : M bool :=
  s <- get_state ;;
  ret ((_anchor s <=? index) && (index <=? _anchor s + window_size)).

End WithHashlib.
End State.

(** ** validator.py *)

Inductive ValidationResult : Type := ACCEPT | REJECT | ERROR.

Module Validator.
Section WithHashlib.
Context {H : Hashlib}.
Local Open Scope heap_scope.

Definition fresh_stats : Stats :=
  {| total_validations := 0; accepts := 0; rejects := 0; comparisons := 0 |}.

(** [FragmentValidator.__init__(domain, window_size, fragment_length,
    use_keyed_mode, evol_func)], for an object of class [cls]. *)
Definition __init__ (cls : validator_class) (domain : bytes) (window_size : Z)
  (fragment_length : Z) (use_keyed_mode : bool) (evol_func : option (Z -> result bytes))
  : FragmentValidator :=
  {| validator_cls := cls; domain := domain; window_size := window_size;
     fragment_length := fragment_length; use_keyed_mode := use_keyed_mode;
     evol_func := evol_func; _stats := fresh_stats |}.

Definition set_stats (st : Stats) : M unit :=
  v <- get_validator ;;
  put_validator {| validator_cls := validator_cls v; domain := domain v;
                   window_size := window_size v; fragment_length := fragment_length v;
                   use_keyed_mode := use_keyed_mode v; evol_func := evol_func v;
                   _stats := st |}.

(** [self._stats["total_validations"] += 1] and its three siblings. *)
Definition count_validation : M unit :=
  v <- get_validator ;;
  let st := _stats v in
  set_stats {| total_validations := total_validations st + 1; accepts := accepts st;
               rejects := rejects st; comparisons := comparisons st |}.

Definition count_accept : M unit :=
  v <- get_validator ;;
  let st := _stats v in
  set_stats {| total_validations := total_validations st; accepts := accepts st + 1;
               rejects := rejects st; comparisons := comparisons st |}.

Definition count_reject : M unit :=
  v <- get_validator ;;
  let st := _stats v in
  set_stats {| total_validations := total_validations st; accepts := accepts st;
               rejects := rejects st + 1; comparisons := comparisons st |}.

Definition count_comparison : M unit :=
  v <- get_validator ;;
  let st := _stats v in
  set_stats {| total_validations := total_validations st; accepts := accepts st;
               rejects := rejects st; comparisons := comparisons st + 1 |}.

(** The three primitives as the validators call them: each call is counted. *)
Definition call_compute_fragment (domain content evolution_param : bytes)
  (fragment_length_bits : Z) (key : option bytes) : M bytes :=
  fun h =>
    let c := calls h in
    lift (Crypto.compute_fragment domain content evolution_param fragment_length_bits key)
         (with_calls h {| n_compute_fragment := S (n_compute_fragment c);
                          n_KDF := n_KDF c;
                          n_constant_time_equal := n_constant_time_equal c |}).

Definition call_KDF (seed : bytes) : M bytes :=
  fun h =>
    let c := calls h in
    (Ok (Crypto.KDF seed None),
     with_calls h {| n_compute_fragment := n_compute_fragment c;
                     n_KDF := S (n_KDF c);
                     n_constant_time_equal := n_constant_time_equal c |}).

Definition call_constant_time_equal (a b : bytes) : M bool :=
  fun h =>
    let c := calls h in
    (Ok (Crypto.constant_time_equal a b),
     with_calls h {| n_compute_fragment := n_compute_fragment c;
                     n_KDF := n_KDF c;
                     n_constant_time_equal := S (n_constant_time_equal c) |}).

(** The loop of [FragmentValidator._validate_mode_a]; the empty window is the
    code after the loop. *)
Fixpoint mode_a_loop (fragment_rx content : bytes) (window : list Z)
  (current_seed : bytes) : M (ValidationResult * option Z) :=
  match window with
  | [] => count_reject ;; ret (REJECT, None)
  | j :: window =>
      count_comparison ;;
      v <- get_validator ;;
      expected <- (if use_keyed_mode v then
                     call_compute_fragment (domain v) content current_seed
                                           (fragment_length v) (Some current_seed)
                   else
                     call_compute_fragment (domain v) content current_seed
                                           (fragment_length v) None) ;;
      equal <- call_constant_time_equal expected fragment_rx ;;
      if equal : bool then count_accept ;; ret (ACCEPT, Some j)
      else
        current_seed <- call_KDF current_seed ;;
        mode_a_loop fragment_rx content window current_seed
  end.

(** [FragmentValidator._validate_mode_a(fragment_rx, state, content, window)] *)
Definition FragmentValidator__validate_mode_a (fragment_rx content : bytes)
  (window : list Z) : M (ValidationResult * option Z) :=
  current_seed <- State.seed ;;
  match current_seed with
  | None => ret (ERROR, None)
  | Some current_seed => mode_a_loop fragment_rx content window current_seed
  end.

(** The loop of [FragmentValidator._validate_mode_b]. *)
Fixpoint mode_b_loop (evol_func : Z -> result bytes) (fragment_rx content : bytes)
  (window : list Z) : M (ValidationResult * option Z) :=
  match window with
  | [] => count_reject ;; ret (REJECT, None)
  | j :: window =>
      count_comparison ;;
      v <- get_validator ;;
      evolution_param <- lift (evol_func j) ;;
      expected <- call_compute_fragment (domain v) content evolution_param
                                        (fragment_length v) None ;;
      equal <- call_constant_time_equal expected fragment_rx ;;
      if equal : bool then count_accept ;; ret (ACCEPT, Some j)
      else mode_b_loop evol_func fragment_rx content window
  end.

(** [FragmentValidator._validate_mode_b(fragment_rx, state, content, window)] *)
Definition FragmentValidator__validate_mode_b (fragment_rx content : bytes)
  (window : list Z) : M (ValidationResult * option Z) :=
  v <- get_validator ;;
  match evol_func v with
  | None => ret (ERROR, None)
  | Some evol_func => mode_b_loop evol_func fragment_rx content window
  end.

(** The loop of [ConstantTimeValidator._validate_mode_a]; the empty window is
    the code after the loop. *)
Fixpoint ct_mode_a_loop (fragment_rx content : bytes) (window : list Z)
  (current_seed : bytes) (matched_index : option Z) : M (ValidationResult * option Z) :=
  match window with
  | [] =>
      match matched_index with
      | Some j => count_accept ;; ret (ACCEPT, Some j)
      | None => count_reject ;; ret (REJECT, None)
      end
  | j :: window =>
      count_comparison ;;
      v <- get_validator ;;
      expected <- (if use_keyed_mode v then
                     call_compute_fragment (domain v) content current_seed
                                           (fragment_length v) (Some current_seed)
                   else
                     call_compute_fragment (domain v) content current_seed
                                           (fragment_length v) None) ;;
      equal <- call_constant_time_equal expected fragment_rx ;;
      let matched_index :=
        if equal : bool then
          match matched_index with
          | None => Some j
          | Some _ => matched_index
          end
        else matched_index in
      current_seed <- call_KDF current_seed ;;
      ct_mode_a_loop fragment_rx content window current_seed matched_index
  end.

(** [ConstantTimeValidator._validate_mode_a(fragment_rx, state, content, window)] *)
Definition ConstantTimeValidator__validate_mode_a (fragment_rx content : bytes)
  (window : list Z) : M (ValidationResult * option Z) :=
  current_seed <- State.seed ;;
  match current_seed with
  | None => ret (ERROR, None)
  | Some current_seed => ct_mode_a_loop fragment_rx content window current_seed None
  end.

(** [self._validate_mode_a(...)]: the method of the validator's class. *)
Definition _validate_mode_a (fragment_rx content : bytes) (window : list Z)
  : M (ValidationResult * option Z) :=
  v <- get_validator ;;
  match validator_cls v with
  | FragmentValidatorClass => FragmentValidator__validate_mode_a fragment_rx content window
  | ConstantTimeValidatorClass =>
      ConstantTimeValidator__validate_mode_a fragment_rx content window
  end.

(** [self._validate_mode_b(...)]: [ConstantTimeValidator] does not override
    it, so both classes run [FragmentValidator]'s. *)
Definition _validate_mode_b (fragment_rx content : bytes) (window : list Z)
  : M (ValidationResult * option Z) :=
  FragmentValidator__validate_mode_b fragment_rx content window.

(** [FragmentValidator.validate(fragment_rx, state, content, content_is_prepared)] *)
Definition validate (fragment_rx content : bytes) (content_is_prepared : bool)
  : M (ValidationResult * option Z) :=
  count_validation ;;
  v <- get_validator ;;
  let expected_length := fragment_length v / 8 in
  if negb (Z.of_nat (length fragment_rx) =? expected_length) then ret (ERROR, None)
  else
    let prepared_content := if content_is_prepared then content
                            else Crypto.prepare_content content true in
    anchor <- State.anchor ;;
    let window := range anchor (anchor + window_size v + 1) in
    s <- get_state ;;
    if (mode s =? "A")%string then _validate_mode_a fragment_rx prepared_content window
    else _validate_mode_b fragment_rx prepared_content window.

Definition is_accept (r : ValidationResult) : bool :=
  match r with
  | ACCEPT => true
  | _ => false
  end.

(** [FragmentValidator.validate_and_commit(fragment_rx, state, content,
    content_is_prepared)] *)
Definition validate_and_commit (fragment_rx content : bytes) (content_is_prepared : bool)
  : M (ValidationResult * option Z) :=
  r <- validate fragment_rx content content_is_prepared ;;
  match r with
  | (result, Some matched_index) =>
      if is_accept result then
        s <- get_state ;;
        new_seed <- (if (mode s =? "A")%string then
                       State.get_seed_for_index (matched_index + 1)
                     else ret None) ;;
        success <- State.advance (matched_index + 1) new_seed ;;
        if success : bool then ret (result, Some matched_index)
        else ret (ERROR, None)
      else ret (result, Some matched_index)
  | (result, None) => ret (result, None)
  end.

(** [FragmentValidator.stats] (property) *)
Definition stats : M Stats := v <- get_validator ;; ret (_stats v).

(** [FragmentValidator.reset_stats()] *)
Definition reset_stats : M unit := set_stats fresh_stats.

End WithHashlib.
End Validator.

(** * Properties *)

(** ** Bytes and integers *)

Lemma Z_of_byte_range (b : byte) : 0 <= Z_of_byte b < 256.
Proof.
  unfold Z_of_byte. pose proof (Byte.to_N_bounded b). lia.
Qed.

Lemma Z_of_byte_inj (a b : byte) : Z_of_byte a = Z_of_byte b -> a = b.
Proof.
  unfold Z_of_byte. intro E. apply N2Z.inj in E.
  pose proof (Byte.of_to_N a) as Ha. pose proof (Byte.of_to_N b) as Hb.
  rewrite E in Ha. congruence.
Qed.

Lemma Z_of_byte_of_Z (z : Z) : Z_of_byte (byte_of_Z z) = z mod 256.
Proof.
  unfold byte_of_Z, Z_of_byte.
  pose proof (Z.mod_pos_bound z 256 ltac:(lia)) as B.
  destruct (Byte.of_N (Z.to_N (z mod 256))) as [b|] eqn:E.
  - apply Byte.to_of_N in E. rewrite E. lia.
  - apply Byte.of_N_None_iff in E. lia.
Qed.

Lemma be_value_snoc (l : bytes) (b : byte) :
  be_value (l ++ [b]) = be_value l * 256 + Z_of_byte b.
Proof. unfold be_value. rewrite fold_left_app. reflexivity. Qed.

Lemma be_value_be_bytes (n : nat) (z : Z) :
  0 <= z < 256 ^ Z.of_nat n -> be_value (be_bytes n z) = z.
Proof.
  revert z. induction n as [|n IH]; intros z Hz.
  - simpl in *. unfold be_value. simpl. lia.
  - cbn [be_bytes]. rewrite be_value_snoc, Z_of_byte_of_Z.
    rewrite Nat2Z.inj_succ, Z.pow_succ_r in Hz by lia.
    rewrite IH.
    + pose proof (Z.div_mod z 256 ltac:(lia)). lia.
    + split; [apply Z.div_pos; lia|].
      apply Z.div_lt_upper_bound; lia.
Qed.

Lemma to_bytes_Ok (n : nat) (z : Z) :
  0 <= z < 256 ^ Z.of_nat n -> to_bytes n z = Ok (be_bytes n z).
Proof.
  intro Hz. unfold to_bytes.
  destruct (z <? 0) eqn:E1; [apply Z.ltb_lt in E1; lia|].
  destruct (256 ^ Z.of_nat n <=? z) eqn:E2; [apply Z.leb_le in E2; lia|].
  reflexivity.
Qed.

Lemma to_bytes_inv (n : nat) (z : Z) (p : bytes) :
  to_bytes n z = Ok p -> 0 <= z < 256 ^ Z.of_nat n /\ p = be_bytes n z.
Proof.
  unfold to_bytes.
  destruct (z <? 0) eqn:E1; [discriminate|].
  destruct (256 ^ Z.of_nat n <=? z) eqn:E2; [discriminate|].
  cbn [orb]. intro E. inversion E.
  apply Z.ltb_ge in E1. apply Z.leb_gt in E2. split; [lia|reflexivity].
Qed.

Lemma to_bytes_length (n : nat) (z : Z) (p : bytes) :
  to_bytes n z = Ok p -> length p = n.
Proof.
  intro E. apply to_bytes_inv in E. destruct E as [_ ->]. apply be_bytes_length.
Qed.

Lemma to_bytes_inj (n : nat) (a b : Z) (p : bytes) :
  to_bytes n a = Ok p -> to_bytes n b = Ok p -> a = b.
Proof.
  intros Ea Eb. apply to_bytes_inv in Ea, Eb.
  destruct Ea as [Ha ->], Eb as [Hb Eb].
  rewrite <- (be_value_be_bytes n a Ha), <- (be_value_be_bytes n b Hb).
  congruence.
Qed.

Lemma Ok_inj {A} (a b : A) : Ok a = Ok b -> a = b.
Proof. intro E. injection E as E. exact E. Qed.

Lemma app_inj_length {A} (a a' b b' : list A) :
  length a = length a' -> a ++ b = a' ++ b' -> a = a' /\ b = b'.
Proof.
  revert a'. induction a as [|x a IH]; intros [|x' a'] Hlen E; try discriminate.
  - split; [reflexivity|exact E].
  - simpl in Hlen, E. inversion E; subst.
    destruct (IH a' ltac:(lia) H1) as [-> ->]. split; reflexivity.
Qed.

(** ** crypto.py: the encoder *)

Lemma length_prefix_Ok (data : bytes) :
  Z.of_nat (length data) <= 2 ^ 32 - 1 ->
  Crypto.length_prefix data = Ok (be_bytes 4 (Z.of_nat (length data)) ++ data).
Proof.
  intro Hd. unfold Crypto.length_prefix.
  rewrite to_bytes_Ok; [reflexivity|].
  change (256 ^ Z.of_nat 4) with (2 ^ 32). lia.
Qed.

Lemma length_prefix_inj (a b rest_a rest_b pa pb : bytes) :
  Crypto.length_prefix a = Ok pa -> Crypto.length_prefix b = Ok pb ->
  pa ++ rest_a = pb ++ rest_b -> a = b /\ rest_a = rest_b.
Proof.
  unfold Crypto.length_prefix. intros Ea Eb E.
  destruct (to_bytes 4 (Z.of_nat (length a))) as [qa|] eqn:Qa; [|discriminate].
  destruct (to_bytes 4 (Z.of_nat (length b))) as [qb|] eqn:Qb; [|discriminate].
  cbn [rbind] in Ea, Eb. apply Ok_inj in Ea, Eb. subst pa pb.
  rewrite <- !app_assoc in E.
  apply app_inj_length in E.
  2:{ rewrite (to_bytes_length _ _ _ Qa), (to_bytes_length _ _ _ Qb). reflexivity. }
  destruct E as [Eq E]. subst qb.
  pose proof (to_bytes_inj _ _ _ _ Qa Qb) as Hlen.
  apply Nat2Z.inj in Hlen.
  apply app_inj_length in E; [exact E|exact Hlen].
Qed.

Lemma encode_Ok (D C Z : bytes) :
  Z.of_nat (length D) <= 2 ^ 32 - 1 ->
  Z.of_nat (length C) <= 2 ^ 32 - 1 ->
  Z.of_nat (length Z) <= 2 ^ 32 - 1 ->
  Crypto.encode D C Z =
  Ok ((be_bytes 4 (Z.of_nat (length D)) ++ D)
      ++ (be_bytes 4 (Z.of_nat (length C)) ++ C)
      ++ (be_bytes 4 (Z.of_nat (length Z)) ++ Z)).
Proof.
  intros HD HC HZ. unfold Crypto.encode.
  rewrite !length_prefix_Ok by assumption. reflexivity.
Qed.

(** C7.  [encode] returns for byte strings of at most 2^32 - 1 bytes each,
    and on them it is injective: equal encodings come from equal triples. *)
Theorem encode_injective (D C Z D' C' Z' : bytes) :
  Z.of_nat (length D) <= 2 ^ 32 - 1 ->
  Z.of_nat (length C) <= 2 ^ 32 - 1 ->
  Z.of_nat (length Z) <= 2 ^ 32 - 1 ->
  Z.of_nat (length D') <= 2 ^ 32 - 1 ->
  Z.of_nat (length C') <= 2 ^ 32 - 1 ->
  Z.of_nat (length Z') <= 2 ^ 32 - 1 ->
  (exists e, Crypto.encode D C Z = Ok e) /\
  (Crypto.encode D C Z = Crypto.encode D' C' Z' -> D = D' /\ C = C' /\ Z = Z').
Proof.
  intros HD HC HZ HD' HC' HZ'. split.
  - eexists. apply encode_Ok; assumption.
  - unfold Crypto.encode.
    pose proof (length_prefix_Ok D HD) as LD. pose proof (length_prefix_Ok C HC) as LC.
    pose proof (length_prefix_Ok Z HZ) as LZ. pose proof (length_prefix_Ok D' HD') as LD'.
    pose proof (length_prefix_Ok C' HC') as LC'. pose proof (length_prefix_Ok Z' HZ') as LZ'.
    rewrite LD, LC, LZ, LD', LC', LZ'. cbn [rbind]. intro E. apply Ok_inj in E. rename E into E'.
    destruct (length_prefix_inj _ _ _ _ _ _ LD LD' E') as [-> E1].
    destruct (length_prefix_inj _ _ _ _ _ _ LC LC' E1) as [-> E2].
    rewrite <- (app_nil_r (be_bytes 4 (Z.of_nat (length Z)) ++ Z)) in E2.
    rewrite <- (app_nil_r (be_bytes 4 (Z.of_nat (length Z')) ++ Z')) in E2.
    destruct (length_prefix_inj _ _ _ _ _ _ LZ LZ' E2) as [-> _].
    repeat split.
Qed.

(** Beyond the bound the length prefix does not fit and [encode] raises. *)
Lemma encode_overflow (D C Z : bytes) :
  2 ^ 32 <= Z.of_nat (length D) -> Crypto.encode D C Z = Raise OverflowError.
Proof.
  intro HD. unfold Crypto.encode, Crypto.length_prefix, to_bytes.
  change (256 ^ Z.of_nat 4) with (2 ^ 32).
  destruct (Z.of_nat (length D) <? 0) eqn:E1; [reflexivity|].
  destruct (2 ^ 32 <=? Z.of_nat (length D)) eqn:E2; [reflexivity|].
  apply Z.leb_gt in E2. lia.
Qed.

Lemma encode_injective_witness :
  (exists e, Crypto.encode [x01; x02] [x03] [] = Ok e)
  /\ (Crypto.encode [x01; x02] [x03] [] = Crypto.encode [x01; x02] [x03] [] ->
      [x01; x02] = [x01; x02] /\ [x03] = [x03] /\ @nil byte = []).
Proof.
  apply (encode_injective [x01; x02] [x03] [] [x01; x02] [x03] []); cbn; lia.
Defined.

(** Without the length prefixes these two triples would read the same. *)
Example encode_separates_boundaries :
  Crypto.encode [x01; x02] [x03] [] = Ok (map byte_of_Z [0;0;0;2;1;2; 0;0;0;1;3; 0;0;0;0])
  /\ Crypto.encode [x01] [x02; x03] [] = Ok (map byte_of_Z [0;0;0;1;1; 0;0;0;2;2;3; 0;0;0;0]).
Proof. split; reflexivity. Qed.

(** ** crypto.py: comparison, erasure and the fragment function *)

Lemma fold_lor_zero (l : list (byte * byte)) (acc : Z) :
  fold_left (fun diff xy => Z.lor diff (Z.lxor (Z_of_byte (fst xy)) (Z_of_byte (snd xy))))
            l acc = 0 <->
  acc = 0 /\ Forall (fun xy => fst xy = snd xy) l.
Proof.
  revert acc. induction l as [|[x y] l IH]; intro acc; cbn [fold_left].
  - split; [intro E; split; [exact E|constructor]|intros [E _]; exact E].
  - rewrite IH, Z.lor_eq_0_iff, Z.lxor_eq_0_iff. cbn [fst snd]. split.
    + intros [[Ea Exy] Hl]. split; [exact Ea|].
      constructor; [apply Z_of_byte_inj; exact Exy|exact Hl].
    + intros [Ea Hl]. inversion Hl as [|? ? Exy Hl']; subst.
      cbn [fst snd] in Exy. subst y. repeat split; assumption.
Qed.

Lemma combine_same_iff (a b : bytes) :
  length a = length b ->
  (Forall (fun xy : byte * byte => fst xy = snd xy) (combine a b) <-> a = b).
Proof.
  revert b. induction a as [|x a IH]; intros [|y b] Hlen; try discriminate.
  - split; [reflexivity|constructor].
  - cbn [combine]. simpl in Hlen. split.
    + intro F. inversion F as [|? ? Exy F']; subst. cbn [fst snd] in Exy. subst y.
      f_equal. apply IH; [lia|exact F'].
    + intro E. inversion E; subst. constructor; [reflexivity|].
      apply IH; [lia|reflexivity].
Qed.

(** [constant_time_equal] decides equality of byte strings. *)
Lemma constant_time_equal_iff (a b : bytes) :
  Crypto.constant_time_equal a b = true <-> a = b.
Proof.
  unfold Crypto.constant_time_equal.
  destruct (length a =? length b)%nat eqn:El; cbn [negb].
  - apply Nat.eqb_eq in El. rewrite Z.eqb_eq, fold_lor_zero, combine_same_iff by exact El.
    split; [intros [_ E]; exact E|intro E; split; [reflexivity|exact E]].
  - apply Nat.eqb_neq in El. split; [discriminate|].
    intro E. subst b. contradiction El. reflexivity.
Qed.

Lemma constant_time_equal_refl (a : bytes) : Crypto.constant_time_equal a a = true.
Proof. apply constant_time_equal_iff. reflexivity. Qed.

Lemma set_item_length (data : bytes) (i : nat) (v : byte) :
  length (Crypto.set_item data i v) = length data.
Proof.
  revert i. induction data as [|x data IH]; intros [|i]; simpl; try reflexivity.
  rewrite IH. reflexivity.
Qed.

Lemma zero_pass (n : nat) (done rest : bytes) :
  length rest = n ->
  fold_left (fun data i => Crypto.set_item data i x00) (seq (length done) n) (done ++ rest)
  = done ++ repeat x00 n.
Proof.
  revert done rest. induction n as [|n IH]; intros done rest Hlen.
  - destruct rest; [reflexivity|discriminate].
  - destruct rest as [|r rest]; [discriminate|]. cbn [seq fold_left repeat].
    assert (E : Crypto.set_item (done ++ r :: rest) (length done) x00
                = (done ++ [x00]) ++ rest).
    { clear. induction done as [|d done IHd]; simpl; [reflexivity|].
      rewrite IHd. reflexivity. }
    rewrite E.
    replace (S (length done)) with (length (done ++ [x00]))
      by (rewrite length_app; simpl; lia).
    rewrite IH by (simpl in Hlen; lia).
    rewrite <- app_assoc. reflexivity.
Qed.

Lemma fold_set_item_length (f : nat -> byte) (l : list nat) (data : bytes) :
  length (fold_left (fun data i => Crypto.set_item data i (f i)) l data) = length data.
Proof.
  revert data. induction l as [|i l IH]; intro data; cbn [fold_left]; [reflexivity|].
  rewrite IH. apply set_item_length.
Qed.

(** Whatever the first pass wrote, [secure_erase] leaves zeros. *)
Lemma secure_erase_zeros (random_bytes data : bytes) :
  Crypto.secure_erase random_bytes data = repeat x00 (length data).
Proof.
  unfold Crypto.secure_erase.
  set (pass1 := fold_left _ _ data).
  assert (Hlen : length pass1 = length data).
  { apply (fold_set_item_length (fun i => nth i random_bytes x00)). }
  exact (zero_pass (length data) [] pass1 Hlen).
Qed.

Section CryptoFacts.
Context {H : Hashlib}.

Lemma extend_output_unfold (key encoded_input : bytes) (n : nat) (output : bytes) :
  Crypto.extend_output key encoded_input n output =
  if (length output <? n)%nat then
    match to_bytes 4 (Z.of_nat (length output)) with
    | Raise e => Raise e
    | Ok counter =>
        Crypto.extend_output key encoded_input n
                             (output ++ hmac_sha256 key (encoded_input ++ counter))
    end
  else Ok output.
Proof.
  apply (Crypto.extend_output_elim
           (fun key encoded_input n output r =>
              r = if (length output <? n)%nat then
                    match to_bytes 4 (Z.of_nat (length output)) with
                    | Raise e => Raise e
                    | Ok counter =>
                        Crypto.extend_output key encoded_input n
                          (output ++ hmac_sha256 key (encoded_input ++ counter))
                    end
                  else Ok output)).
  - intros k e m o E _. rewrite E. reflexivity.
  - intros k e m o counter Hlt _ Hc _. rewrite Hlt, Hc. reflexivity.
  - intros k e m o x Hlt Hc _. rewrite Hlt, Hc. reflexivity.
Qed.

(** The extension loop returns, with at least the bytes asked for, whenever
    every counter fits its four bytes. *)
Lemma extend_output_returns (key encoded_input : bytes) (n : nat) (output : bytes) :
  Z.of_nat n <= 2 ^ 32 ->
  exists out, Crypto.extend_output key encoded_input n output = Ok out
              /\ (n <= length out)%nat.
Proof.
  intro Hn.
  apply (Crypto.extend_output_elim
           (fun key encoded_input n output r =>
              Z.of_nat n <= 2 ^ 32 -> exists out, r = Ok out /\ (n <= length out)%nat));
    [| | |exact Hn].
  - intros k e m o E _ _. apply Nat.ltb_ge in E. exists o. split; [reflexivity|exact E].
  - intros k e m o counter Hlt IH _ _ Hm. apply IH. exact Hm.
  - intros k e m o x Hlt Hc _ Hm. apply Nat.ltb_lt in Hlt.
    rewrite to_bytes_Ok in Hc; [discriminate|].
    change (256 ^ Z.of_nat 4) with (2 ^ 32). lia.
Qed.

(** [compute_fragment] returns exactly [l / 8] bytes for a length of at least
    256 bits, inputs the encoder accepts and, in keyed mode, a length whose
    counters fit. *)
Lemma compute_fragment_returns (D C Zi : bytes) (l : Z) (key : option bytes) :
  256 <= l ->
  Z.of_nat (length D) <= 2 ^ 32 - 1 ->
  Z.of_nat (length C) <= 2 ^ 32 - 1 ->
  Z.of_nat (length Zi) <= 2 ^ 32 - 1 ->
  (key <> None -> l / 8 <= 2 ^ 32) ->
  exists F, Crypto.compute_fragment D C Zi l key = Ok F /\ Z.of_nat (length F) = l / 8.
Proof.
  intros Hl HD HC HZ Hk. unfold Crypto.compute_fragment.
  destruct (l <? 256) eqn:E; [apply Z.ltb_lt in E; lia|].
  rewrite (encode_Ok D C Zi HD HC HZ). cbn [rbind].
  assert (Hpos : 0 <= l / 8) by (apply Z.div_pos; lia).
  destruct key as [key|].
  - match goal with
    | |- context [Crypto.extend_output ?k ?e ?n ?o] =>
        destruct (extend_output_returns k e n o) as [out [-> Hout]]
    end.
    { rewrite Z2Nat.id by exact Hpos. apply Hk. discriminate. }
    cbn [rbind]. eexists. split; [reflexivity|].
    rewrite length_firstn. lia.
  - cbn [rbind]. eexists. split; [reflexivity|].
    rewrite length_firstn, shake_256_digest_size. lia.
Qed.


End CryptoFacts.

(** ** What a computation leaves alone *)

(** The receiver's side of the heap: its state object, the files and the
    log of erased buffers. *)
Definition receiver_view (h : Heap) : ReceiverState * list (string * file) * list bytes :=
  (state h, fs_files h, erased h).

(** [read_only m]: whatever [m] returns or raises, the receiver's side of the
    heap is as it was. *)
Definition read_only {A} (m : M A) : Prop :=
  forall h, receiver_view (snd (m h)) = receiver_view h.

Lemma read_only_ret {A} (a : A) : read_only (ret a).
Proof. intro h. reflexivity. Qed.

Lemma read_only_raise {A} (e : exn) : read_only (@raise A e).
Proof. intro h. reflexivity. Qed.

Lemma read_only_lift {A} (r : result A) : read_only (lift r).
Proof. intro h. reflexivity. Qed.

Lemma read_only_bind {A B} (m : M A) (k : A -> M B) :
  read_only m -> (forall a, read_only (k a)) -> read_only (bind m k).
Proof.
  intros Hm Hk h. unfold bind. specialize (Hm h).
  destruct (m h) as [[a|e] h']; cbn [snd] in *.
  - rewrite Hk. exact Hm.
  - exact Hm.
Qed.

Lemma read_only_get_state : read_only get_state.
Proof. intro h. reflexivity. Qed.

Lemma read_only_get_validator : read_only get_validator.
Proof. intro h. reflexivity. Qed.

Lemma read_only_put_validator (v : FragmentValidator) : read_only (put_validator v).
Proof. intro h. reflexivity. Qed.

Create HintDb frame.
#[export] Hint Resolve read_only_ret read_only_raise read_only_lift read_only_get_state
  read_only_get_validator read_only_put_validator : frame.

(** Splits a computation along its binds and branches, closing the leaves
    with the [frame] hints. *)
Ltac frame :=
  repeat first
    [ solve [auto with frame]
    | apply read_only_bind; [|intro]
    | match goal with
      | |- read_only (if ?b then _ else _) => destruct b
      | |- read_only (match ?x with _ => _ end) => destruct x
      end ].

Section ValidatorFrame.
Context {H : Hashlib}.

Lemma read_only_anchor : read_only State.anchor.
Proof. unfold State.anchor. frame. Qed.

Lemma read_only_seed : read_only State.seed.
Proof. unfold State.seed. frame. Qed.

Lemma read_only_set_stats (st : Stats) : read_only (Validator.set_stats st).
Proof. unfold Validator.set_stats. frame. Qed.

Lemma read_only_count_validation : read_only Validator.count_validation.
Proof. unfold Validator.count_validation. frame. Qed.

Lemma read_only_count_accept : read_only Validator.count_accept.
Proof. unfold Validator.count_accept. frame. Qed.

Lemma read_only_count_reject : read_only Validator.count_reject.
Proof. unfold Validator.count_reject. frame. Qed.

Lemma read_only_count_comparison : read_only Validator.count_comparison.
Proof. unfold Validator.count_comparison. frame. Qed.

Lemma read_only_call_compute_fragment (D C Zi : bytes) (l : Z) (key : option bytes) :
  read_only (Validator.call_compute_fragment D C Zi l key).
Proof. intro h. reflexivity. Qed.

Lemma read_only_call_KDF (seed : bytes) : read_only (Validator.call_KDF seed).
Proof. intro h. reflexivity. Qed.

Lemma read_only_call_constant_time_equal (a b : bytes) :
  read_only (Validator.call_constant_time_equal a b).
Proof. intro h. reflexivity. Qed.

Hint Resolve read_only_anchor read_only_seed read_only_count_validation
  read_only_count_accept read_only_count_reject read_only_count_comparison
  read_only_call_compute_fragment read_only_call_KDF
  read_only_call_constant_time_equal : frame.

Lemma read_only_mode_a_loop (F C : bytes) (window : list Z) (seed : bytes) :
  read_only (Validator.mode_a_loop F C window seed).
Proof.
  revert seed. induction window as [|j window IH]; intro seed;
    cbn [Validator.mode_a_loop]; frame.
Qed.

Lemma read_only_mode_b_loop (evol : Z -> result bytes) (F C : bytes) (window : list Z) :
  read_only (Validator.mode_b_loop evol F C window).
Proof.
  induction window as [|j window IH]; cbn [Validator.mode_b_loop]; frame.
Qed.

Lemma read_only_ct_mode_a_loop (F C : bytes) (window : list Z) (seed : bytes)
  (matched : option Z) :
  read_only (Validator.ct_mode_a_loop F C window seed matched).
Proof.
  revert seed matched. induction window as [|j window IH]; intros seed matched;
    cbn [Validator.ct_mode_a_loop]; frame.
Qed.

Hint Resolve read_only_mode_a_loop read_only_mode_b_loop read_only_ct_mode_a_loop : frame.

Lemma read_only_validate (F S : bytes) (prepared : bool) :
  read_only (Validator.validate F S prepared).
Proof.
  unfold Validator.validate, Validator._validate_mode_a, Validator._validate_mode_b,
    Validator.FragmentValidator__validate_mode_a,
    Validator.ConstantTimeValidator__validate_mode_a,
    Validator.FragmentValidator__validate_mode_b.
  frame.
Qed.

End ValidatorFrame.

(** C10.  [validate] leaves the receiver state object as it found it (its
    anchor and its seed among the rest), writes no file and erases no
    buffer, whether it returns ACCEPT, REJECT or ERROR or raises, in both
    modes and for both validator classes. *)
Theorem validate_leaves_state {H : Hashlib} (F S : bytes) (prepared : bool) (h : Heap) :
  state (snd (Validator.validate F S prepared h)) = state h
  /\ fs_files (snd (Validator.validate F S prepared h)) = fs_files h
  /\ erased (snd (Validator.validate F S prepared h)) = erased h.
Proof.
  pose proof (read_only_validate F S prepared h) as E.
  unfold receiver_view in E. inversion E as [[E1 E2 E3]].
  rewrite E1, E2, E3. repeat split.
Qed.

(** ** What the window search returns *)

Section ValidatorResults.
Context {H : Hashlib}.

(** The fragment a validator configured with [D], [l] and [keyed] expects
    for content [C] under seed (or evolution parameter) [z]. *)
Definition expected_fragment (D : bytes) (l : Z) (keyed : bool) (C z : bytes)
  : result bytes :=
  Crypto.compute_fragment D C z l (if keyed then Some z else None).

(** The search of Mode A as a function of the configuration alone: the
    first index of the window whose expected fragment equals [F]. *)
Fixpoint first_match (D : bytes) (l : Z) (keyed : bool) (F C : bytes)
  (window : list Z) (seed : bytes) : result (option Z) :=
  match window with
  | [] => Ok None
  | j :: window =>
      rbind (expected_fragment D l keyed C seed)
            (fun e => if Crypto.constant_time_equal e F then Ok (Some j)
                      else first_match D l keyed F C window (Crypto.KDF seed None))
  end.

Definition verdict (r : result (option Z)) : result (ValidationResult * option Z) :=
  match r with
  | Ok (Some j) => Ok (ACCEPT, Some j)
  | Ok None => Ok (REJECT, None)
  | Raise e => Raise e
  end.

Lemma mode_a_loop_result (F C : bytes) (window : list Z) (seed : bytes) (h : Heap) :
  fst (Validator.mode_a_loop F C window seed h)
  = verdict (first_match (domain (validator h)) (fragment_length (validator h))
                         (use_keyed_mode (validator h)) F C window seed).
Proof.
  revert seed h. induction window as [|j window IH]; intros seed h.
  - reflexivity.
  - cbn [Validator.mode_a_loop first_match].
    unfold bind, Validator.count_comparison, Validator.set_stats, get_validator,
      put_validator, Validator.call_compute_fragment, lift,
      Validator.call_constant_time_equal, Validator.call_KDF, expected_fragment.
    cbn.
    destruct (use_keyed_mode (validator h)).
    + destruct (Crypto.compute_fragment _ _ _ _ _) as [e|x]; cbn; [|reflexivity].
      destruct (Crypto.constant_time_equal e F); cbn; [reflexivity|].
      rewrite IH. reflexivity.
    + destruct (Crypto.compute_fragment _ _ _ _ _) as [e|x]; cbn; [|reflexivity].
      destruct (Crypto.constant_time_equal e F); cbn; [reflexivity|].
      rewrite IH. reflexivity.
Qed.

(** The search of [ConstantTimeValidator] in Mode A, likewise: the whole
    window is walked and the first match kept. *)
Fixpoint ct_first_match (D : bytes) (l : Z) (keyed : bool) (F C : bytes)
  (window : list Z) (seed : bytes) (matched : option Z) : result (option Z) :=
  match window with
  | [] => Ok matched
  | j :: window =>
      rbind (expected_fragment D l keyed C seed)
            (fun e =>
               ct_first_match D l keyed F C window (Crypto.KDF seed None)
                 (if Crypto.constant_time_equal e F then
                    match matched with
                    | None => Some j
                    | Some _ => matched
                    end
                  else matched))
  end.

Lemma ct_mode_a_loop_result (F C : bytes) (window : list Z) (seed : bytes)
  (matched : option Z) (h : Heap) :
  fst (Validator.ct_mode_a_loop F C window seed matched h)
  = verdict (ct_first_match (domain (validator h)) (fragment_length (validator h))
                            (use_keyed_mode (validator h)) F C window seed matched).
Proof.
  revert seed matched h. induction window as [|j window IH]; intros seed matched h.
  - destruct matched; reflexivity.
  - cbn [Validator.ct_mode_a_loop ct_first_match].
    unfold bind, Validator.count_comparison, Validator.set_stats, get_validator,
      put_validator, Validator.call_compute_fragment, lift,
      Validator.call_constant_time_equal, Validator.call_KDF, expected_fragment.
    cbn.
    destruct (use_keyed_mode (validator h)).
    + destruct (Crypto.compute_fragment _ _ _ _ _) as [e|x]; cbn; [|reflexivity].
      rewrite IH. reflexivity.
    + destruct (Crypto.compute_fragment _ _ _ _ _) as [e|x]; cbn; [|reflexivity].
      rewrite IH. reflexivity.
Qed.

(** Every expected fragment along the window is computed without an
    exception. *)
Fixpoint all_defined (D : bytes) (l : Z) (keyed : bool) (C : bytes)
  (window : list Z) (seed : bytes) : Prop :=
  match window with
  | [] => True
  | _ :: window =>
      (exists e, expected_fragment D l keyed C seed = Ok e)
      /\ all_defined D l keyed C window (Crypto.KDF seed None)
  end.

Lemma ct_first_match_matched (D : bytes) (l : Z) (keyed : bool) (F C : bytes)
  (window : list Z) (seed : bytes) (m : Z) :
  all_defined D l keyed C window seed ->
  ct_first_match D l keyed F C window seed (Some m) = Ok (Some m).
Proof.
  revert seed. induction window as [|j window IH]; intros seed Hd; [reflexivity|].
  destruct Hd as [[e He] Hd]. cbn [ct_first_match]. rewrite He. cbn [rbind].
  destruct (Crypto.constant_time_equal e F); apply IH; exact Hd.
Qed.

(** When nothing raises, walking the whole window finds what the early stop
    finds. *)
Lemma ct_first_match_first (D : bytes) (l : Z) (keyed : bool) (F C : bytes)
  (window : list Z) (seed : bytes) :
  all_defined D l keyed C window seed ->
  ct_first_match D l keyed F C window seed None
  = first_match D l keyed F C window seed.
Proof.
  revert seed. induction window as [|j window IH]; intros seed Hd; [reflexivity|].
  destruct Hd as [[e He] Hd]. cbn [ct_first_match first_match]. rewrite He. cbn [rbind].
  destruct (Crypto.constant_time_equal e F).
  - apply ct_first_match_matched. exact Hd.
  - apply IH. exact Hd.
Qed.

Lemma KDF_length (seed : bytes) (context : option bytes) :
  length (Crypto.KDF seed context) = 32%nat.
Proof. unfold Crypto.KDF. apply hmac_sha256_digest_size. Qed.

Lemma derive_succ (n : nat) (K : bytes) :
  State.derive (S n) K = Crypto.KDF (State.derive n K) None.
Proof.
  revert K. induction n as [|n IH]; intro K; [reflexivity|].
  change (State.derive (S (S n)) K) with (State.derive (S n) (Crypto.KDF K None)).
  rewrite IH. reflexivity.
Qed.

Lemma derive_length (n : nat) (K : bytes) :
  Z.of_nat (length K) <= 2 ^ 32 - 1 ->
  Z.of_nat (length (State.derive n K)) <= 2 ^ 32 - 1.
Proof.
  intro HK. destruct n as [|n]; [exact HK|].
  rewrite derive_succ, KDF_length. cbn. lia.
Qed.

(** The conditions under which the fragment function returns for every
    seed of a chain: a length of at least 256 bits (whose counters fit, in
    keyed mode) and a domain and a content the encoder accepts. *)
Definition fragment_parameters_ok (D : bytes) (l : Z) (keyed : bool) (C : bytes) : Prop :=
  256 <= l
  /\ (keyed = true -> l / 8 <= 2 ^ 32)
  /\ Z.of_nat (length D) <= 2 ^ 32 - 1
  /\ Z.of_nat (length C) <= 2 ^ 32 - 1.

Lemma expected_fragment_returns (D : bytes) (l : Z) (keyed : bool) (C seed : bytes) :
  fragment_parameters_ok D l keyed C ->
  Z.of_nat (length seed) <= 2 ^ 32 - 1 ->
  exists F, expected_fragment D l keyed C seed = Ok F /\ Z.of_nat (length F) = l / 8.
Proof.
  intros (Hl & Hk & HD & HC) Hs. unfold expected_fragment.
  apply compute_fragment_returns; try assumption.
  destruct keyed; [intros _; apply Hk; reflexivity|intro E; contradiction E; reflexivity].
Qed.

Lemma all_defined_chain (D : bytes) (l : Z) (keyed : bool) (C : bytes)
  (window : list Z) (seed : bytes) :
  fragment_parameters_ok D l keyed C ->
  Z.of_nat (length seed) <= 2 ^ 32 - 1 ->
  all_defined D l keyed C window seed.
Proof.
  intro Hp. revert seed. induction window as [|j window IH]; intros seed Hs; [exact I|].
  split.
  - destruct (expected_fragment_returns D l keyed C seed Hp Hs) as [F [E _]].
    exists F. exact E.
  - apply IH. rewrite KDF_length. cbn. lia.
Qed.

(** In Mode A, for a fragment of the expected length, [validate] returns
    what the search finds; [ConstantTimeValidator] agrees with the early
    stop whenever no expected fragment raises. *)
Lemma validate_mode_a_result (F S K : bytes) (h : Heap) :
  mode (state h) = "A"%string ->
  _seed (state h) = Some K ->
  Z.of_nat (length F) = fragment_length (validator h) / 8 ->
  (validator_cls (validator h) = ConstantTimeValidatorClass ->
   all_defined (domain (validator h)) (fragment_length (validator h))
               (use_keyed_mode (validator h)) (sha256 S)
               (range (_anchor (state h))
                      (_anchor (state h) + window_size (validator h) + 1)) K) ->
  fst (Validator.validate F S false h)
  = verdict (first_match (domain (validator h)) (fragment_length (validator h))
                         (use_keyed_mode (validator h)) F (sha256 S)
                         (range (_anchor (state h))
                                (_anchor (state h) + window_size (validator h) + 1)) K).
Proof.
  intros Hmode Hseed Hlen Hct.
  unfold Validator.validate, bind, Validator.count_validation, Validator.set_stats,
    get_validator, put_validator, State.anchor, get_state, ret.
  cbn. rewrite Hlen, Z.eqb_refl. cbn. rewrite Hmode. cbn.
  unfold Validator._validate_mode_a, bind, get_validator. cbn.
  destruct (validator_cls (validator h)) eqn:Ecls.
  - unfold Validator.FragmentValidator__validate_mode_a, bind, State.seed, get_state, ret.
    cbn. rewrite Hseed. rewrite mode_a_loop_result. reflexivity.
  - unfold Validator.ConstantTimeValidator__validate_mode_a, bind, State.seed,
      get_state, ret.
    cbn. rewrite Hseed. rewrite ct_mode_a_loop_result. cbn.
    unfold Crypto.prepare_content.
    rewrite ct_first_match_first by (apply Hct; reflexivity). reflexivity.
Qed.

End ValidatorResults.

(** ** Sender and receiver together *)

(** Sender and receiver are aligned in Mode A on the seed [K]: same index,
    same seed, same domain, fragment length and keyed setting. *)
Record aligned (b : Fragment.FragmentBuilder) (h : Heap) (K : bytes) : Prop := {
  sender_mode : Fragment.mode b = "A"%string;
  receiver_mode : mode (state h) = "A"%string;
  sender_seed : Fragment._seed b = Some K;
  receiver_seed : _seed (state h) = Some K;
  same_index : Fragment._index b = _anchor (state h);
  same_domain : Fragment.domain b = domain (validator h);
  same_length : Fragment.fragment_length b = fragment_length (validator h);
  same_keyed : Fragment.use_keyed_mode b = use_keyed_mode (validator h)
}.

Section RoundTrip.
Context {H : Hashlib}.

(** In Mode A [build] is the expected fragment of the builder's seed. *)
Lemma build_mode_a (b : Fragment.FragmentBuilder) (S K : bytes) :
  Fragment.mode b = "A"%string ->
  Fragment._seed b = Some K ->
  Fragment.build b S false
  = expected_fragment (Fragment.domain b) (Fragment.fragment_length b)
                      (Fragment.use_keyed_mode b) (sha256 S) K.
Proof.
  intros Hm Hs. unfold Fragment.build, expected_fragment, Crypto.prepare_content.
  rewrite Hm, Hs. cbn. destruct (Fragment.use_keyed_mode b); reflexivity.
Qed.

(** [k] advances of a Mode A builder walk [k] steps down the KDF chain and
    touch nothing but the seed and the index. *)
Lemma advance_times_mode_a (token_bytes : nat -> bytes) (k : nat)
  (b : Fragment.FragmentBuilder) (K : bytes) :
  Fragment.mode b = "A"%string ->
  Fragment._seed b = Some K ->
  exists b', Fragment.advance_times token_bytes k b = Ok b'
             /\ Fragment.mode b' = "A"%string
             /\ Fragment._seed b' = Some (State.derive k K)
             /\ Fragment._index b' = Fragment._index b + Z.of_nat k
             /\ Fragment.domain b' = Fragment.domain b
             /\ Fragment.fragment_length b' = Fragment.fragment_length b
             /\ Fragment.use_keyed_mode b' = Fragment.use_keyed_mode b.
Proof.
  revert b K. induction k as [|k IH]; intros b K Hm Hs.
  - exists b. cbn. rewrite Z.add_0_r. repeat split; assumption.
  - cbn [Fragment.advance_times]. unfold Fragment.advance. rewrite Hm, Hs. cbn.
    match goal with
    | |- context [Fragment.advance_times _ _ ?b1] =>
        destruct (IH b1 (Crypto.KDF K None) Hm eq_refl)
          as (b' & E & Hm' & Hs' & Hi' & Hd' & Hl' & Hk')
    end.
    exists b'. cbn in Hi', Hd', Hl', Hk'.
    repeat split; try assumption. lia.
Qed.

Lemma range_window (t nu : Z) :
  0 <= nu ->
  range t (t + nu + 1) = map (fun i => t + Z.of_nat i) (seq 0 (S (Z.to_nat nu))).
Proof.
  intro Hnu. unfold range. f_equal. f_equal.
  replace (t + nu + 1 - t) with (Z.succ nu) by lia.
  rewrite Z2Nat.inj_succ by lia. reflexivity.
Qed.

(** The search along a chain: if the sent fragment is the chain's [k]-th and
    every other fragment of the window differs from it, the search stops at
    offset [k] when the window reaches it and finds nothing otherwise. *)
Lemma first_match_chain (D : bytes) (l : Z) (keyed : bool) (F C K : bytes)
  (t : Z) (k n a : nat) :
  expected_fragment D l keyed C (State.derive k K) = Ok F ->
  (forall i, (a <= i < a + n)%nat -> i <> k ->
             exists e, expected_fragment D l keyed C (State.derive i K) = Ok e
                       /\ Crypto.constant_time_equal e F = false) ->
  first_match D l keyed F C (map (fun i => t + Z.of_nat i) (seq a n)) (State.derive a K)
  = Ok (if ((a <=? k) && (k <? a + n))%nat then Some (t + Z.of_nat k) else None).
Proof.
  intros Hk. revert a. induction n as [|n IH]; intros a Hother.
  - cbn [seq map first_match]. f_equal.
    destruct (a <=? k)%nat eqn:E1; [|reflexivity]. cbn [andb].
    destruct (k <? a + 0)%nat eqn:E2; [|reflexivity].
    apply Nat.leb_le in E1. apply Nat.ltb_lt in E2. lia.
  - cbn [seq map first_match].
    destruct (Nat.eq_dec a k) as [->|Hne].
    + rewrite Hk. cbn [rbind]. rewrite constant_time_equal_refl.
      rewrite Nat.leb_refl. cbn [andb].
      destruct (k <? k + S n)%nat eqn:E; [reflexivity|].
      apply Nat.ltb_ge in E. lia.
    + destruct (Hother a ltac:(lia) Hne) as [e [He Hdiff]].
      rewrite He. cbn [rbind]. rewrite Hdiff, <- derive_succ.
      rewrite IH by (intros i Hi Hik; apply Hother; [lia|exact Hik]).
      f_equal.
      destruct (a <=? k)%nat eqn:E1, (S a <=? k)%nat eqn:E2,
               (k <? a + S n)%nat eqn:E3, (k <? S a + n)%nat eqn:E4;
        try reflexivity;
        repeat match goal with
               | E : (_ <=? _)%nat = true |- _ => apply Nat.leb_le in E
               | E : (_ <=? _)%nat = false |- _ => apply Nat.leb_gt in E
               | E : (_ <? _)%nat = true |- _ => apply Nat.ltb_lt in E
               | E : (_ <? _)%nat = false |- _ => apply Nat.ltb_ge in E
               end; lia.
Qed.

(** Collisions or not, a window that reaches offset [k] finds a match at
    offset [k] or before it. *)
Lemma first_match_within (D : bytes) (l : Z) (keyed : bool) (F C K : bytes)
  (t : Z) (k n a : nat) :
  (a <= k < a + n)%nat ->
  expected_fragment D l keyed C (State.derive k K) = Ok F ->
  (forall i, exists e, expected_fragment D l keyed C (State.derive i K) = Ok e) ->
  exists j, (a <= j <= k)%nat
            /\ first_match D l keyed F C (map (fun i => t + Z.of_nat i) (seq a n))
                           (State.derive a K)
               = Ok (Some (t + Z.of_nat j)).
Proof.
  intros Hk EF Hdef. revert a Hk. induction n as [|n IH]; intros a Hk; [lia|].
  cbn [seq map first_match].
  destruct (Hdef a) as [e Ee]. rewrite Ee. cbn [rbind].
  destruct (Crypto.constant_time_equal e F) eqn:Ecmp.
  - exists a. split; [lia|reflexivity].
  - assert (Hne : a <> k).
    { intro E. subst a. rewrite EF in Ee. apply Ok_inj in Ee. subst e.
      rewrite constant_time_equal_refl in Ecmp. discriminate. }
    rewrite <- derive_succ.
    destruct (IH (S a) ltac:(lia)) as [j [Hj Ej]].
    exists j. split; [lia|exact Ej].
Qed.

(** No fragment of the receiver's window collides with the one the sender
    emits after [k] advances (the fragments at the other offsets all differ
    from it). *)
Definition window_collision_free (D : bytes) (l : Z) (keyed : bool) (C K : bytes)
  (nu : Z) (k : nat) : bool :=
  forallb (fun i =>
             (i =? k)%nat
             || match expected_fragment D l keyed C (State.derive i K),
                      expected_fragment D l keyed C (State.derive k K) with
                | Ok a, Ok b => negb (Crypto.constant_time_equal a b)
                | _, _ => true
                end)
          (seq 0 (Z.to_nat (nu + 1))).

(** What [validate] answers to the fragment a sender aligned at the anchor
    emits after [k] advances, when no fragment of the window collides with
    it: ACCEPT at [anchor + k] within the window, REJECT beyond it. *)
Lemma validate_after_advances (b : Fragment.FragmentBuilder) (h : Heap) (K payload : bytes)
  (token_bytes : nat -> bytes) (k : nat) :
  aligned b h K ->
  fragment_parameters_ok (domain (validator h)) (fragment_length (validator h))
                         (use_keyed_mode (validator h)) (sha256 payload) ->
  Z.of_nat (length K) <= 2 ^ 32 - 1 ->
  window_collision_free (domain (validator h)) (fragment_length (validator h))
                        (use_keyed_mode (validator h)) (sha256 payload) K
                        (window_size (validator h)) k = true ->
  exists b' F,
    Fragment.advance_times token_bytes k b = Ok b'
    /\ Fragment.build b' payload false = Ok F
    /\ fst (Validator.validate F payload false h)
       = Ok (if Z.of_nat k <=? window_size (validator h)
             then (ACCEPT, Some (_anchor (state h) + Z.of_nat k))
             else (REJECT, None)).
Proof.
  intros [Hsm Hrm Hss Hrs Hidx Hdom Hlen Hkey] Hp HK Hfree.
  destruct (advance_times_mode_a token_bytes k b K Hsm Hss)
    as (b' & Eadv & Hm' & Hs' & _ & Hd' & Hl' & Hk').
  destruct (expected_fragment_returns _ _ _ _ (State.derive k K) Hp (derive_length k K HK))
    as [F [EF LF]].
  exists b', F. split; [exact Eadv|].
  split.
  { rewrite (build_mode_a b' payload _ Hm' Hs'), Hd', Hl', Hk', Hdom, Hlen, Hkey. exact EF. }
  rewrite (validate_mode_a_result F payload K h Hrm Hrs LF)
    by (intros _; apply all_defined_chain; assumption).
  destruct (Z_lt_le_dec (window_size (validator h)) 0) as [Hneg|Hnu].
  { unfold range.
    replace (Z.to_nat (_anchor (state h) + window_size (validator h) + 1
                       - _anchor (state h))) with 0%nat by lia.
    cbn [seq map first_match verdict].
    destruct (Z.of_nat k <=? window_size (validator h)) eqn:E; [|reflexivity].
    apply Z.leb_le in E. lia. }
  rewrite range_window by exact Hnu.
  assert (Hother : forall i, (0 <= i < 0 + S (Z.to_nat (window_size (validator h))))%nat ->
                    i <> k ->
                    exists e, expected_fragment (domain (validator h))
                                (fragment_length (validator h))
                                (use_keyed_mode (validator h)) (sha256 payload)
                                (State.derive i K) = Ok e
                              /\ Crypto.constant_time_equal e F = false).
  { intros i Hi Hik.
    destruct (expected_fragment_returns _ _ _ _ (State.derive i K) Hp (derive_length i K HK))
      as [e [Ee _]].
    exists e. split; [exact Ee|].
    unfold window_collision_free in Hfree. rewrite forallb_forall in Hfree.
    specialize (Hfree i ltac:(apply in_seq; lia)).
    rewrite Ee, EF in Hfree.
    apply Nat.eqb_neq in Hik. rewrite Hik in Hfree. cbn [orb] in Hfree.
    destruct (Crypto.constant_time_equal e F); [discriminate|reflexivity]. }
  pose proof (first_match_chain _ _ _ F (sha256 payload) K (_anchor (state h)) k _ 0%nat
                                EF Hother) as Hfm.
  cbn [State.derive] in Hfm. rewrite Hfm.
  cbn [Nat.leb andb Nat.add verdict].
  destruct (k <? S (Z.to_nat (window_size (validator h))))%nat eqn:E1;
    destruct (Z.of_nat k <=? window_size (validator h)) eqn:E2; try reflexivity.
  - apply Nat.ltb_lt in E1. apply Z.leb_gt in E2. lia.
  - apply Nat.ltb_ge in E1. apply Z.leb_le in E2. lia.
Qed.

(** Collisions or not, the fragment emitted after [k <= window_size]
    advances is accepted, at [anchor + k] or before it. *)
Lemma validate_within_window (h : Heap) (K payload F : bytes) (k : nat) :
  mode (state h) = "A"%string ->
  _seed (state h) = Some K ->
  fragment_parameters_ok (domain (validator h)) (fragment_length (validator h))
                         (use_keyed_mode (validator h)) (sha256 payload) ->
  Z.of_nat (length K) <= 2 ^ 32 - 1 ->
  expected_fragment (domain (validator h)) (fragment_length (validator h))
                    (use_keyed_mode (validator h)) (sha256 payload) (State.derive k K)
  = Ok F ->
  Z.of_nat k <= window_size (validator h) ->
  exists j, _anchor (state h) <= j <= _anchor (state h) + Z.of_nat k
            /\ fst (Validator.validate F payload false h) = Ok (ACCEPT, Some j).
Proof.
  intros Hrm Hrs Hp HK EF Hk.
  destruct (expected_fragment_returns _ _ _ _ (State.derive k K) Hp (derive_length k K HK))
    as [F' [EF' LF]].
  rewrite EF in EF'. apply Ok_inj in EF'. subst F'.
  rewrite (validate_mode_a_result F payload K h Hrm Hrs LF)
    by (intros _; apply all_defined_chain; assumption).
  rewrite range_window by lia.
  destruct (first_match_within _ _ _ F (sha256 payload) K (_anchor (state h)) k
              (S (Z.to_nat (window_size (validator h)))) 0%nat ltac:(lia) EF)
    as [j [Hj Ej]].
  { intro i.
    destruct (expected_fragment_returns _ _ _ _ (State.derive i K) Hp (derive_length i K HK))
      as [e [Ee _]].
    exists e. exact Ee. }
  cbn [State.derive] in Ej. rewrite Ej. cbn [verdict].
  exists (_anchor (state h) + Z.of_nat j). split; [lia|reflexivity].
Qed.

End RoundTrip.

(** C1.  Round trip: a sender and a receiver aligned in Mode A (same index
    and anchor, same seed, domain, fragment length and keyed setting), with a
    fragment length of at least 256 bits, a window width of at least 0 and a
    domain and a seed the encoder accepts: [build] returns a fragment, and
    [validate] answers (ACCEPT, anchor) to it.  Both validator classes. *)
Theorem round_trip_accept {H : Hashlib} (b : Fragment.FragmentBuilder) (h : Heap)
  (K payload : bytes) :
  aligned b h K ->
  256 <= fragment_length (validator h) ->
  (use_keyed_mode (validator h) = true -> fragment_length (validator h) / 8 <= 2 ^ 32) ->
  Z.of_nat (length (domain (validator h))) <= 2 ^ 32 - 1 ->
  Z.of_nat (length K) <= 2 ^ 32 - 1 ->
  0 <= window_size (validator h) ->
  exists F,
    Fragment.build b payload false = Ok F
    /\ fst (Validator.validate F payload false h) = Ok (ACCEPT, Some (_anchor (state h))).
Proof.
  intros [Hsm Hrm Hss Hrs Hidx Hdom Hlen Hkey] Hl Hfit HD HK Hnu.
  assert (Hp : fragment_parameters_ok (domain (validator h)) (fragment_length (validator h))
                 (use_keyed_mode (validator h)) (sha256 payload)).
  { repeat split; try assumption. rewrite sha256_digest_size. cbn. lia. }
  destruct (expected_fragment_returns _ _ _ _ K Hp HK) as [F [EF LF]].
  exists F. split.
  { rewrite (build_mode_a b payload K Hsm Hss), Hdom, Hlen, Hkey. exact EF. }
  rewrite (validate_mode_a_result F payload K h Hrm Hrs LF)
    by (intros _; apply all_defined_chain; assumption).
  rewrite range_window by exact Hnu.
  cbn [seq map first_match]. rewrite EF. cbn [rbind].
  rewrite constant_time_equal_refl. cbn. rewrite Z.add_0_r. reflexivity.
Qed.

(** ** examples/demo_minimal.py, with a fixed domain tag and seed *)

Module Demo.

Definition domain : bytes := repeat x44 16.
Definition seed : bytes := repeat x01 32.
Definition content : bytes := bytes_of_string "ALARM_LEVEL_3".

Definition no_calls : Calls :=
  {| n_compute_fragment := 0; n_KDF := 0; n_constant_time_equal := 0 |}.

(** [builder = FragmentBuilder.mode_a(domain, seed)] *)
Definition builder : Fragment.FragmentBuilder :=
  {| Fragment.domain := domain; Fragment.mode := "A";
     Fragment.fragment_length := 256; Fragment.use_keyed_mode := true;
     Fragment._index := 0; Fragment._seed := Some seed; Fragment._evol_func := None |}.

(** [state = ReceiverState.mode_a(seed)] with an optional persistence path,
    and [validator = FragmentValidator(domain, window_size)] of class [cls]. *)
Definition heap (cls : validator_class) (window_size : Z) (path : option string)
  (unwritable : list string) : Heap :=
  {| state := {| state_cls := ReceiverStateClass; mode := "A"; _anchor := 0;
                 _seed := Some seed; _persistence_path := path;
                 _rollback_counter := None |};
     validator := Validator.__init__ cls domain window_size 256 true None;
     fs_files := [];
     fs_unwritable := unwritable;
     fs_unreplaceable := [];
     token_bytes := fun n => repeat xff n;
     erased := [];
     calls := no_calls |}.

End Demo.

Example demo_builder_constructed :
  Fragment.mode_a Demo.domain Demo.seed 256 true = Ok Demo.builder.
Proof. reflexivity. Qed.

Example demo_state_constructed :
  state (snd (State.mode_a Demo.seed None 0 (Demo.heap FragmentValidatorClass 7 None [])))
  = state (Demo.heap FragmentValidatorClass 7 None []).
Proof. reflexivity. Qed.

Lemma demo_aligned (cls : validator_class) (nu : Z) (path : option string)
  (unwritable : list string) :
  aligned Demo.builder (Demo.heap cls nu path unwritable) Demo.seed.
Proof. constructor; reflexivity. Defined.

Lemma round_trip_accept_witness :
  exists F,
    Fragment.build Demo.builder Demo.content false = Ok F
    /\ fst (Validator.validate F Demo.content false
                               (Demo.heap FragmentValidatorClass 7 None []))
       = Ok (ACCEPT, Some 0).
Proof.
  apply (round_trip_accept Demo.builder (Demo.heap FragmentValidatorClass 7 None [])
                           Demo.seed Demo.content).
  - apply demo_aligned.
  - cbn. lia.
  - intros _. cbn. lia.
  - cbn. lia.
  - cbn. lia.
  - cbn. lia.
Defined.

(** ** state.py: advancing the anchor *)

(** The class invariant [__init__] establishes: a Mode A state holds a seed
    (and a [SecureElementState] has its counter once constructed). *)
Definition state_ok (s : ReceiverState) : Prop :=
  (mode s = "A"%string -> _seed s <> None)
  /\ (state_cls s = SecureElementStateClass -> _rollback_counter s <> None).

(** The persistence step of [advance] meets no I/O error: there is no
    persistence path, or the temporary file can be written and renamed. *)
Definition persistence_works (h : Heap) : Prop :=
  match _persistence_path (state h) with
  | Some (String c tl) =>
      mem_string (State.temp_path (String c tl)) (fs_unwritable h) = false
      /\ mem_string (String c tl) (fs_unreplaceable h) = false
  | _ => True
  end.

(** The guard of [advance]: a strictly larger anchor and, in Mode A, a seed. *)
Definition may_advance (s : ReceiverState) (new_anchor : Z) (new_seed : option bytes)
  : Prop :=
  _anchor s < new_anchor /\ (mode s = "A"%string -> new_seed <> None).

Section AdvanceFacts.
Context {H : Hashlib}.

Lemma fs_lookup_head (files : list (string * file)) (path : string) (f : file) :
  fs_lookup ((path, f) :: files) path = Some f.
Proof. unfold fs_lookup. cbn. rewrite String.eqb_refl. reflexivity. Qed.

Lemma write_json_ok (path : string) (b : Blob) (h : Heap) :
  mem_string path (fs_unwritable h) = false ->
  write_json path b h
  = (Ok tt, with_files h ((path, Json b) :: fs_delete (fs_files h) path)).
Proof. intro Hw. unfold write_json. rewrite Hw. reflexivity. Qed.

Lemma os_replace_ok (src dst : string) (f : file) (h : Heap) :
  fs_lookup (fs_files h) src = Some f ->
  mem_string dst (fs_unreplaceable h) = false ->
  os_replace src dst h
  = (Ok tt, with_files h ((dst, f) :: fs_delete (fs_delete (fs_files h) src) dst)).
Proof. intros Hl Hr. unfold os_replace. rewrite Hl, Hr. reflexivity. Qed.

(** Writing the blob and renaming it: the state object and the erase log
    are not touched. *)
Lemma save_state_works (h : Heap) :
  persistence_works h ->
  (state_cls (state h) = SecureElementStateClass -> _rollback_counter (state h) <> None) ->
  exists h', State._save_state h = (Ok tt, h')
             /\ state h' = state h /\ erased h' = erased h
             /\ fs_unwritable h' = fs_unwritable h
             /\ fs_unreplaceable h' = fs_unreplaceable h.
Proof.
  unfold persistence_works. intros Hp Hc.
  unfold State._save_state, bind, get_state.
  destruct (state_cls (state h)) eqn:Ecls.
  - unfold State.ReceiverState__save_state, bind, get_state.
    destruct (_persistence_path (state h)) as [[|c tl]|];
      try (eexists; split; [reflexivity|repeat split]).
    destruct Hp as [Hw Hr].
    unfold try_except, bind.
    rewrite (write_json_ok _ _ h Hw).
    erewrite os_replace_ok; [|apply fs_lookup_head|exact Hr].
    eexists; split; [reflexivity|repeat split].
  - unfold State.SecureElementState__save_state, bind, get_state.
    destruct (_persistence_path (state h)) as [[|c tl]|];
      try (eexists; split; [reflexivity|repeat split]).
    destruct Hp as [Hw Hr].
    destruct (_rollback_counter (state h)) as [counter|];
      [|contradiction (Hc eq_refl); reflexivity].
    unfold bind.
    rewrite (write_json_ok _ _ h Hw).
    erewrite os_replace_ok; [|apply fs_lookup_head|exact Hr].
    eexists; split; [reflexivity|repeat split].
Qed.

Lemma may_advance_dec (s : ReceiverState) (new_anchor : Z) (new_seed : option bytes) :
  may_advance s new_anchor new_seed \/ ~ may_advance s new_anchor new_seed.
Proof.
  unfold may_advance.
  destruct (Z_lt_dec (_anchor s) new_anchor) as [Hlt|Hge]; [|right; tauto].
  destruct new_seed as [ns|]; [left; split; [exact Hlt|discriminate]|].
  destruct (String.eqb_spec (mode s) "A") as [E|E].
  - right. intros [_ Hs]. apply (Hs E). reflexivity.
  - left. split; [exact Hlt|]. intro E'. contradiction.
Qed.

(** The body of [ReceiverState.advance] when the guard fails. *)
Lemma ReceiverState_advance_refused (h : Heap) (new_anchor : Z) (new_seed : option bytes) :
  ~ may_advance (state h) new_anchor new_seed ->
  State.ReceiverState_advance new_anchor new_seed h = (Ok false, h).
Proof.
  intro Hg. unfold may_advance in Hg.
  unfold State.ReceiverState_advance, bind, get_state.
  destruct (new_anchor <=? _anchor (state h)) eqn:E; [reflexivity|].
  apply Z.leb_gt in E.
  destruct (String.eqb_spec (mode (state h)) "A") as [Em|Em].
  - destruct new_seed as [ns|]; [|reflexivity].
    contradiction Hg. split; [exact E|discriminate].
  - contradiction Hg. split; [exact E|]. intro E'. contradiction.
Qed.

(** The body of [ReceiverState.advance] when the guard holds and the
    persistence step meets no I/O error. *)
Lemma ReceiverState_advance_done (h : Heap) (new_anchor : Z) (new_seed : option bytes) :
  state_ok (state h) ->
  persistence_works h ->
  may_advance (state h) new_anchor new_seed ->
  exists h', State.ReceiverState_advance new_anchor new_seed h = (Ok true, h')
             /\ _anchor (state h') = new_anchor
             /\ mode (state h') = mode (state h)
             /\ state_cls (state h') = state_cls (state h)
             /\ _rollback_counter (state h') = _rollback_counter (state h)
             /\ _persistence_path (state h') = _persistence_path (state h)
             /\ (mode (state h) = "A"%string ->
                 _seed (state h') = new_seed
                 /\ exists old, _seed (state h) = Some old /\ erased h' = old :: erased h)
             /\ (mode (state h) <> "A"%string ->
                 _seed (state h') = _seed (state h) /\ erased h' = erased h).
Proof.
  intros [Hseed Hcnt] Hp [Hlt Hns].
  unfold State.ReceiverState_advance, bind, get_state.
  destruct (new_anchor <=? _anchor (state h)) eqn:E; [apply Z.leb_le in E; lia|].
  destruct (String.eqb_spec (mode (state h)) "A") as [Em|Em].
  - destruct new_seed as [ns|]; [|contradiction (Hns Em); reflexivity].
    destruct (_seed (state h)) as [old|] eqn:Eold; [|contradiction (Hseed Em); reflexivity].
    unfold State.set_seed, State.set_anchor, State.erase_buffer.
    cbn -[State._save_state].
    match goal with
    | |- context [with_erased ?a ?b] => set (h1 := with_erased a b)
    end.
    destruct (save_state_works h1) as (h' & Es & Hs & He & _);
      [exact Hp|exact Hcnt|].
    destruct (truthy_path (_persistence_path (state h))).
    + rewrite Es. cbn. exists h'. rewrite Hs, He. cbn.
      repeat split; try reflexivity; try contradiction.
      exists old. split; reflexivity.
    + eexists. split; [reflexivity|]. cbn.
      repeat split; try reflexivity; try contradiction.
      exists old. split; reflexivity.
  - unfold State.set_anchor. cbn -[State._save_state].
    match goal with
    | |- context [with_state ?a ?b] => set (h1 := with_state a b)
    end.
    destruct (save_state_works h1) as (h' & Es & Hs & He & _);
      [exact Hp|exact Hcnt|].
    destruct (truthy_path (_persistence_path (state h))).
    + rewrite Es. cbn. exists h'. rewrite Hs, He. cbn.
      repeat split; try reflexivity; try contradiction.
    + eexists. split; [reflexivity|]. cbn.
      repeat split; try reflexivity; try contradiction.
Qed.

End AdvanceFacts.

Section AdvanceContract.
Context {H : Hashlib}.

(** [state.advance] through the object's class, when the guard fails. *)
Lemma advance_refused (h : Heap) (new_anchor : Z) (new_seed : option bytes) :
  ~ may_advance (state h) new_anchor new_seed ->
  State.advance new_anchor new_seed h = (Ok false, h).
Proof.
  intro Hg. unfold State.advance, bind, get_state.
  destruct (state_cls (state h)).
  - apply ReceiverState_advance_refused. exact Hg.
  - unfold State.SecureElementState_advance, bind.
    rewrite (ReceiverState_advance_refused h new_anchor new_seed Hg). reflexivity.
Qed.

(** [state.advance] through the object's class, when the guard holds and
    the persistence step meets no I/O error. *)
Lemma advance_done (h : Heap) (new_anchor : Z) (new_seed : option bytes) :
  state_ok (state h) ->
  persistence_works h ->
  may_advance (state h) new_anchor new_seed ->
  exists h', State.advance new_anchor new_seed h = (Ok true, h')
             /\ _anchor (state h') = new_anchor
             /\ mode (state h') = mode (state h)
             /\ (mode (state h) = "A"%string ->
                 _seed (state h') = new_seed
                 /\ exists old, _seed (state h) = Some old /\ erased h' = old :: erased h)
             /\ (mode (state h) <> "A"%string ->
                 _seed (state h') = _seed (state h) /\ erased h' = erased h).
Proof.
  intros Hok Hp Hg.
  destruct (ReceiverState_advance_done h new_anchor new_seed Hok Hp Hg)
    as (h' & E & Ha & Hm & Hc & Hr & _ & HA & HB).
  unfold State.advance, bind, get_state.
  destruct (state_cls (state h)) eqn:Ecls.
  - exists h'. repeat split; try assumption; [apply HA|apply HA|apply HB|apply HB]; assumption.
  - unfold State.SecureElementState_advance, bind. rewrite E.
    unfold get_state, State.set_rollback_counter. cbn.
    destruct Hok as [_ Hcnt]. rewrite Hr.
    destruct (_rollback_counter (state h)) as [counter|];
      [|contradiction (Hcnt Ecls); reflexivity].
    eexists. split; [reflexivity|]. cbn.
    repeat split; try assumption; [apply HA|apply HA|apply HB|apply HB]; assumption.
Qed.

End AdvanceContract.

(** ** validator.py: committing when the file cannot be written *)

(** C4 (the code departs from the specification).  The receiver persists to
    state.json and its temporary file cannot be written.  The demo fragment
    matches at index 0; [validate_and_commit] then lets the [OSError] of
    [_save_state] escape instead of returning (ERROR, None), and the state is
    not rolled back: the anchor is 1, the seed is the next of the chain, and
    the old seed has been erased. *)
Theorem commit_persist_failure_not_rolled_back :
  exists F,
    Fragment.build Demo.builder Demo.content false = Ok F
    /\ fst (Validator.validate F Demo.content false
              (Demo.heap FragmentValidatorClass 7 (Some "state.json"%string)
                         ["state.json.tmp"%string]))
       = Ok (ACCEPT, Some 0)
    /\ fst (Validator.validate_and_commit F Demo.content false
              (Demo.heap FragmentValidatorClass 7 (Some "state.json"%string)
                         ["state.json.tmp"%string]))
       = Raise OSError
    /\ _anchor (state (snd (Validator.validate_and_commit F Demo.content false
                              (Demo.heap FragmentValidatorClass 7
                                         (Some "state.json"%string)
                                         ["state.json.tmp"%string]))))
       = 1
    /\ _seed (state (snd (Validator.validate_and_commit F Demo.content false
                            (Demo.heap FragmentValidatorClass 7
                                       (Some "state.json"%string)
                                       ["state.json.tmp"%string]))))
       = Some (Crypto.KDF Demo.seed None)
    /\ erased (snd (Validator.validate_and_commit F Demo.content false
                      (Demo.heap FragmentValidatorClass 7 (Some "state.json"%string)
                                 ["state.json.tmp"%string])))
       = [Demo.seed].
Proof.
  eexists. split; [vm_compute; reflexivity|].
  split; [|split; [|split; [|split]]]; vm_compute; reflexivity.
Qed.

(** With a file that can be written the same call commits: (ACCEPT, 0),
    anchor 1, and the blob on disk holds anchor 1. *)
Example commit_persists :
  exists F,
    Fragment.build Demo.builder Demo.content false = Ok F
    /\ fst (Validator.validate_and_commit F Demo.content false
              (Demo.heap FragmentValidatorClass 7 (Some "state.json"%string) []))
       = Ok (ACCEPT, Some 0)
    /\ _anchor (state (snd (Validator.validate_and_commit F Demo.content false
                              (Demo.heap FragmentValidatorClass 7
                                         (Some "state.json"%string) []))))
       = 1
    /\ option_map (fun f => match f with Json b => blob_anchor b | _ => None end)
         (fs_lookup (fs_files (snd (Validator.validate_and_commit F Demo.content false
                                      (Demo.heap FragmentValidatorClass 7
                                                 (Some "state.json"%string) []))))
                    "state.json")
       = Some (Some 1).
Proof.
  eexists. split; [vm_compute; reflexivity|].
  split; [|split]; vm_compute; reflexivity.
Qed.

(** ** validator.py: the constant-time variant *)

Section ConstantTimeFacts.
Context {H : Hashlib}.

Definition add_calls (c : Calls) (n : nat) : Calls :=
  {| n_compute_fragment := n + n_compute_fragment c;
     n_KDF := n + n_KDF c;
     n_constant_time_equal := n + n_constant_time_equal c |}.

(** In Mode A the constant-time loop makes one call of each primitive per
    index of the window, whatever the received fragment and wherever it
    matches, as long as no expected fragment raises. *)
Lemma ct_mode_a_loop_calls (F C : bytes) (window : list Z) (seed : bytes)
  (matched : option Z) (h : Heap) :
  all_defined (domain (validator h)) (fragment_length (validator h))
              (use_keyed_mode (validator h)) C window seed ->
  calls (snd (Validator.ct_mode_a_loop F C window seed matched h))
  = add_calls (calls h) (length window)
  /\ comparisons (_stats (validator (snd (Validator.ct_mode_a_loop F C window seed
                                                                   matched h))))
     = comparisons (_stats (validator h)) + Z.of_nat (length window).
Proof.
  revert seed matched h. induction window as [|j window IH]; intros seed matched h Hd.
  - destruct matched; cbn; split; try lia; destruct (calls h); reflexivity.
  - destruct Hd as [[e He] Hd].
    cbn [Validator.ct_mode_a_loop].
    unfold bind, Validator.count_comparison, Validator.set_stats, get_validator,
      put_validator, Validator.call_compute_fragment, lift,
      Validator.call_constant_time_equal, Validator.call_KDF.
    cbn -[Z.of_nat Z.add].
    unfold expected_fragment in He.
    destruct (use_keyed_mode (validator h)) eqn:Ek; rewrite He; cbn -[Z.of_nat Z.add];
      match goal with
      | |- context [Validator.ct_mode_a_loop F C window ?s ?m ?h1] =>
          destruct (IH s m h1) as [Ec Es]; [cbn; rewrite ?Ek; exact Hd|];
          rewrite Ec, Es; cbn -[Z.of_nat Z.add]
      end;
      (split; [unfold add_calls; cbn; f_equal; lia|lia]).
Qed.

(** The calls [ConstantTimeValidator.validate] makes in Mode A do not depend
    on the received fragment: the full window, every time. *)
Lemma constant_time_mode_a_uniform (F payload K : bytes) (h : Heap) :
  validator_cls (validator h) = ConstantTimeValidatorClass ->
  mode (state h) = "A"%string ->
  _seed (state h) = Some K ->
  Z.of_nat (length F) = fragment_length (validator h) / 8 ->
  0 <= window_size (validator h) ->
  all_defined (domain (validator h)) (fragment_length (validator h))
              (use_keyed_mode (validator h)) (sha256 payload)
              (range (_anchor (state h))
                     (_anchor (state h) + window_size (validator h) + 1)) K ->
  calls (snd (Validator.validate F payload false h))
  = add_calls (calls h) (S (Z.to_nat (window_size (validator h)))).
Proof.
  intros Hcls Hmode Hseed Hlen Hnu Hd.
  unfold Validator.validate, bind, Validator.count_validation, Validator.set_stats,
    get_validator, put_validator, State.anchor, get_state, ret.
  cbn. rewrite Hlen, Z.eqb_refl. cbn. rewrite Hmode. cbn.
  unfold Validator._validate_mode_a, bind, get_validator. cbn. rewrite Hcls.
  unfold Validator.ConstantTimeValidator__validate_mode_a, bind, State.seed,
    get_state, ret.
  cbn. rewrite Hseed.
  match goal with
  | |- context [Validator.ct_mode_a_loop F ?c ?w K None ?h1] =>
      destruct (ct_mode_a_loop_calls F c w K None h1) as [Ec _]; [exact Hd|];
      rewrite Ec
  end.
  cbn [calls with_validator]. f_equal.
  rewrite range_window by exact Hnu. rewrite length_map, length_seq. reflexivity.
Qed.

End ConstantTimeFacts.

(** Mode B as in fragment.py's demonstration: [Evol(i) = i.to_bytes(8, 'big')]. *)
Module DemoB.

Definition counter_evol (i : Z) : result bytes := to_bytes 8 i.

(** [builder_b = FragmentBuilder.mode_b(domain, counter_evol)] *)
Definition builder : Fragment.FragmentBuilder :=
  {| Fragment.domain := Demo.domain; Fragment.mode := "B";
     Fragment.fragment_length := 256; Fragment.use_keyed_mode := true;
     Fragment._index := 0; Fragment._seed := None;
     Fragment._evol_func := Some counter_evol |}.

(** [state = ReceiverState.mode_b()] and
    [validator = ConstantTimeValidator(domain, 7, evol_func=counter_evol)]. *)
Definition heap : Heap :=
  {| state := {| state_cls := ReceiverStateClass; mode := "B"; _anchor := 0;
                 _seed := None; _persistence_path := None;
                 _rollback_counter := None |};
     validator := Validator.__init__ ConstantTimeValidatorClass Demo.domain 7 256 true
                                     (Some counter_evol);
     fs_files := [];
     fs_unwritable := [];
     fs_unreplaceable := [];
     token_bytes := fun n => repeat xff n;
     erased := [];
     calls := Demo.no_calls |}.

(** The fragment the sender emits at index [k]. *)
Definition fragment_at (k : nat) : result bytes :=
  rbind (Fragment.advance_times (fun n => repeat xff n) k builder)
        (fun b => Fragment.build b Demo.content false).

(** What one [validate] call did: its answer, the calls it made and the
    comparisons it counted. *)
Definition observe (r : result bytes) : option (result (ValidationResult * option Z)
                                                * Calls * Z) :=
  match r with
  | Ok F =>
      let out := Validator.validate F Demo.content false heap in
      Some (fst out, calls (snd out), comparisons (_stats (validator (snd out))))
  | Raise _ => None
  end.

End DemoB.

Example demo_b_builder_constructed :
  Fragment.mode_b Demo.domain DemoB.counter_evol 256 = Ok DemoB.builder.
Proof. reflexivity. Qed.

(** C5 (the code departs from the specification).  In Mode B a
    [ConstantTimeValidator] with window width 7 stops at the match: one
    call of [compute_fragment] and of [constant_time_equal] for the fragment
    of index 0, six for the fragment of index 5, and the full eight only
    when nothing matches. *)
Theorem constant_time_mode_b_stops_at_match :
  DemoB.observe (DemoB.fragment_at 0)
  = Some (Ok (ACCEPT, Some 0),
          {| n_compute_fragment := 1; n_KDF := 0; n_constant_time_equal := 1 |}, 1)
  /\ DemoB.observe (DemoB.fragment_at 5)
     = Some (Ok (ACCEPT, Some 5),
             {| n_compute_fragment := 6; n_KDF := 0; n_constant_time_equal := 6 |}, 6)
  /\ DemoB.observe (Ok (repeat x00 32))
     = Some (Ok (REJECT, None),
             {| n_compute_fragment := 8; n_KDF := 0; n_constant_time_equal := 8 |}, 8).
Proof. split; [|split]; vm_compute; reflexivity. Qed.

(** In Mode A the same class walks the whole window for the fragment of
    index 0 as for one that matches nowhere. *)
Example constant_time_mode_a_full_window :
  exists F,
    Fragment.build Demo.builder Demo.content false = Ok F
    /\ (let out := Validator.validate F Demo.content false
                     (Demo.heap ConstantTimeValidatorClass 7 None []) in
        (fst out, calls (snd out)))
       = (Ok (ACCEPT, Some 0),
          {| n_compute_fragment := 8; n_KDF := 8; n_constant_time_equal := 8 |})
    /\ (let out := Validator.validate (repeat x00 32) Demo.content false
                     (Demo.heap ConstantTimeValidatorClass 7 None []) in
        (fst out, calls (snd out)))
       = (Ok (REJECT, None),
          {| n_compute_fragment := 8; n_KDF := 8; n_constant_time_equal := 8 |}).
Proof.
  eexists. split; [vm_compute; reflexivity|].
  split; vm_compute; reflexivity.
Qed.

(** ** crypto.py: the KDF and its context *)

Lemma KDF_empty_context {H : Hashlib} (seed : bytes) :
  Crypto.KDF seed (Some []) = Crypto.KDF seed None.
Proof. unfold Crypto.KDF. rewrite app_nil_r. reflexivity. Qed.

(** C6, as stated, fails: the empty context is a context ([b""] is not
    [None]), and with it the KDF is the autonomous evolution. *)
Lemma KDF_empty_context_same_output :
  Crypto.KDF Demo.seed (Some []) = Crypto.KDF Demo.seed None.
Proof. apply KDF_empty_context. Qed.

(** The messages the two calls authenticate differ exactly when the context
    is not empty. *)
Lemma KDF_messages_differ (seed context : bytes) :
  context <> [] -> (seed ++ context) ++ Crypto.KDF_TAG <> seed ++ Crypto.KDF_TAG.
Proof.
  intros Hc E. rewrite <- app_assoc in E. apply app_inv_head in E.
  apply Hc. destruct context as [|x context]; [reflexivity|].
  apply (f_equal (@length byte)) in E. rewrite length_app in E. simpl in E. lia.
Qed.

(** HMAC under [key] tells the two messages apart when they differ. *)
Definition hmac_separates {H : Hashlib} (key m1 m2 : bytes) : Prop :=
  m1 <> m2 -> hmac_sha256 key m1 <> hmac_sha256 key m2.

(** C6, amended.  With the empty context the KDF is the autonomous
    evolution.  With a non-empty context it authenticates a different
    message under the same key, so its output differs from the autonomous
    evolution's whenever HMAC tells these two messages apart. *)
Theorem KDF_context_separation {H : Hashlib} (seed context : bytes) :
  (context = [] -> Crypto.KDF seed (Some context) = Crypto.KDF seed None)
  /\ (context <> [] ->
      hmac_separates seed ((seed ++ context) ++ Crypto.KDF_TAG) (seed ++ Crypto.KDF_TAG) ->
      Crypto.KDF seed (Some context) <> Crypto.KDF seed None).
Proof.
  split.
  - intros ->. apply KDF_empty_context.
  - intros Hc Hsep. unfold Crypto.KDF. apply Hsep. apply KDF_messages_differ. exact Hc.
Qed.

Lemma KDF_context_separation_witness :
  Crypto.KDF Demo.seed (Some []) = Crypto.KDF Demo.seed None
  /\ Crypto.KDF Demo.seed (Some (bytes_of_string "test_context"))
     <> Crypto.KDF Demo.seed None.
Proof.
  split.
  - apply (proj1 (KDF_context_separation Demo.seed [])). reflexivity.
  - apply (proj2 (KDF_context_separation Demo.seed (bytes_of_string "test_context"))).
    + discriminate.
    + intros _. vm_compute. discriminate.
Defined.

(** ** fragment.py: configuration errors *)





(** ** state.py: loading a persisted blob *)

Module DemoLoad.

(** A blob saved at anchor 5 (with rollback counter 1). *)
Definition old_blob : Blob :=
  {| blob_mode := Some "B"%string; blob_anchor := Some 5; blob_version := Some 1;
     blob_seed := None; blob_rollback_counter := Some 1 |}.

(** A receiver of class [cls] in Mode B, in memory at anchor 10 (after
    [counter] advances when it is a [SecureElementState]), with [blob] in
    its persistence file. *)
Definition heap (cls : state_class) (counter : option Z) (blob : Blob) : Heap :=
  {| state := {| state_cls := cls; mode := "B"; _anchor := 10; _seed := None;
                 _persistence_path := Some "state.json"%string;
                 _rollback_counter := counter |};
     validator := Validator.__init__ FragmentValidatorClass Demo.domain 7 256 true None;
     fs_files := [("state.json"%string, Json blob)];
     fs_unwritable := [];
     fs_unreplaceable := [];
     token_bytes := fun n => repeat xff n;
     erased := [];
     calls := Demo.no_calls |}.

End DemoLoad.

(** C9, as stated, fails: a [ReceiverState] at anchor 10 that loads a blob
    saved at anchor 5 raises nothing; the load returns normally (and changes
    nothing). *)
Lemma stale_blob_load_raises_nothing :
  State._load_state (DemoLoad.heap ReceiverStateClass None DemoLoad.old_blob)
  = (Ok tt, DemoLoad.heap ReceiverStateClass None DemoLoad.old_blob).
Proof. reflexivity. Qed.

Section LoadFacts.
Context {H : Hashlib}.

Lemma os_path_exists_found (path : string) (f : file) (h : Heap) :
  fs_lookup (fs_files h) path = Some f -> os_path_exists path h = (Ok true, h).
Proof. intro E. unfold os_path_exists. rewrite E. reflexivity. Qed.

Lemma read_json_found (path : string) (b : Blob) (h : Heap) :
  fs_lookup (fs_files h) path = Some (Json b) -> read_json path h = (Ok b, h).
Proof. intro E. unfold read_json. rewrite E. reflexivity. Qed.

End LoadFacts.

(** C9, amended.  Loading a blob whose anchor (0 when absent) is strictly
    less than the in-memory anchor into a [ReceiverState] returns normally
    and applies no part of it: the heap is as it was.  Loading a blob whose
    rollback counter (0 when absent) is strictly less than the in-memory
    counter into a [SecureElementState] raises [SecurityError] and applies no
    part of it. *)
Theorem load_refuses_older_state {H : Hashlib} (h : Heap) (c : ascii) (tl : string)
  (b : Blob) :
  _persistence_path (state h) = Some (String c tl) ->
  fs_lookup (fs_files h) (String c tl) = Some (Json b) ->
  (state_cls (state h) = ReceiverStateClass ->
   State.default 0 (blob_anchor b) < _anchor (state h) ->
   State._load_state h = (Ok tt, h))
  /\ (forall counter,
        state_cls (state h) = SecureElementStateClass ->
        _rollback_counter (state h) = Some counter ->
        State.default 0 (blob_rollback_counter b) < counter ->
        State._load_state h = (Raise SecurityError, h)).
Proof.
  intros Hpath Hfile. split.
  - intros Hcls Hlt.
    unfold State._load_state, bind, get_state. rewrite Hcls.
    unfold State.ReceiverState__load_state, bind, get_state. rewrite Hpath.
    rewrite (os_path_exists_found _ _ h Hfile). cbn [negb].
    unfold try_except, bind. rewrite (read_json_found _ _ h Hfile).
    destruct (State.default 0 (blob_anchor b) >=? _anchor (state h)) eqn:E;
      [|reflexivity].
    apply Z.geb_le in E. lia.
  - intros counter Hcls Hcnt Hlt.
    unfold State._load_state, bind, get_state. rewrite Hcls.
    unfold State.SecureElementState__load_state, bind, get_state. rewrite Hpath.
    rewrite (os_path_exists_found _ _ h Hfile). cbn [negb].
    unfold try_except, bind. rewrite (read_json_found _ _ h Hfile). rewrite Hcnt.
    destruct (State.default 0 (blob_rollback_counter b) <? counter) eqn:E;
      [reflexivity|].
    apply Z.ltb_ge in E. lia.
Qed.

Lemma load_refuses_older_state_witness :
  State._load_state (DemoLoad.heap ReceiverStateClass None DemoLoad.old_blob)
  = (Ok tt, DemoLoad.heap ReceiverStateClass None DemoLoad.old_blob)
  /\ State._load_state (DemoLoad.heap SecureElementStateClass (Some 2) DemoLoad.old_blob)
     = (Raise SecurityError,
        DemoLoad.heap SecureElementStateClass (Some 2) DemoLoad.old_blob).
Proof.
  split.
  - apply (proj1 (load_refuses_older_state
                    (DemoLoad.heap ReceiverStateClass None DemoLoad.old_blob)
                    "s" "tate.json" DemoLoad.old_blob eq_refl eq_refl)).
    + reflexivity.
    + cbn. lia.
  - apply (proj2 (load_refuses_older_state
                    (DemoLoad.heap SecureElementStateClass (Some 2) DemoLoad.old_blob)
                    "s" "tate.json" DemoLoad.old_blob eq_refl eq_refl) 2).
    + reflexivity.
    + reflexivity.
    + cbn. lia.
Defined.

(** A [SecureElementState] does not look at the anchor: a blob with an older
    anchor and a counter that is not older is applied, and the anchor goes
    back from 10 to 5. *)
Example secure_element_load_ignores_anchor :
  fst (State._load_state (DemoLoad.heap SecureElementStateClass (Some 1) DemoLoad.old_blob))
  = Ok tt
  /\ _anchor (state (snd (State._load_state
                            (DemoLoad.heap SecureElementStateClass (Some 1)
                                           DemoLoad.old_blob))))
     = 5.
Proof. split; reflexivity. Qed.

(** ** Known answers of the primitives

    The digests below are those of FIPS 180-4 (SHA-256 of "abc" and of the
    empty message), RFC 4231 test case 2 (HMAC-SHA-256) and FIPS 202
    (SHAKE256 of the empty message and of "abc"). *)

Example sha256_abc :
  hex (Fips.sha256 (bytes_of_string "abc"))
  = "ba7816bf8f01cfea414140de5dae2223b00361a396177a9cb410ff61f20015ad"%string.
Proof. vm_compute. reflexivity. Qed.

Example sha256_empty :
  hex (Fips.sha256 [])
  = "e3b0c44298fc1c149afbf4c8996fb92427ae41e4649b934ca495991b7852b855"%string.
Proof. vm_compute. reflexivity. Qed.

Example hmac_sha256_rfc4231_case2 :
  hex (Fips.hmac_sha256 (bytes_of_string "Jefe")
                        (bytes_of_string "what do ya want for nothing?"))
  = "5bdcc146bf60754e6a042426089575c75a003f089d2739839dec58b964ec3843"%string.
Proof. vm_compute. reflexivity. Qed.

Example shake_256_empty :
  hex (Fips.shake_256 [] 32)
  = "46b9dd2b0ba88d13233b3feb743eeb243fcd52ea62b81b82b50c27646ed5762f"%string.
Proof. vm_compute. reflexivity. Qed.

Example shake_256_abc :
  hex (Fips.shake_256 (bytes_of_string "abc") 64)
  = "483366601360a8771c6863080cc4114d8db44530f8f1e1ee4f94ea37e78b5739d5a15bef186a5386c75744c0527e1faa9f8726e462a12a4feb06bd8801e751e4"%string.
Proof. vm_compute. reflexivity. Qed.

Example fromhex_hex_seed : fromhex (hex Demo.seed) = Ok Demo.seed.
Proof. vm_compute. reflexivity. Qed.

(** [SecureElementState.__init__] sets [_rollback_counter] only after
    [ReceiverState.__init__] has run, which loads an existing file through
    the subclass's [_load_state]: constructing a [SecureElementState] over a
    persisted blob raises [AttributeError]. *)
Example secure_element_init_over_existing_file :
  fst (State.SecureElementState___init__ "B" 0 None (Some "state.json"%string)
         (DemoLoad.heap ReceiverStateClass None DemoLoad.old_blob))
  = Raise AttributeError.
Proof. reflexivity. Qed.

(** * Further properties of the code *)

(** ** crypto.py *)

(** X1.  [constant_time_equal(a, b)] is true exactly when the two byte
    strings are equal: strings of different lengths are unequal, and strings
    of the same length are equal when the OR of the XORs of their bytes is 0. *)
Theorem constant_time_equal_decides_equality (a b : bytes) :
  (Crypto.constant_time_equal a b = true <-> a = b)
  /\ (Crypto.constant_time_equal a b = false <-> a <> b).
Proof.
  pose proof (constant_time_equal_iff a b) as E. split; [exact E|].
  destruct (Crypto.constant_time_equal a b).
  - split; [discriminate|]. intro Hne. contradiction Hne. apply E. reflexivity.
  - split; [|reflexivity]. intros _ Hab. apply E in Hab. discriminate.
Qed.

(** X2.  [secure_erase(data)] leaves a buffer of the same length holding
    only zero bytes, whatever the random bytes of its first pass were. *)
Theorem secure_erase_leaves_zeros (random_bytes data : bytes) :
  Crypto.secure_erase random_bytes data = repeat x00 (length data)
  /\ length (Crypto.secure_erase random_bytes data) = length data.
Proof.
  rewrite secure_erase_zeros. split; [reflexivity|apply repeat_length].
Qed.

Section FragmentLength.
Context {H : Hashlib}.

Lemma extend_output_long (key encoded_input : bytes) (n : nat) (output out : bytes) :
  Crypto.extend_output key encoded_input n output = Ok out -> (n <= length out)%nat.
Proof.
  revert out.
  apply (Crypto.extend_output_elim
           (fun key encoded_input n output r =>
              forall out, r = Ok out -> (n <= length out)%nat)).
  - intros k e m o E _ out Eo. apply Ok_inj in Eo. subst out.
    apply Nat.ltb_ge in E. exact E.
  - intros k e m o counter Hlt IH _ _ out Eo. apply IH. exact Eo.
  - intros k e m o x Hlt _ _ out Eo. discriminate.
Qed.

(** Whenever [compute_fragment] returns, the length asked for was at least
    256 bits and the fragment has exactly [l // 8] bytes. *)
Lemma compute_fragment_length (D C Zi : bytes) (l : Z) (key : option bytes) (F : bytes) :
  Crypto.compute_fragment D C Zi l key = Ok F ->
  256 <= l /\ Z.of_nat (length F) = l / 8.
Proof.
  unfold Crypto.compute_fragment.
  destruct (l <? 256) eqn:El; [discriminate|]. apply Z.ltb_ge in El.
  destruct (Crypto.encode D C Zi) as [enc|e]; [|discriminate]. cbn [rbind].
  assert (Hpos : 0 <= l / 8) by (apply Z.div_pos; lia).
  destruct key as [key|].
  - destruct (Crypto.extend_output key enc (Z.to_nat (l / 8)) (hmac_sha256 key enc))
      as [out|e] eqn:Eo; [|discriminate].
    cbn [rbind]. intro E. apply Ok_inj in E. subst F.
    apply extend_output_long in Eo. rewrite length_firstn. split; [exact El|lia].
  - cbn [rbind]. intro E. apply Ok_inj in E. subst F.
    rewrite length_firstn, shake_256_digest_size. split; [exact El|lia].
Qed.

End FragmentLength.

(** X3.  [compute_fragment] returns a fragment of exactly [l // 8] bytes
    when [l >= 256], the domain, content and evolution parameter have at
    most 2^32 - 1 bytes each, and, with a key, [l // 8 <= 2^32] (the
    counter of the extension loop is written on four bytes). *)
Theorem compute_fragment_total {H : Hashlib} (D C Zi : bytes) (l : Z) (key : option bytes) :
  256 <= l ->
  Z.of_nat (length D) <= 2 ^ 32 - 1 ->
  Z.of_nat (length C) <= 2 ^ 32 - 1 ->
  Z.of_nat (length Zi) <= 2 ^ 32 - 1 ->
  (key <> None -> l / 8 <= 2 ^ 32) ->
  exists F, Crypto.compute_fragment D C Zi l key = Ok F /\ Z.of_nat (length F) = l / 8.
Proof. apply compute_fragment_returns. Qed.

Lemma compute_fragment_total_witness :
  exists F, Crypto.compute_fragment Demo.domain Demo.content Demo.seed 1000 (Some Demo.seed)
            = Ok F
            /\ Z.of_nat (length F) = 1000 / 8.
Proof.
  apply (compute_fragment_total Demo.domain Demo.content Demo.seed 1000 (Some Demo.seed)).
  - lia.
  - cbn. lia.
  - cbn. lia.
  - cbn. lia.
  - intros _. cbn. lia.
Defined.

(** X4.  Whatever the builder and the content, a fragment that [build]
    returns has exactly [fragment_length // 8] bytes, and [build] returns
    one only when [fragment_length >= 256]. *)
Theorem build_fragment_length {H : Hashlib} (b : Fragment.FragmentBuilder)
  (content : bytes) (prepared : bool) (F : bytes) :
  Fragment.build b content prepared = Ok F ->
  256 <= Fragment.fragment_length b
  /\ Z.of_nat (length F) = Fragment.fragment_length b / 8.
Proof.
  unfold Fragment.build.
  match goal with
  | |- rbind ?r _ = _ -> _ => destruct r as [zk|e]; [|discriminate]
  end.
  cbn [rbind]. apply compute_fragment_length.
Qed.

Lemma build_fragment_length_witness :
  exists F,
    Fragment.build Demo.builder Demo.content false = Ok F
    /\ 256 <= Fragment.fragment_length Demo.builder
    /\ Z.of_nat (length F) = Fragment.fragment_length Demo.builder / 8.
Proof.
  destruct (Fragment.build Demo.builder Demo.content false) as [F|e] eqn:E.
  - exists F. split; [reflexivity|].
    apply (build_fragment_length Demo.builder Demo.content false F). exact E.
  - vm_compute in E. discriminate E.
Defined.

(** ** Parts of the heap a computation preserves *)

(** [preserves f m]: the observation [f] of the heap is the same after [m]
    as before, whether [m] returns or raises. *)
Definition preserves {X A} (f : Heap -> X) (m : M A) : Prop :=
  forall h, f (snd (m h)) = f h.

Lemma preserves_ret {X A} (f : Heap -> X) (a : A) : preserves f (ret a).
Proof. intro h. reflexivity. Qed.

Lemma preserves_raise {X A} (f : Heap -> X) (e : exn) : preserves f (@raise A e).
Proof. intro h. reflexivity. Qed.

Lemma preserves_lift {X A} (f : Heap -> X) (r : result A) : preserves f (lift r).
Proof. intro h. reflexivity. Qed.

Lemma preserves_bind {X A B} (f : Heap -> X) (m : M A) (k : A -> M B) :
  preserves f m -> (forall a, preserves f (k a)) -> preserves f (bind m k).
Proof.
  intros Hm Hk h. unfold bind. specialize (Hm h).
  destruct (m h) as [[a|e] h']; cbn [snd] in *.
  - rewrite Hk. exact Hm.
  - exact Hm.
Qed.

Lemma preserves_try_except {X A} (f : Heap -> X) (m : M A) (caught : exn -> bool)
  (handler : exn -> M A) :
  preserves f m -> (forall e, preserves f (handler e)) ->
  preserves f (try_except m caught handler).
Proof.
  intros Hm Hh h. unfold try_except. specialize (Hm h).
  destruct (m h) as [[a|e] h']; cbn [snd] in *; [exact Hm|].
  destruct (caught e); [|exact Hm].
  rewrite Hh. exact Hm.
Qed.

(** Observations that do not look at the files, at the state object, or at
    the erase log. *)
Definition ignores_files {X} (f : Heap -> X) : Prop :=
  forall h files, f (with_files h files) = f h.
Definition ignores_state {X} (f : Heap -> X) : Prop :=
  forall h s, f (with_state h s) = f h.
Definition ignores_erased {X} (f : Heap -> X) : Prop :=
  forall h e, f (with_erased h e) = f h.

Lemma preserves_os_path_exists {X} (f : Heap -> X) (path : string) :
  preserves f (os_path_exists path).
Proof. intro h. reflexivity. Qed.

Lemma preserves_read_json {X} (f : Heap -> X) (path : string) :
  preserves f (read_json path).
Proof.
  intro h. unfold read_json.
  destruct (fs_lookup (fs_files h) path) as [[| | |b]|]; reflexivity.
Qed.

Lemma preserves_os_remove {X} (f : Heap -> X) (path : string) :
  ignores_files f -> preserves f (os_remove path).
Proof. intros Hf h. apply Hf. Qed.

Lemma preserves_write_json {X} (f : Heap -> X) (path : string) (b : Blob) :
  ignores_files f -> preserves f (write_json path b).
Proof.
  intros Hf h. unfold write_json.
  destruct (mem_string path (fs_unwritable h)); [reflexivity|apply Hf].
Qed.

Lemma preserves_os_replace {X} (f : Heap -> X) (src dst : string) :
  ignores_files f -> preserves f (os_replace src dst).
Proof.
  intros Hf h. unfold os_replace.
  destruct (fs_lookup (fs_files h) src); [|reflexivity].
  destruct (mem_string dst (fs_unreplaceable h)); [reflexivity|apply Hf].
Qed.

Lemma preserves_get_state {X} (f : Heap -> X) : preserves f get_state.
Proof. intro h. reflexivity. Qed.

Lemma preserves_get_validator {X} (f : Heap -> X) : preserves f get_validator.
Proof. intro h. reflexivity. Qed.

Lemma preserves_put_state {X} (f : Heap -> X) (s : ReceiverState) :
  ignores_state f -> preserves f (put_state s).
Proof. intros Hf h. apply Hf. Qed.

Section StatePreserves.
Context {H : Hashlib}.

Lemma preserves_set_anchor {X} (f : Heap -> X) (a : Z) :
  ignores_state f -> preserves f (State.set_anchor a).
Proof. intros Hf h. apply Hf. Qed.

Lemma preserves_set_seed {X} (f : Heap -> X) (s : option bytes) :
  ignores_state f -> preserves f (State.set_seed s).
Proof. intros Hf h. apply Hf. Qed.

Lemma preserves_set_rollback_counter {X} (f : Heap -> X) (c : option Z) :
  ignores_state f -> preserves f (State.set_rollback_counter c).
Proof. intros Hf h. apply Hf. Qed.

Lemma preserves_erase_buffer {X} (f : Heap -> X) (buffer : option bytes) :
  ignores_erased f -> preserves f (State.erase_buffer buffer).
Proof. intros Hf h. destruct buffer as [data|]; [apply Hf|reflexivity]. Qed.

End StatePreserves.

(** Splits a computation along its binds, handlers and branches; the leaves
    are the primitive steps above. *)
Ltac preserve :=
  repeat first
    [ apply preserves_ret
    | apply preserves_raise
    | apply preserves_lift
    | apply preserves_get_state
    | apply preserves_get_validator
    | apply preserves_os_path_exists
    | apply preserves_read_json
    | apply preserves_os_remove; solve [intros ? ?; reflexivity]
    | apply preserves_write_json; solve [intros ? ?; reflexivity]
    | apply preserves_os_replace; solve [intros ? ?; reflexivity]
    | apply preserves_put_state; solve [intros ? ?; reflexivity]
    | apply preserves_set_anchor; solve [intros ? ?; reflexivity]
    | apply preserves_set_seed; solve [intros ? ?; reflexivity]
    | apply preserves_set_rollback_counter; solve [intros ? ?; reflexivity]
    | apply preserves_erase_buffer; solve [intros ? ?; reflexivity]
    | apply preserves_try_except; [|intro]
    | apply preserves_bind; [|intro]
    | progress cbv zeta
    | match goal with
      | |- preserves _ (if ?b then _ else _) => destruct b
      | |- preserves _ (match ?x with _ => _ end) => destruct x
      end ].

Section ReceiverPreserves.
Context {H : Hashlib}.

(** What the receiver's own methods never touch: the validator object, the
    call counters, and which paths fail. *)
Definition outside_receiver (h : Heap)
  : FragmentValidator * Calls * list string * list string :=
  (validator h, calls h, fs_unwritable h, fs_unreplaceable h).

Lemma save_state_outside : preserves outside_receiver State._save_state.
Proof.
  unfold State._save_state, State.ReceiverState__save_state,
    State.SecureElementState__save_state.
  preserve.
Qed.

Lemma save_state_keeps_state : preserves state State._save_state.
Proof.
  unfold State._save_state, State.ReceiverState__save_state,
    State.SecureElementState__save_state.
  preserve.
Qed.

Lemma save_state_keeps_erased : preserves erased State._save_state.
Proof.
  unfold State._save_state, State.ReceiverState__save_state,
    State.SecureElementState__save_state.
  preserve.
Qed.

Lemma advance_outside (new_anchor : Z) (new_seed : option bytes) :
  preserves outside_receiver (State.advance new_anchor new_seed).
Proof.
  unfold State.advance, State.SecureElementState_advance, State.ReceiverState_advance.
  preserve.
Qed.

Lemma get_seed_for_index_pure {X} (f : Heap -> X) (index : Z) :
  preserves f (State.get_seed_for_index index).
Proof. unfold State.get_seed_for_index. preserve. Qed.

End ReceiverPreserves.

(** ** validator.py: what [validate] answers *)

Section ValidateAnswer.
Context {H : Hashlib}.

(** The search of Mode B as a function of the configuration alone. *)
Fixpoint first_match_b (D : bytes) (l : Z) (evol : Z -> result bytes) (F C : bytes)
  (window : list Z) : result (option Z) :=
  match window with
  | [] => Ok None
  | j :: window =>
      rbind (evol j)
            (fun z =>
               rbind (Crypto.compute_fragment D C z l None)
                     (fun e => if Crypto.constant_time_equal e F then Ok (Some j)
                               else first_match_b D l evol F C window))
  end.

Lemma mode_b_loop_result (evol : Z -> result bytes) (F C : bytes) (window : list Z)
  (h : Heap) :
  fst (Validator.mode_b_loop evol F C window h)
  = verdict (first_match_b (domain (validator h)) (fragment_length (validator h))
                           evol F C window).
Proof.
  revert h. induction window as [|j window IH]; intro h.
  - reflexivity.
  - cbn [Validator.mode_b_loop first_match_b].
    unfold bind, Validator.count_comparison, Validator.set_stats, get_validator,
      put_validator, Validator.call_compute_fragment, lift,
      Validator.call_constant_time_equal.
    cbn.
    destruct (evol j) as [z|x]; cbn; [|reflexivity].
    destruct (Crypto.compute_fragment _ _ _ _ _) as [e|x]; cbn; [|reflexivity].
    destruct (Crypto.constant_time_equal e F); cbn; [reflexivity|].
    rewrite IH. reflexivity.
Qed.

(** The answer of [validate], read off the heap it is called on. *)
Definition validate_answer (h : Heap) (F payload : bytes) (prepared : bool)
  : result (ValidationResult * option Z) :=
  let v := validator h in
  if negb (Z.of_nat (length F) =? fragment_length v / 8) then Ok (ERROR, None)
  else
    let C := if prepared then payload else sha256 payload in
    let window := range (_anchor (state h)) (_anchor (state h) + window_size v + 1) in
    if (mode (state h) =? "A")%string then
      match _seed (state h) with
      | None => Ok (ERROR, None)
      | Some K =>
          match validator_cls v with
          | FragmentValidatorClass =>
              verdict (first_match (domain v) (fragment_length v) (use_keyed_mode v)
                                   F C window K)
          | ConstantTimeValidatorClass =>
              verdict (ct_first_match (domain v) (fragment_length v) (use_keyed_mode v)
                                      F C window K None)
          end
      end
    else
      match evol_func v with
      | None => Ok (ERROR, None)
      | Some evol =>
          verdict (first_match_b (domain v) (fragment_length v) evol F C window)
      end.

Lemma validate_answer_correct (F payload : bytes) (prepared : bool) (h : Heap) :
  fst (Validator.validate F payload prepared h) = validate_answer h F payload prepared.
Proof.
  unfold validate_answer, Validator.validate, bind, Validator.count_validation,
    Validator.set_stats, get_validator, put_validator, State.anchor, get_state, ret.
  cbn.
  destruct (negb (Z.of_nat (length F) =? fragment_length (validator h) / 8));
    [reflexivity|].
  cbn.
  destruct (mode (state h) =? "A")%string.
  - unfold Validator._validate_mode_a, bind, get_validator. cbn.
    destruct (validator_cls (validator h)).
    + unfold Validator.FragmentValidator__validate_mode_a, bind, State.seed, get_state, ret.
      cbn. destruct (_seed (state h)) as [K|]; [|reflexivity].
      rewrite mode_a_loop_result. reflexivity.
    + unfold Validator.ConstantTimeValidator__validate_mode_a, bind, State.seed,
        get_state, ret.
      cbn. destruct (_seed (state h)) as [K|]; [|reflexivity].
      rewrite ct_mode_a_loop_result. reflexivity.
  - unfold Validator._validate_mode_b, Validator.FragmentValidator__validate_mode_b,
      bind, get_validator.
    cbn. destruct (evol_func (validator h)) as [evol|]; [|reflexivity].
    rewrite mode_b_loop_result. reflexivity.
Qed.

Lemma verdict_index (r : result (option Z)) (res : ValidationResult) (j : Z) :
  verdict r = Ok (res, Some j) -> r = Ok (Some j) /\ res = ACCEPT.
Proof.
  destruct r as [[i|]|e]; cbn; intro E; try discriminate.
  apply Ok_inj in E. inversion E. subst. split; reflexivity.
Qed.

Lemma first_match_in (D : bytes) (l : Z) (keyed : bool) (F C : bytes) (window : list Z)
  (seed : bytes) (j : Z) :
  first_match D l keyed F C window seed = Ok (Some j) -> In j window.
Proof.
  revert seed. induction window as [|i window IH]; intros seed; cbn [first_match].
  - discriminate.
  - destruct (expected_fragment D l keyed C seed) as [e|x]; [|discriminate]. cbn [rbind].
    destruct (Crypto.constant_time_equal e F).
    + intro E. apply Ok_inj in E. inversion E. left. reflexivity.
    + intro E. right. apply (IH _ E).
Qed.

Lemma ct_first_match_in (D : bytes) (l : Z) (keyed : bool) (F C : bytes)
  (window : list Z) (seed : bytes) (matched : option Z) (j : Z) :
  ct_first_match D l keyed F C window seed matched = Ok (Some j) ->
  matched = Some j \/ In j window.
Proof.
  revert seed matched. induction window as [|i window IH]; intros seed matched;
    cbn [ct_first_match].
  - intro E. apply Ok_inj in E. left. exact E.
  - destruct (expected_fragment D l keyed C seed) as [e|x]; [|discriminate]. cbn [rbind].
    intro E. apply IH in E. destruct E as [E|E]; [|right; right; exact E].
    destruct (Crypto.constant_time_equal e F); [|left; exact E].
    destruct matched as [m|]; [left; exact E|].
    inversion E. right. left. reflexivity.
Qed.

Lemma first_match_b_in (D : bytes) (l : Z) (evol : Z -> result bytes) (F C : bytes)
  (window : list Z) (j : Z) :
  first_match_b D l evol F C window = Ok (Some j) -> In j window.
Proof.
  induction window as [|i window IH]; cbn [first_match_b].
  - discriminate.
  - destruct (evol i) as [z|x]; [|discriminate]. cbn [rbind].
    destruct (Crypto.compute_fragment D C z l None) as [e|x]; [|discriminate]. cbn [rbind].
    destruct (Crypto.constant_time_equal e F).
    + intro E. apply Ok_inj in E. inversion E. left. reflexivity.
    + intro E. right. apply (IH E).
Qed.

Lemma in_range (j start stop : Z) : In j (range start stop) -> start <= j < stop.
Proof.
  unfold range. rewrite in_map_iff. intros [i [E Hi]]. apply in_seq in Hi. lia.
Qed.

(** An index that [validate] returns comes with ACCEPT and lies in the
    window. *)
Lemma validate_index_bounds (F payload : bytes) (prepared : bool)
  (h : Heap) (res : ValidationResult) (j : Z) :
  fst (Validator.validate F payload prepared h) = Ok (res, Some j) ->
  res = ACCEPT
  /\ _anchor (state h) <= j <= _anchor (state h) + window_size (validator h).
Proof.
  rewrite validate_answer_correct. unfold validate_answer. cbv zeta.
  destruct (negb (Z.of_nat (length F) =? fragment_length (validator h) / 8));
    [discriminate|].
  assert (Hin : forall w, w = range (_anchor (state h))
                                    (_anchor (state h) + window_size (validator h) + 1) ->
                          In j w ->
                          _anchor (state h) <= j
                          <= _anchor (state h) + window_size (validator h)).
  { intros w -> Hj. apply in_range in Hj. lia. }
  destruct (mode (state h) =? "A")%string.
  - destruct (_seed (state h)) as [K|]; [|discriminate].
    destruct (validator_cls (validator h)); intro E; apply verdict_index in E;
      destruct E as [E ->]; (split; [reflexivity|]).
    + apply first_match_in in E. apply (Hin _ eq_refl E).
    + apply ct_first_match_in in E. destruct E as [E|E]; [discriminate|].
      apply (Hin _ eq_refl E).
  - destruct (evol_func (validator h)) as [evol|]; [|discriminate].
    intro E. apply verdict_index in E. destruct E as [E ->]. split; [reflexivity|].
    apply first_match_b_in in E. apply (Hin _ eq_refl E).
Qed.

End ValidateAnswer.

(** X5.  Whatever the mode, the validator class and the outcome, an index
    returned by [validate] lies in the window [anchor, anchor + window_size],
    and comes only with ACCEPT. *)
Theorem validate_index_in_window {H : Hashlib} (F payload : bytes) (prepared : bool)
  (h : Heap) (res : ValidationResult) (j : Z) :
  fst (Validator.validate F payload prepared h) = Ok (res, Some j) ->
  res = ACCEPT
  /\ _anchor (state h) <= j <= _anchor (state h) + window_size (validator h).
Proof. apply validate_index_bounds. Qed.

Lemma validate_index_in_window_witness :
  exists F,
    Fragment.build Demo.builder Demo.content false = Ok F
    /\ fst (Validator.validate F Demo.content false
              (Demo.heap ConstantTimeValidatorClass 3 None []))
       = Ok (ACCEPT, Some 0)
    /\ ACCEPT = ACCEPT
    /\ 0 <= 0 <= 0 + 3.
Proof.
  eexists. split; [vm_compute; reflexivity|].
  assert (E : fst (Validator.validate
                     (match Fragment.build Demo.builder Demo.content false with
                      | Ok F => F
                      | Raise _ => []
                      end)
                     Demo.content false (Demo.heap ConstantTimeValidatorClass 3 None []))
              = Ok (ACCEPT, Some 0)) by (vm_compute; reflexivity).
  split; [exact E|].
  exact (validate_index_in_window _ Demo.content false
           (Demo.heap ConstantTimeValidatorClass 3 None []) ACCEPT 0 E).
Defined.

(** ** validator.py: structural errors and statistics *)

(** The structural faults [validate] reports as ERROR: a fragment of the
    wrong length, a Mode A state without a seed, a validator without an
    evolution function facing a state that is not in Mode A. *)
Definition structural_fault (h : Heap) (F : bytes) : Prop :=
  Z.of_nat (length F) <> fragment_length (validator h) / 8
  \/ (mode (state h) = "A"%string /\ _seed (state h) = None)
  \/ (mode (state h) <> "A"%string /\ evol_func (validator h) = None).

Lemma verdict_not_error (r : result (option Z)) (o : option Z) :
  verdict r <> Ok (ERROR, o).
Proof. destruct r as [[j|]|e]; cbn; discriminate. Qed.

(** X6.  [validate] answers (ERROR, None) exactly on a structural fault (a
    fragment whose length is not [fragment_length // 8], a Mode A state
    without seed, Mode B without evolution function); it then has made no
    call of [compute_fragment], [KDF] or [constant_time_equal]. *)
Theorem validate_error_iff_structural_fault {H : Hashlib} (F payload : bytes)
  (prepared : bool) (h : Heap) :
  (fst (Validator.validate F payload prepared h) = Ok (ERROR, None)
   <-> structural_fault h F)
  /\ (structural_fault h F ->
      calls (snd (Validator.validate F payload prepared h)) = calls h).
Proof.
  split.
  - rewrite validate_answer_correct. unfold validate_answer, structural_fault. cbv zeta.
    destruct (Z.of_nat (length F) =? fragment_length (validator h) / 8) eqn:El; cbn [negb].
    + apply Z.eqb_eq in El.
      destruct (String.eqb_spec (mode (state h)) "A") as [Em|Em].
      * destruct (_seed (state h)) as [K|].
        -- split.
           ++ destruct (validator_cls (validator h)); intro E;
                apply verdict_not_error in E; contradiction.
           ++ intros [Hl|[[_ Hs]|[Hm _]]]; [contradiction|discriminate|contradiction].
        -- split; [intros _; right; left; split; [exact Em|reflexivity]|reflexivity].
      * destruct (evol_func (validator h)) as [evol|].
        -- split.
           ++ intro E. apply verdict_not_error in E. contradiction.
           ++ intros [Hl|[[Hm _]|[_ He]]]; [contradiction|contradiction|discriminate].
        -- split; [intros _; right; right; split; [exact Em|reflexivity]|reflexivity].
    + apply Z.eqb_neq in El. split; [intros _; left; exact El|reflexivity].
  - unfold structural_fault, Validator.validate, bind, Validator.count_validation,
      Validator.set_stats, get_validator, put_validator, State.anchor, get_state, ret.
    cbn.
    destruct (Z.of_nat (length F) =? fragment_length (validator h) / 8) eqn:El; cbn;
      [|reflexivity].
    apply Z.eqb_eq in El.
    intros [Hl|[[Hm Hs]|[Hm He]]]; [contradiction| |].
    + rewrite Hm. cbn.
      unfold Validator._validate_mode_a, bind, get_validator. cbn.
      destruct (validator_cls (validator h));
        unfold Validator.FragmentValidator__validate_mode_a,
          Validator.ConstantTimeValidator__validate_mode_a, bind, State.seed, get_state, ret;
        cbn; rewrite Hs; reflexivity.
    + destruct (String.eqb_spec (mode (state h)) "A") as [Em|Em]; [contradiction|].
      unfold Validator._validate_mode_b, Validator.FragmentValidator__validate_mode_b,
        bind, get_validator.
      cbn. rewrite He. reflexivity.
Qed.

Lemma validate_error_iff_structural_fault_witness :
  fst (Validator.validate [x00; x01] Demo.content false
         (Demo.heap FragmentValidatorClass 7 None []))
  = Ok (ERROR, None)
  /\ calls (snd (Validator.validate [x00; x01] Demo.content false
                   (Demo.heap FragmentValidatorClass 7 None [])))
     = calls (Demo.heap FragmentValidatorClass 7 None []).
Proof.
  assert (Hf : structural_fault (Demo.heap FragmentValidatorClass 7 None []) [x00; x01]).
  { left. cbn. lia. }
  split.
  - apply (proj1 (validate_error_iff_structural_fault [x00; x01] Demo.content false
                    (Demo.heap FragmentValidatorClass 7 None []))).
    exact Hf.
  - apply (proj2 (validate_error_iff_structural_fault [x00; x01] Demo.content false
                    (Demo.heap FragmentValidatorClass 7 None []))).
    exact Hf.
Defined.

Section Statistics.
Context {H : Hashlib}.

(** What an outcome adds to the counters [accepts] and [rejects]. *)
Definition tally (r : result (ValidationResult * option Z)) : Z * Z :=
  match r with
  | Ok (ACCEPT, _) => (1, 0)
  | Ok (REJECT, _) => (0, 1)
  | _ => (0, 0)
  end.

(** [m] adds its outcome's tally to [accepts] and [rejects], leaves
    [total_validations] alone and makes at most [n] comparisons. *)
Definition tallies {A} (n : nat) (outcome : result A -> Z * Z) (m : M A) : Prop :=
  forall h,
    let st := _stats (validator h) in
    let st' := _stats (validator (snd (m h))) in
    total_validations st' = total_validations st
    /\ accepts st' = accepts st + fst (outcome (fst (m h)))
    /\ rejects st' = rejects st + snd (outcome (fst (m h)))
    /\ comparisons st <= comparisons st' <= comparisons st + Z.of_nat n.

Lemma mode_a_loop_tallies (F C : bytes) (window : list Z) (seed : bytes) :
  tallies (length window) tally (Validator.mode_a_loop F C window seed).
Proof.
  revert seed. induction window as [|j window IH]; intros seed h.
  - cbn. lia.
  - cbn [Validator.mode_a_loop].
    unfold bind, Validator.count_comparison, Validator.set_stats, get_validator,
      put_validator, Validator.call_compute_fragment, lift,
      Validator.call_constant_time_equal, Validator.call_KDF, Validator.count_accept, ret.
    cbn -[Z.of_nat Z.add].
    destruct (use_keyed_mode (validator h));
      (destruct (Crypto.compute_fragment _ _ _ _ _) as [e|x]; cbn -[Z.of_nat Z.add];
       [|lia]);
      (destruct (Crypto.constant_time_equal e F); cbn -[Z.of_nat Z.add]; [lia|]);
      match goal with
      | |- context [Validator.mode_a_loop F C window ?s ?h1] =>
          specialize (IH s h1); cbv zeta in IH; cbn -[Z.of_nat Z.add] in IH;
          destruct IH as (I1 & I2 & I3 & I4);
          destruct (Validator.mode_a_loop F C window s h1) as [r h2];
          cbn -[Z.of_nat Z.add] in *; lia
      end.
Qed.

Lemma mode_b_loop_tallies (evol : Z -> result bytes) (F C : bytes) (window : list Z) :
  tallies (length window) tally (Validator.mode_b_loop evol F C window).
Proof.
  induction window as [|j window IH]; intros h.
  - cbn. lia.
  - cbn [Validator.mode_b_loop].
    unfold bind, Validator.count_comparison, Validator.set_stats, get_validator,
      put_validator, Validator.call_compute_fragment, lift,
      Validator.call_constant_time_equal, Validator.count_accept, ret.
    cbn -[Z.of_nat Z.add].
    destruct (evol j) as [z|x]; cbn -[Z.of_nat Z.add]; [|lia].
    destruct (Crypto.compute_fragment _ _ _ _ _) as [e|x]; cbn -[Z.of_nat Z.add]; [|lia].
    destruct (Crypto.constant_time_equal e F); cbn -[Z.of_nat Z.add]; [lia|].
    match goal with
    | |- context [Validator.mode_b_loop evol F C window ?h1] =>
        specialize (IH h1); cbv zeta in IH; cbn -[Z.of_nat Z.add] in IH;
        destruct IH as (I1 & I2 & I3 & I4);
        destruct (Validator.mode_b_loop evol F C window h1) as [r h2];
        cbn -[Z.of_nat Z.add] in *; lia
    end.
Qed.

Lemma ct_mode_a_loop_tallies (F C : bytes) (window : list Z) (seed : bytes)
  (matched : option Z) :
  tallies (length window) tally (Validator.ct_mode_a_loop F C window seed matched).
Proof.
  revert seed matched. induction window as [|j window IH]; intros seed matched h.
  - destruct matched; cbn; lia.
  - cbn [Validator.ct_mode_a_loop].
    unfold bind, Validator.count_comparison, Validator.set_stats, get_validator,
      put_validator, Validator.call_compute_fragment, lift,
      Validator.call_constant_time_equal, Validator.call_KDF, ret.
    cbn -[Z.of_nat Z.add].
    destruct (use_keyed_mode (validator h));
      (destruct (Crypto.compute_fragment _ _ _ _ _) as [e|x]; cbn -[Z.of_nat Z.add];
       [|lia]);
      match goal with
      | |- context [Validator.ct_mode_a_loop F C window ?s ?m ?h1] =>
          specialize (IH s m h1); cbv zeta in IH; cbn -[Z.of_nat Z.add] in IH;
          destruct IH as (I1 & I2 & I3 & I4);
          destruct (Validator.ct_mode_a_loop F C window s m h1) as [r h2];
          cbn -[Z.of_nat Z.add] in *; lia
      end.
Qed.

End Statistics.

Section StatisticsOfModes.
Context {H : Hashlib}.

Lemma validate_mode_a_tallies (F C : bytes) (window : list Z) :
  tallies (length window) tally (Validator._validate_mode_a F C window).
Proof.
  intro g.
  unfold Validator._validate_mode_a, Validator.FragmentValidator__validate_mode_a,
    Validator.ConstantTimeValidator__validate_mode_a, State.seed, get_validator,
    get_state, ret.
  unfold bind. cbv zeta.
  destruct (validator_cls (validator g)); destruct (_seed (state g)) as [K|];
    cbn [fst snd].
  - exact (mode_a_loop_tallies F C window K g).
  - cbn. lia.
  - exact (ct_mode_a_loop_tallies F C window K None g).
  - cbn. lia.
Qed.

Lemma validate_mode_b_tallies (F C : bytes) (window : list Z) :
  tallies (length window) tally (Validator._validate_mode_b F C window).
Proof.
  intro g.
  unfold Validator._validate_mode_b, Validator.FragmentValidator__validate_mode_b,
    get_validator, ret.
  unfold bind. cbv zeta.
  destruct (evol_func (validator g)) as [evol|]; cbn [fst snd].
  - exact (mode_b_loop_tallies evol F C window g).
  - cbn. lia.
Qed.

End StatisticsOfModes.

(** X7.  Every [validate] call, whatever it returns or raises, adds 1 to
    [total_validations]; it adds 1 to [accepts] exactly when it returns
    ACCEPT and 1 to [rejects] exactly when it returns REJECT (nothing on
    ERROR or on an exception), and it adds between 0 and [window_size + 1]
    to [comparisons]. *)
Theorem validate_statistics {H : Hashlib} (F payload : bytes) (prepared : bool) (h : Heap) :
  total_validations (_stats (validator (snd (Validator.validate F payload prepared h))))
  = total_validations (_stats (validator h)) + 1
  /\ accepts (_stats (validator (snd (Validator.validate F payload prepared h))))
     = accepts (_stats (validator h))
       + fst (tally (fst (Validator.validate F payload prepared h)))
  /\ rejects (_stats (validator (snd (Validator.validate F payload prepared h))))
     = rejects (_stats (validator h))
       + snd (tally (fst (Validator.validate F payload prepared h)))
  /\ comparisons (_stats (validator h))
     <= comparisons (_stats (validator (snd (Validator.validate F payload prepared h))))
     <= comparisons (_stats (validator h)) + Z.max 0 (window_size (validator h) + 1).
Proof.
  assert (Hlen : forall a nu, Z.of_nat (length (range a (a + nu + 1))) = Z.max 0 (nu + 1)).
  { intros a nu. unfold range. rewrite length_map, length_seq. lia. }
  specialize (Hlen (_anchor (state h)) (window_size (validator h))).
  unfold Validator.validate, bind, Validator.count_validation, Validator.set_stats,
    get_validator, put_validator, State.anchor, get_state, ret.
  cbn -[Z.of_nat Z.add Z.max].
  destruct (negb (Z.of_nat (length F) =? fragment_length (validator h) / 8));
    cbn -[Z.of_nat Z.add Z.max]; [lia|].
  match goal with
  | |- context [Validator._validate_mode_a F ?c ?w] =>
      set (C := c) in *; set (w0 := w) in *
  end.
  match goal with
  | |- context [with_validator h ?v] => set (h0 := with_validator h v) in *
  end.
  assert (Hst : _stats (validator h0)
                = {| total_validations := total_validations (_stats (validator h)) + 1;
                     accepts := accepts (_stats (validator h));
                     rejects := rejects (_stats (validator h));
                     comparisons := comparisons (_stats (validator h)) |}) by reflexivity.
  assert (Htally : tallies (length w0) tally
                     (if (mode (state h) =? "A")%string
                      then Validator._validate_mode_a F C w0
                      else Validator._validate_mode_b F C w0)).
  { destruct (mode (state h) =? "A")%string;
      [apply validate_mode_a_tallies|apply validate_mode_b_tallies]. }
  specialize (Htally h0). cbv zeta in Htally. rewrite Hst in Htally.
  cbn [total_validations accepts rejects comparisons] in Htally.
  destruct Htally as (T1 & T2 & T3 & T4).
  destruct (mode (state h) =? "A")%string; lia.
Qed.

(** ** state.py and validator.py: what a commit does to the state *)

Section AdvanceOutcome.
Context {H : Hashlib}.

(** The state object once the guard of [advance] has passed: the new
    anchor and, in Mode A, the new seed. *)
Definition advanced (s : ReceiverState) (new_anchor : Z) (new_seed : option bytes)
  : ReceiverState :=
  {| state_cls := state_cls s; mode := mode s; _anchor := new_anchor;
     _seed := if (mode s =? "A")%string then new_seed else _seed s;
     _persistence_path := _persistence_path s;
     _rollback_counter := _rollback_counter s |}.

(** The end of [advance]: [if self._persistence_path: self._save_state()]
    and [return True]. *)
Definition persist_and_return (s : ReceiverState) : M bool :=
  ((if truthy_path (_persistence_path s) then State._save_state else ret tt) ;;
   ret true)%heap.

Lemma ReceiverState_advance_unfold (h : Heap) (new_anchor : Z) (new_seed : option bytes) :
  may_advance (state h) new_anchor new_seed ->
  State.ReceiverState_advance new_anchor new_seed h
  = if (mode (state h) =? "A")%string then
      match _seed (state h) with
      | Some old =>
          persist_and_return (state h)
            (with_erased (with_state h (advanced (state h) new_anchor new_seed))
                         (old :: erased h))
      | None => (Raise TypeError, with_state h (advanced (state h) new_anchor new_seed))
      end
    else persist_and_return (state h)
           (with_state h (advanced (state h) new_anchor new_seed)).
Proof.
  intros [Hlt Hns].
  unfold State.ReceiverState_advance, persist_and_return, advanced, bind, get_state.
  destruct (new_anchor <=? _anchor (state h)) eqn:E; [apply Z.leb_le in E; lia|].
  destruct (String.eqb_spec (mode (state h)) "A") as [Em|Em].
  - destruct new_seed as [ns|]; [|contradiction (Hns Em); reflexivity].
    unfold State.set_seed, State.set_anchor, State.erase_buffer.
    destruct (_seed (state h)) as [old|]; reflexivity.
  - reflexivity.
Qed.

Lemma persist_and_return_keeps (s : ReceiverState) (h : Heap) :
  state (snd (persist_and_return s h)) = state h
  /\ erased (snd (persist_and_return s h)) = erased h
  /\ (fst (persist_and_return s h) = Ok true
      \/ exists e, fst (persist_and_return s h) = Raise e).
Proof.
  unfold persist_and_return.
  assert (Hs : preserves state (if truthy_path (_persistence_path s)
                                then State._save_state else ret tt)).
  { destruct (truthy_path _); [apply save_state_keeps_state|apply preserves_ret]. }
  assert (He : preserves erased (if truthy_path (_persistence_path s)
                                 then State._save_state else ret tt)).
  { destruct (truthy_path _); [apply save_state_keeps_erased|apply preserves_ret]. }
  specialize (Hs h). specialize (He h). unfold bind.
  destruct ((if truthy_path (_persistence_path s) then State._save_state else ret tt) h)
    as [[[]|e] h']; cbn [fst snd] in *.
  - split; [exact Hs|]. split; [exact He|]. left. reflexivity.
  - split; [exact Hs|]. split; [exact He|]. right. exists e. reflexivity.
Qed.

(** Once the guard has passed, [ReceiverState.advance] leaves the advanced
    state object behind, whether its persistence step returns or raises;
    it never answers False. *)
Lemma ReceiverState_advance_passed (h : Heap) (new_anchor : Z) (new_seed : option bytes) :
  may_advance (state h) new_anchor new_seed ->
  state (snd (State.ReceiverState_advance new_anchor new_seed h))
  = advanced (state h) new_anchor new_seed
  /\ (fst (State.ReceiverState_advance new_anchor new_seed h) = Ok true
      \/ exists e, fst (State.ReceiverState_advance new_anchor new_seed h) = Raise e)
  /\ (fst (State.ReceiverState_advance new_anchor new_seed h) = Ok true ->
      if (mode (state h) =? "A")%string then
        exists old, _seed (state h) = Some old
                    /\ erased (snd (State.ReceiverState_advance new_anchor new_seed h))
                       = old :: erased h
      else erased (snd (State.ReceiverState_advance new_anchor new_seed h)) = erased h).
Proof.
  intro Hg. rewrite (ReceiverState_advance_unfold h new_anchor new_seed Hg).
  destruct (mode (state h) =? "A")%string.
  - destruct (_seed (state h)) as [old|].
    + match goal with
      | |- context [persist_and_return ?s ?h1] =>
          destruct (persist_and_return_keeps s h1) as (Hs & He & Hr)
      end.
      rewrite Hs, He. cbn [state erased with_erased with_state].
      split; [reflexivity|]. split; [exact Hr|].
      intros _. exists old. split; reflexivity.
    + cbn [fst snd state with_state]. split; [reflexivity|].
      split; [right; exists TypeError; reflexivity|discriminate].
  - match goal with
    | |- context [persist_and_return ?s ?h1] =>
        destruct (persist_and_return_keeps s h1) as (Hs & He & Hr)
    end.
    rewrite Hs, He. cbn [state erased with_state].
    split; [reflexivity|]. split; [exact Hr|]. intros _. reflexivity.
Qed.

(** [SecureElementState.advance] after its guarded part. *)
Definition counted (s : ReceiverState) : ReceiverState :=
  match state_cls s, _rollback_counter s with
  | SecureElementStateClass, Some counter =>
      {| state_cls := state_cls s; mode := mode s; _anchor := _anchor s;
         _seed := _seed s; _persistence_path := _persistence_path s;
         _rollback_counter := Some (counter + 1) |}
  | _, _ => s
  end.

Lemma counted_fields (s : ReceiverState) :
  state_cls (counted s) = state_cls s
  /\ mode (counted s) = mode s
  /\ _anchor (counted s) = _anchor s
  /\ _seed (counted s) = _seed s
  /\ _persistence_path (counted s) = _persistence_path s
  /\ (_rollback_counter s <> None -> _rollback_counter (counted s) <> None).
Proof.
  unfold counted.
  destruct (state_cls s) eqn:Ecls; [|destruct (_rollback_counter s) as [counter|] eqn:Ec];
    cbn [state_cls mode _anchor _seed _persistence_path _rollback_counter];
    rewrite ?Ecls, ?Ec;
    (split; [reflexivity|]); (split; [reflexivity|]); (split; [reflexivity|]);
    (split; [reflexivity|]); (split; [reflexivity|]).
  - intro Hn. exact Hn.
  - intros _. discriminate.
  - intro Hn. exact Hn.
Qed.

(** What [state.advance] does, by its answer: False leaves the heap as it
    was; True leaves the advanced state object, with the rollback counter of
    a [SecureElementState] incremented; an exception leaves the advanced
    state object or the old one. *)
Lemma advance_outcome (h : Heap) (new_anchor : Z) (new_seed : option bytes) :
  match fst (State.advance new_anchor new_seed h) with
  | Ok false => snd (State.advance new_anchor new_seed h) = h
  | Ok true =>
      may_advance (state h) new_anchor new_seed
      /\ state (snd (State.advance new_anchor new_seed h))
         = counted (advanced (state h) new_anchor new_seed)
      /\ (if (mode (state h) =? "A")%string then
            exists old, _seed (state h) = Some old
                        /\ erased (snd (State.advance new_anchor new_seed h))
                           = old :: erased h
          else erased (snd (State.advance new_anchor new_seed h)) = erased h)
  | Raise _ =>
      may_advance (state h) new_anchor new_seed
      /\ state (snd (State.advance new_anchor new_seed h))
         = advanced (state h) new_anchor new_seed
  end.
Proof.
  destruct (may_advance_dec (state h) new_anchor new_seed) as [Hg|Hg].
  - destruct (ReceiverState_advance_passed h new_anchor new_seed Hg) as (Hs & Hr & He).
    unfold State.advance, bind, get_state.
    destruct (state_cls (state h)) eqn:Ecls.
    + destruct Hr as [Hr|[e Hr]]; rewrite Hr.
      * split; [exact Hg|]. split; [|exact (He Hr)].
        rewrite Hs. unfold counted. cbn [state_cls advanced]. rewrite Ecls. reflexivity.
      * split; [exact Hg|exact Hs].
    + unfold State.SecureElementState_advance, bind.
      destruct (State.ReceiverState_advance new_anchor new_seed h) as [[[|]|e] h1];
        cbn [fst snd] in *.
      * unfold get_state, State.set_rollback_counter, ret.
        destruct (_rollback_counter (state h1)) as [counter|] eqn:Ec; cbn [fst snd].
        -- split; [exact Hg|]. split; [|exact (He eq_refl)].
           cbn [state with_state]. rewrite Hs in *. unfold counted.
           cbn [state_cls advanced _rollback_counter] in *. rewrite Ecls, Ec.
           reflexivity.
        -- split; [exact Hg|exact Hs].
      * destruct Hr as [Hr|[e Hr]]; discriminate.
      * split; [exact Hg|exact Hs].
  - rewrite (advance_refused h new_anchor new_seed Hg). reflexivity.
Qed.

End AdvanceOutcome.

(** ** state.py: the answer of [advance] *)

Section AdvanceAnswer.
Context {H : Hashlib}.

Lemma persistence_works_dec (h : Heap) : persistence_works h \/ ~ persistence_works h.
Proof.
  unfold persistence_works.
  destruct (_persistence_path (state h)) as [[|c tl]|]; [left; exact I| |left; exact I].
  destruct (mem_string (State.temp_path (String c tl)) (fs_unwritable h));
    [right; intros [E _]; discriminate E|].
  destruct (mem_string (String c tl) (fs_unreplaceable h));
    [right; intros [_ E]; discriminate E|].
  left. split; reflexivity.
Qed.

(** [_save_state] when the temporary file cannot be written or cannot be
    renamed: the [OSError] of the failing call leaves the method (after the
    cleanup of [ReceiverState._save_state], which re-raises it). *)
Lemma save_state_raises (h : Heap) :
  (state_cls (state h) = SecureElementStateClass -> _rollback_counter (state h) <> None) ->
  ~ persistence_works h ->
  fst (State._save_state h) = Raise OSError.
Proof.
  unfold persistence_works. intros Hc Hp.
  unfold State._save_state, bind, get_state.
  destruct (state_cls (state h)) eqn:Ecls.
  - unfold State.ReceiverState__save_state, bind, get_state.
    destruct (_persistence_path (state h)) as [[|c tl]|];
      [contradiction (Hp I)| |contradiction (Hp I)].
    unfold try_except, bind, write_json.
    destruct (mem_string (State.temp_path (String c tl)) (fs_unwritable h)) eqn:Ew.
    + unfold os_path_exists. cbn [fst snd].
      destruct (fs_lookup (fs_files h) (State.temp_path (String c tl))); reflexivity.
    + unfold os_replace. cbn [fs_files with_files]. rewrite fs_lookup_head.
      destruct (mem_string (String c tl) (fs_unreplaceable h)) eqn:Er;
        [|contradiction Hp; split; reflexivity].
      cbn [fs_unreplaceable with_files]. rewrite Er.
      unfold os_path_exists. cbn [fs_files with_files]. rewrite fs_lookup_head.
      reflexivity.
  - unfold State.SecureElementState__save_state, bind, get_state.
    destruct (_persistence_path (state h)) as [[|c tl]|];
      [contradiction (Hp I)| |contradiction (Hp I)].
    destruct (_rollback_counter (state h)) as [counter|];
      [|contradiction (Hc eq_refl); reflexivity].
    unfold bind, write_json.
    destruct (mem_string (State.temp_path (String c tl)) (fs_unwritable h)) eqn:Ew;
      [reflexivity|].
    unfold os_replace. cbn [fs_files with_files]. rewrite fs_lookup_head.
    destruct (mem_string (String c tl) (fs_unreplaceable h)) eqn:Er;
      [|contradiction Hp; split; reflexivity].
    cbn [fs_unreplaceable with_files]. rewrite Er. reflexivity.
Qed.

(** [_save_state] returns only when the file could be written and renamed. *)
Lemma save_state_returns_only_if (h : Heap) :
  fst (State._save_state h) = Ok tt -> persistence_works h.
Proof.
  intro E.
  destruct (persistence_works_dec h) as [Hp|Hp]; [exact Hp|].
  destruct (state_cls (state h)) eqn:Ecls.
  - rewrite save_state_raises in E; [discriminate E| |exact Hp].
    intro E'. rewrite Ecls in E'. discriminate E'.
  - destruct (_rollback_counter (state h)) as [counter|] eqn:Ec.
    + rewrite save_state_raises in E; [discriminate E| |exact Hp].
      intros _. rewrite Ec. discriminate.
    + exfalso. revert E. unfold persistence_works in Hp.
      unfold State._save_state, State.SecureElementState__save_state, bind, get_state.
      rewrite Ecls.
      destruct (_persistence_path (state h)) as [[|c tl]|];
        [contradiction (Hp I)| |contradiction (Hp I)].
      rewrite Ec. discriminate.
Qed.

Lemma truthy_path_works (h : Heap) :
  truthy_path (_persistence_path (state h)) = false -> persistence_works h.
Proof.
  unfold persistence_works, truthy_path.
  destruct (_persistence_path (state h)) as [[|c tl]|]; try discriminate; intros _; exact I.
Qed.

Lemma not_works_truthy_path (h : Heap) :
  ~ persistence_works h -> truthy_path (_persistence_path (state h)) = true.
Proof.
  intro Hp. destruct (truthy_path (_persistence_path (state h))) eqn:E; [reflexivity|].
  contradiction (Hp (truthy_path_works h E)).
Qed.

(** The end of [advance], by the persistence step. *)
Lemma persist_and_return_answer (h : Heap) :
  (fst (persist_and_return (state h) h) = Ok true -> persistence_works h)
  /\ ((state_cls (state h) = SecureElementStateClass ->
       _rollback_counter (state h) <> None) ->
      ~ persistence_works h ->
      fst (persist_and_return (state h) h) = Raise OSError).
Proof.
  unfold persist_and_return, bind. split.
  - destruct (truthy_path (_persistence_path (state h))) eqn:Et;
      [|intros _; exact (truthy_path_works h Et)].
    intro E. apply save_state_returns_only_if.
    destruct (State._save_state h) as [[[]|e] h']; [reflexivity|discriminate E].
  - intros Hc Hp. rewrite (not_works_truthy_path h Hp).
    pose proof (save_state_raises h Hc Hp) as E.
    destruct (State._save_state h) as [[[]|e] h']; cbn [fst] in *;
      [discriminate E|injection E as ->; reflexivity].
Qed.

Lemma persistence_works_same (h h1 : Heap) :
  _persistence_path (state h1) = _persistence_path (state h) ->
  fs_unwritable h1 = fs_unwritable h ->
  fs_unreplaceable h1 = fs_unreplaceable h ->
  (persistence_works h1 <-> persistence_works h).
Proof.
  unfold persistence_works. intros -> -> ->. reflexivity.
Qed.

(** [ReceiverState.advance] once its guard has passed: it answers True only
    if the persistence step met no I/O error, and it raises [OSError] when
    that step fails. *)
Lemma ReceiverState_advance_answer (h : Heap) (new_anchor : Z) (new_seed : option bytes) :
  may_advance (state h) new_anchor new_seed ->
  (fst (State.ReceiverState_advance new_anchor new_seed h) = Ok true ->
   persistence_works h)
  /\ (state_ok (state h) -> ~ persistence_works h ->
      fst (State.ReceiverState_advance new_anchor new_seed h) = Raise OSError).
Proof.
  intro Hg. rewrite (ReceiverState_advance_unfold h new_anchor new_seed Hg).
  destruct (String.eqb_spec (mode (state h)) "A") as [Em|Em].
  - destruct (_seed (state h)) as [old|] eqn:Eold.
    + set (h1 := with_erased (with_state h (advanced (state h) new_anchor new_seed))
                             (old :: erased h)).
      change (persist_and_return (state h) h1) with (persist_and_return (state h1) h1).
      destruct (persist_and_return_answer h1) as [Hok Hraise].
      assert (Hsame : persistence_works h1 <-> persistence_works h)
        by (apply persistence_works_same; reflexivity).
      split.
      * intro E. apply Hsame, Hok, E.
      * intros [_ Hc] Hp. apply Hraise; [exact Hc|]. intro Hp1. apply Hp, Hsame, Hp1.
    + split; [discriminate|]. intros [Hs _] _. contradiction (Hs Em).
  - set (h1 := with_state h (advanced (state h) new_anchor new_seed)).
    change (persist_and_return (state h) h1) with (persist_and_return (state h1) h1).
    destruct (persist_and_return_answer h1) as [Hok Hraise].
    assert (Hsame : persistence_works h1 <-> persistence_works h)
      by (apply persistence_works_same; reflexivity).
    split.
    + intro E. apply Hsame, Hok, E.
    + intros [_ Hc] Hp. apply Hraise; [exact Hc|]. intro Hp1. apply Hp, Hsame, Hp1.
Qed.

(** The same through the object's class; once the guard has passed the
    answer is never False. *)
Lemma advance_answer (h : Heap) (new_anchor : Z) (new_seed : option bytes) :
  may_advance (state h) new_anchor new_seed ->
  fst (State.advance new_anchor new_seed h) <> Ok false
  /\ (fst (State.advance new_anchor new_seed h) = Ok true -> persistence_works h)
  /\ (state_ok (state h) -> ~ persistence_works h ->
      fst (State.advance new_anchor new_seed h) = Raise OSError).
Proof.
  intro Hg.
  destruct (ReceiverState_advance_answer h new_anchor new_seed Hg) as [Hok Hraise].
  destruct (ReceiverState_advance_passed h new_anchor new_seed Hg) as (_ & Hr & _).
  unfold State.advance, bind, get_state.
  destruct (state_cls (state h)).
  - split; [|split; [exact Hok|exact Hraise]].
    destruct Hr as [Hr|[e Hr]]; rewrite Hr; discriminate.
  - unfold State.SecureElementState_advance, bind.
    destruct (State.ReceiverState_advance new_anchor new_seed h) as [[[|]|e] h1];
      cbn [fst snd] in *.
    + unfold get_state, State.set_rollback_counter, ret.
      split; [|split].
      * destruct (_rollback_counter (state h1)); discriminate.
      * intros _. apply Hok. reflexivity.
      * intros Hs Hp. discriminate (Hraise Hs Hp).
    + destruct Hr as [Hr|[e Hr]]; discriminate Hr.
    + split; [discriminate|]. split; [discriminate|exact Hraise].
Qed.

End AdvanceAnswer.

(** C3, amended.  [advance(t', K')] returns False if and only if
    [t' <= anchor] or, in Mode A, [K'] is None, and the heap is then
    untouched (anchor and seed as before).  It returns True only if
    [t' > anchor], in Mode A [K'] is not None, and the persistence step met
    no I/O error; the anchor is then [t'] and, in Mode A, the stored seed is
    [K'].  For a state that satisfies its class invariant, with
    [t' > anchor] and in Mode A a seed [K'], it returns True when the
    persistence step meets no I/O error, and otherwise raises the [OSError]
    of [_save_state] instead of returning. *)
Theorem advance_contract {H : Hashlib} (h : Heap) (new_anchor : Z)
  (new_seed : option bytes) :
  (fst (State.advance new_anchor new_seed h) = Ok false
   <-> new_anchor <= _anchor (state h)
       \/ (mode (state h) = "A"%string /\ new_seed = None))
  /\ (fst (State.advance new_anchor new_seed h) = Ok false ->
      snd (State.advance new_anchor new_seed h) = h)
  /\ (fst (State.advance new_anchor new_seed h) = Ok true ->
      _anchor (state h) < new_anchor
      /\ (mode (state h) = "A"%string -> new_seed <> None)
      /\ persistence_works h
      /\ _anchor (state (snd (State.advance new_anchor new_seed h))) = new_anchor
      /\ (mode (state h) = "A"%string ->
          _seed (state (snd (State.advance new_anchor new_seed h))) = new_seed))
  /\ (state_ok (state h) ->
      _anchor (state h) < new_anchor ->
      (mode (state h) = "A"%string -> new_seed <> None) ->
      (persistence_works h -> fst (State.advance new_anchor new_seed h) = Ok true)
      /\ (~ persistence_works h ->
          fst (State.advance new_anchor new_seed h) = Raise OSError)).
Proof.
  destruct (may_advance_dec (state h) new_anchor new_seed) as [Hg|Hg].
  - destruct (advance_answer h new_anchor new_seed Hg) as (Hnf & Hok & Hraise).
    pose proof (advance_outcome h new_anchor new_seed) as Hout.
    split; [|split; [|split]].
    + split; [intro E; contradiction (Hnf E)|].
      destruct Hg as [Hlt Hns]. intros [Hle|[Em En]]; [lia|].
      contradiction (Hns Em En).
    + intro E. contradiction (Hnf E).
    + intro E. rewrite E in Hout. destruct Hout as (_ & Hst & _).
      destruct Hg as [Hlt Hns].
      split; [exact Hlt|]. split; [exact Hns|]. split; [exact (Hok E)|].
      rewrite Hst.
      destruct (counted_fields (advanced (state h) new_anchor new_seed))
        as (_ & _ & Ha & Hs & _).
      rewrite Ha, Hs. cbn [advanced _anchor _seed].
      split; [reflexivity|]. intro Em. rewrite Em. reflexivity.
    + intros Hinv _ _. split; [|exact (Hraise Hinv)].
      intro Hp.
      destruct (advance_done h new_anchor new_seed Hinv Hp Hg) as (h' & E & _).
      rewrite E. reflexivity.
  - rewrite (advance_refused h new_anchor new_seed Hg). cbn [fst snd].
    split; [|split; [|split]].
    + split; [|reflexivity]. intros _.
      unfold may_advance in Hg.
      destruct (Z_lt_dec (_anchor (state h)) new_anchor) as [Hlt|Hge]; [|left; lia].
      right. destruct (String.eqb_spec (mode (state h)) "A") as [Em|Em].
      * destruct new_seed as [ns|]; [|split; [exact Em|reflexivity]].
        contradiction Hg. split; [exact Hlt|discriminate].
      * contradiction Hg. split; [exact Hlt|]. intro E. contradiction.
    + reflexivity.
    + discriminate.
    + intros _ Hlt Hns. contradiction Hg. split; assumption.
Qed.

(** C3, as stated, fails: with a persistence path whose temporary file
    cannot be written, a Mode A state at anchor 0 that is given the larger
    anchor 1 and a seed does not return True; [advance] raises [OSError],
    with the anchor already 1. *)
Lemma advance_raises_when_save_fails :
  _anchor (state (Demo.heap FragmentValidatorClass 7 (Some "state.json"%string)
                            ["state.json.tmp"%string])) = 0
  /\ mode (state (Demo.heap FragmentValidatorClass 7 (Some "state.json"%string)
                            ["state.json.tmp"%string])) = "A"%string
  /\ fst (State.advance 1 (Some (Crypto.KDF Demo.seed None))
            (Demo.heap FragmentValidatorClass 7 (Some "state.json"%string)
                       ["state.json.tmp"%string]))
     = Raise OSError
  /\ _anchor (state (snd (State.advance 1 (Some (Crypto.KDF Demo.seed None))
                            (Demo.heap FragmentValidatorClass 7
                                       (Some "state.json"%string)
                                       ["state.json.tmp"%string]))))
     = 1.
Proof.
  split; [reflexivity|]. split; [reflexivity|].
  split; vm_compute; reflexivity.
Qed.

Lemma advance_contract_witness :
  fst (State.advance 1 (Some (Crypto.KDF Demo.seed None))
                     (Demo.heap FragmentValidatorClass 7 (Some "state.json"%string) []))
  = Ok true
  /\ fst (State.advance 1 (Some (Crypto.KDF Demo.seed None))
            (Demo.heap FragmentValidatorClass 7 (Some "state.json"%string)
                       ["state.json.tmp"%string]))
     = Raise OSError.
Proof.
  split.
  - apply (proj2 (proj2 (proj2 (advance_contract
             (Demo.heap FragmentValidatorClass 7 (Some "state.json"%string) [])
             1 (Some (Crypto.KDF Demo.seed None)))))).
    + split; cbn; [intros _; discriminate|intro E; discriminate E].
    + cbn. lia.
    + intros _. discriminate.
    + cbn. split; reflexivity.
  - apply (proj2 (proj2 (proj2 (advance_contract
             (Demo.heap FragmentValidatorClass 7 (Some "state.json"%string)
                        ["state.json.tmp"%string])
             1 (Some (Crypto.KDF Demo.seed None)))))).
    + split; cbn; [intros _; discriminate|intro E; discriminate E].
    + cbn. lia.
    + intros _. discriminate.
    + cbn. intros [E _]. discriminate E.
Defined.

Section CommitFacts.
Context {H : Hashlib}.

(** The state object [s'] continues [s]: same class, mode and persistence
    path, and an anchor that is not smaller. *)
Definition continues (s s' : ReceiverState) : Prop :=
  _anchor s <= _anchor s'
  /\ mode s' = mode s
  /\ state_cls s' = state_cls s
  /\ _persistence_path s' = _persistence_path s.

Lemma continues_refl (s : ReceiverState) : continues s s.
Proof. unfold continues. repeat split; lia. Qed.

Lemma continues_advanced (s : ReceiverState) (new_anchor : Z) (new_seed : option bytes) :
  may_advance s new_anchor new_seed ->
  continues s (advanced s new_anchor new_seed)
  /\ continues s (counted (advanced s new_anchor new_seed)).
Proof.
  intros [Hlt _]. unfold continues, counted, advanced. cbn.
  destruct (state_cls s); [|destruct (_rollback_counter s)]; cbn; repeat split; lia.
Qed.

Lemma advance_continues (h : Heap) (new_anchor : Z) (new_seed : option bytes) :
  continues (state h) (state (snd (State.advance new_anchor new_seed h))).
Proof.
  pose proof (advance_outcome h new_anchor new_seed) as Ho.
  destruct (fst (State.advance new_anchor new_seed h)) as [[|]|e].
  - destruct Ho as (Hg & -> & _). apply continues_advanced. exact Hg.
  - rewrite Ho. apply continues_refl.
  - destruct Ho as (Hg & ->). apply continues_advanced. exact Hg.
Qed.

Lemma validate_receiver_view (F payload : bytes) (prepared : bool) (h : Heap) :
  state (snd (Validator.validate F payload prepared h)) = state h
  /\ fs_files (snd (Validator.validate F payload prepared h)) = fs_files h
  /\ erased (snd (Validator.validate F payload prepared h)) = erased h.
Proof.
  pose proof (read_only_validate F payload prepared h) as E.
  unfold receiver_view in E. inversion E as [[E1 E2 E3]].
  rewrite E1, E2, E3. split; [reflexivity|]. split; reflexivity.
Qed.

(** The seed [validate_and_commit] hands to [advance]. *)
Definition commit_seed (s : ReceiverState) (j : Z) : option bytes :=
  if (mode s =? "A")%string then
    match _seed s with
    | Some K => Some (State.derive (Z.to_nat (j + 1 - _anchor s)) K)
    | None => None
    end
  else None.

(** [validate_and_commit] in terms of [validate] and [advance]: when
    [validate] accepts at [j], the commit is [advance(j + 1, K_{j+1})] on the
    heap [validate] left. *)
Lemma validate_and_commit_unfold (F payload : bytes) (prepared : bool) (h : Heap) :
  Validator.validate_and_commit F payload prepared h
  = match Validator.validate F payload prepared h with
    | (Ok (ACCEPT, Some j), h1) =>
        match State.advance (j + 1) (commit_seed (state h) j) h1 with
        | (Ok true, h2) => (Ok (ACCEPT, Some j), h2)
        | (Ok false, h2) => (Ok (ERROR, None), h2)
        | (Raise e, h2) => (Raise e, h2)
        end
    | other => other
    end.
Proof.
  pose proof (validate_receiver_view F payload prepared h) as (Hs & _ & _).
  pose proof (validate_index_bounds F payload prepared h) as Hb.
  pose proof (validate_answer_correct F payload prepared h) as Ha.
  unfold Validator.validate_and_commit, bind.
  destruct (Validator.validate F payload prepared h) as [[[res [j|]]|e] h1];
    cbn [fst snd] in *; [| |reflexivity].
  - destruct (Hb res j eq_refl) as [-> Hj]. cbn [Validator.is_accept].
    unfold get_state, State.get_seed_for_index, bind, get_state, ret, commit_seed.
    cbv beta iota. rewrite Hs.
    destruct (mode (state h) =? "A")%string eqn:Em; cbv beta;
      rewrite ?Hs, ?Em; cbn [negb].
    + destruct (j + 1 <? _anchor (state h)) eqn:E; [apply Z.ltb_lt in E; lia|].
      destruct (_seed (state h)) as [K|] eqn:EK.
      * destruct (State.advance _ _ h1) as [[[|]|e] h2]; reflexivity.
      * exfalso. unfold validate_answer in Ha. rewrite Em, EK in Ha.
        destruct (negb _) in Ha; discriminate Ha.
    + destruct (State.advance _ _ h1) as [[[|]|e] h2]; reflexivity.
  - destruct res; reflexivity.
Qed.

Lemma verdict_accept (r : result (option Z)) (o : option Z) :
  verdict r = Ok (ACCEPT, o) -> exists j, o = Some j.
Proof.
  destruct r as [[j|]|e]; cbn; intro E; try discriminate E.
  apply Ok_inj in E. inversion E. exists j. reflexivity.
Qed.

(** [validate] never answers ACCEPT without an index. *)
Lemma validate_accept_index (F payload : bytes) (prepared : bool) (h : Heap)
  (o : option Z) :
  fst (Validator.validate F payload prepared h) = Ok (ACCEPT, o) -> exists j, o = Some j.
Proof.
  rewrite validate_answer_correct. unfold validate_answer. cbv zeta.
  destruct (negb _); [discriminate|].
  destruct (mode (state h) =? "A")%string.
  - destruct (_seed (state h)); [|discriminate].
    destruct (validator_cls (validator h)); apply verdict_accept.
  - destruct (evol_func (validator h)); [|discriminate]. apply verdict_accept.
Qed.

(** The answers of [validate_and_commit] and what each leaves behind:
    ACCEPT at [j] is [validate]'s, followed by a successful
    [advance(j + 1, K_{j+1})]; any other answer comes without an index and
    leaves the state object, the files and the erase log as they were. *)
Lemma validate_and_commit_outcome (F payload : bytes) (prepared : bool) (h : Heap)
  (res : ValidationResult) (o : option Z) :
  fst (Validator.validate_and_commit F payload prepared h) = Ok (res, o) ->
  match res with
  | ACCEPT =>
      exists j h1,
        o = Some j
        /\ Validator.validate F payload prepared h = (Ok (ACCEPT, Some j), h1)
        /\ State.advance (j + 1) (commit_seed (state h) j) h1
           = (Ok true, snd (Validator.validate_and_commit F payload prepared h))
  | _ =>
      o = None
      /\ receiver_view (snd (Validator.validate_and_commit F payload prepared h))
         = receiver_view h
  end.
Proof.
  pose proof (validate_receiver_view F payload prepared h) as (Hs & Hf & He).
  pose proof (validate_index_bounds F payload prepared h) as Hb.
  pose proof (validate_accept_index F payload prepared h) as Hi.
  assert (Hv : forall h1, state h1 = state h -> fs_files h1 = fs_files h ->
                          erased h1 = erased h -> receiver_view h1 = receiver_view h).
  { intros h1 E1 E2 E3. unfold receiver_view. rewrite E1, E2, E3. reflexivity. }
  rewrite validate_and_commit_unfold.
  destruct (Validator.validate F payload prepared h) as [[[res1 [j|]]|e] h1];
    cbn [fst snd] in *.
  - destruct (Hb res1 j eq_refl) as [-> Hj].
    pose proof (advance_outcome h1 (j + 1) (commit_seed (state h) j)) as Ho.
    destruct (State.advance (j + 1) (commit_seed (state h) j) h1) as [[[|]|e] h2] eqn:Ea;
      cbn [fst snd] in *; intro E; try discriminate E;
      apply Ok_inj in E; inversion E; subst res o.
    + exists j, h1. split; [reflexivity|]. split; [reflexivity|exact Ea].
    + split; [reflexivity|]. rewrite Ho. apply Hv; assumption.
  - destruct res1.
    + destruct (Hi None eq_refl) as [j Ej]. discriminate Ej.
    + cbn [fst snd]. intro E. apply Ok_inj in E. inversion E; subst res o.
      split; [reflexivity|]. apply Hv; assumption.
    + cbn [fst snd]. intro E. apply Ok_inj in E. inversion E; subst res o.
      split; [reflexivity|]. apply Hv; assumption.
  - destruct e; discriminate.
Qed.

Lemma validate_and_commit_continues (F payload : bytes) (prepared : bool) (h : Heap) :
  continues (state h) (state (snd (Validator.validate_and_commit F payload prepared h))).
Proof.
  pose proof (validate_receiver_view F payload prepared h) as (Hs & _ & _).
  rewrite validate_and_commit_unfold.
  destruct (Validator.validate F payload prepared h) as [[[res [j|]]|e] h1];
    cbn [fst snd] in *.
  - assert (Hc : continues (state h) (state h1)) by (rewrite Hs; apply continues_refl).
    destruct res; try exact Hc.
    pose proof (advance_continues h1 (j + 1) (commit_seed (state h) j)) as Hc'.
    rewrite Hs in Hc'.
    destruct (State.advance (j + 1) (commit_seed (state h) j) h1) as [[[|]|e] h2];
      exact Hc'.
  - rewrite <- Hs. destruct res; apply continues_refl.
  - rewrite Hs. apply continues_refl.
Qed.

End CommitFacts.

(** The fragment the demonstration's sender emits first. *)
Definition demo_fragment : bytes :=
  Eval vm_compute in
    match Fragment.build Demo.builder Demo.content false with
    | Ok F => F
    | Raise _ => []
    end.

(** X8.  [validate_and_commit] never moves the anchor back: whatever the
    fragment, the mode, the classes and the outcome (an answer or an
    exception), the anchor afterwards is at least the anchor before, and
    the mode, the class and the persistence path of the state object are
    the same. *)
Theorem validate_and_commit_anchor_monotone {H : Hashlib} (F payload : bytes)
  (prepared : bool) (h : Heap) :
  _anchor (state h)
  <= _anchor (state (snd (Validator.validate_and_commit F payload prepared h)))
  /\ mode (state (snd (Validator.validate_and_commit F payload prepared h)))
     = mode (state h)
  /\ state_cls (state (snd (Validator.validate_and_commit F payload prepared h)))
     = state_cls (state h)
  /\ _persistence_path (state (snd (Validator.validate_and_commit F payload prepared h)))
     = _persistence_path (state h).
Proof. apply validate_and_commit_continues. Qed.

(** X9.  When [validate_and_commit] answers ACCEPT it names an index [j] of
    the window, the one [validate] finds; the anchor is then [j + 1]; in
    Mode A the seed is the old one derived [j + 1 - anchor] times and the old
    seed has been erased; in Mode B seed and erase log are untouched. *)
Theorem validate_and_commit_accept {H : Hashlib} (F payload : bytes) (prepared : bool)
  (h : Heap) (o : option Z) :
  fst (Validator.validate_and_commit F payload prepared h) = Ok (ACCEPT, o) ->
  exists j,
    o = Some j
    /\ fst (Validator.validate F payload prepared h) = Ok (ACCEPT, Some j)
    /\ _anchor (state h) <= j <= _anchor (state h) + window_size (validator h)
    /\ _anchor (state (snd (Validator.validate_and_commit F payload prepared h))) = j + 1
    /\ (mode (state h) = "A"%string ->
        exists K,
          _seed (state h) = Some K
          /\ _seed (state (snd (Validator.validate_and_commit F payload prepared h)))
             = Some (State.derive (Z.to_nat (j + 1 - _anchor (state h))) K)
          /\ erased (snd (Validator.validate_and_commit F payload prepared h))
             = K :: erased h)
    /\ (mode (state h) <> "A"%string ->
        _seed (state (snd (Validator.validate_and_commit F payload prepared h)))
        = _seed (state h)
        /\ erased (snd (Validator.validate_and_commit F payload prepared h))
           = erased h).
Proof.
  intro E. apply validate_and_commit_outcome in E. destruct E as (j & h1 & -> & Ev & Ea).
  pose proof (validate_receiver_view F payload prepared h) as (Hs & _ & He).
  pose proof (validate_index_bounds F payload prepared h ACCEPT j) as Hb.
  rewrite Ev in Hs, He, Hb. cbn [fst snd] in Hs, He, Hb.
  destruct (Hb eq_refl) as [_ Hj].
  pose proof (advance_outcome h1 (j + 1) (commit_seed (state h) j)) as Ho.
  rewrite Ea in Ho. cbn [fst snd] in Ho. destruct Ho as (_ & Hst & Her).
  rewrite Hs, He in *.
  exists j. split; [reflexivity|]. split; [rewrite Ev; reflexivity|].
  split; [exact Hj|]. rewrite Hst.
  destruct (counted_fields (advanced (state h) (j + 1) (commit_seed (state h) j)))
    as (_ & _ & -> & -> & _).
  cbn [advanced _anchor _seed]. split; [reflexivity|].
  unfold commit_seed.
  destruct (String.eqb_spec (mode (state h)) "A") as [Em|Em].
  - split; [|intro Hn; contradiction].
    intros _. destruct Her as (K & EK & Her). exists K. rewrite EK.
    split; [reflexivity|]. split; [reflexivity|exact Her].
  - split; [intro Hn; contradiction|]. intros _. split; [reflexivity|exact Her].
Qed.

Lemma validate_and_commit_accept_witness :
  exists j,
    Some 0 = Some j
    /\ fst (Validator.validate demo_fragment Demo.content false
              (Demo.heap FragmentValidatorClass 3 None []))
       = Ok (ACCEPT, Some j)
    /\ 0 <= j <= 0 + 3
    /\ _anchor (state (snd (Validator.validate_and_commit demo_fragment Demo.content false
                              (Demo.heap FragmentValidatorClass 3 None [])))) = j + 1
    /\ (("A" = "A")%string ->
        exists K,
          Some Demo.seed = Some K
          /\ _seed (state (snd (Validator.validate_and_commit demo_fragment Demo.content
                                  false (Demo.heap FragmentValidatorClass 3 None []))))
             = Some (State.derive (Z.to_nat (j + 1 - 0)) K)
          /\ erased (snd (Validator.validate_and_commit demo_fragment Demo.content false
                            (Demo.heap FragmentValidatorClass 3 None [])))
             = [K])
    /\ (("A" <> "A")%string ->
        _seed (state (snd (Validator.validate_and_commit demo_fragment Demo.content false
                             (Demo.heap FragmentValidatorClass 3 None []))))
        = Some Demo.seed
        /\ erased (snd (Validator.validate_and_commit demo_fragment Demo.content false
                          (Demo.heap FragmentValidatorClass 3 None [])))
           = []).
Proof.
  apply (validate_and_commit_accept demo_fragment Demo.content false
           (Demo.heap FragmentValidatorClass 3 None []) (Some 0)).
  vm_compute. reflexivity.
Defined.

(** X10.  When [validate_and_commit] answers REJECT or ERROR it names no
    index and has left the state object (anchor and seed included), the
    files and the erase log as they were. *)
Theorem validate_and_commit_refusal {H : Hashlib} (F payload : bytes) (prepared : bool)
  (h : Heap) (res : ValidationResult) (o : option Z) :
  fst (Validator.validate_and_commit F payload prepared h) = Ok (res, o) ->
  res <> ACCEPT ->
  o = None
  /\ state (snd (Validator.validate_and_commit F payload prepared h)) = state h
  /\ fs_files (snd (Validator.validate_and_commit F payload prepared h)) = fs_files h
  /\ erased (snd (Validator.validate_and_commit F payload prepared h)) = erased h.
Proof.
  intros E Hres. apply validate_and_commit_outcome in E.
  assert (Hv : o = None
               /\ receiver_view (snd (Validator.validate_and_commit F payload prepared h))
                  = receiver_view h).
  { destruct res; [contradiction Hres; reflexivity|exact E|exact E]. }
  destruct Hv as [-> Hv]. unfold receiver_view in Hv. inversion Hv as [[E1 E2 E3]].
  rewrite E1, E2, E3. split; [reflexivity|]. split; [reflexivity|]. split; reflexivity.
Qed.

Lemma validate_and_commit_refusal_witness :
  @None Z = None
  /\ state (snd (Validator.validate_and_commit (repeat x00 32) Demo.content false
                   (Demo.heap ConstantTimeValidatorClass 3 None [])))
     = state (Demo.heap ConstantTimeValidatorClass 3 None [])
  /\ fs_files (snd (Validator.validate_and_commit (repeat x00 32) Demo.content false
                      (Demo.heap ConstantTimeValidatorClass 3 None [])))
     = fs_files (Demo.heap ConstantTimeValidatorClass 3 None [])
  /\ erased (snd (Validator.validate_and_commit (repeat x00 32) Demo.content false
                    (Demo.heap ConstantTimeValidatorClass 3 None [])))
     = erased (Demo.heap ConstantTimeValidatorClass 3 None []).
Proof.
  apply (validate_and_commit_refusal (repeat x00 32) Demo.content false
           (Demo.heap ConstantTimeValidatorClass 3 None []) REJECT None).
  - vm_compute. reflexivity.
  - discriminate.
Defined.

(** ** validator.py: what [validate] changes of the validator *)

Section ValidatorSettings.
Context {H : Hashlib}.

(** Everything of the world around the state object but the statistics and
    the call counters: the validator's configuration and which paths fail. *)
Definition surroundings (h : Heap)
  : validator_class * bytes * Z * Z * bool * option (Z -> result bytes)
    * list string * list string :=
  (validator_cls (validator h), domain (validator h), window_size (validator h),
   fragment_length (validator h), use_keyed_mode (validator h), evol_func (validator h),
   fs_unwritable h, fs_unreplaceable h).

Lemma surroundings_set_stats (st : Stats) : preserves surroundings (Validator.set_stats st).
Proof. intro h. reflexivity. Qed.

Lemma surroundings_count_validation : preserves surroundings Validator.count_validation.
Proof. intro h. reflexivity. Qed.

Lemma surroundings_count_accept : preserves surroundings Validator.count_accept.
Proof. intro h. reflexivity. Qed.

Lemma surroundings_count_reject : preserves surroundings Validator.count_reject.
Proof. intro h. reflexivity. Qed.

Lemma surroundings_count_comparison : preserves surroundings Validator.count_comparison.
Proof. intro h. reflexivity. Qed.

Lemma surroundings_call_compute_fragment (D C Zi : bytes) (l : Z) (key : option bytes) :
  preserves surroundings (Validator.call_compute_fragment D C Zi l key).
Proof. intro h. reflexivity. Qed.

Lemma surroundings_call_KDF (seed : bytes) : preserves surroundings (Validator.call_KDF seed).
Proof. intro h. reflexivity. Qed.

Lemma surroundings_call_constant_time_equal (a b : bytes) :
  preserves surroundings (Validator.call_constant_time_equal a b).
Proof. intro h. reflexivity. Qed.

Ltac surround :=
  repeat first
    [ apply surroundings_count_validation
    | apply surroundings_count_accept
    | apply surroundings_count_reject
    | apply surroundings_count_comparison
    | apply surroundings_call_compute_fragment
    | apply surroundings_call_KDF
    | apply surroundings_call_constant_time_equal
    | assumption
    | apply preserves_ret
    | apply preserves_raise
    | apply preserves_lift
    | apply preserves_get_state
    | apply preserves_get_validator
    | apply preserves_bind; [|intro]
    | progress cbv zeta
    | match goal with
      | |- preserves _ (if ?b then _ else _) => destruct b
      | |- preserves _ (match ?x with _ => _ end) => destruct x
      end ].

Lemma surroundings_mode_a_loop (F C : bytes) (window : list Z) (seed : bytes) :
  preserves surroundings (Validator.mode_a_loop F C window seed).
Proof.
  revert seed. induction window as [|j window IH]; intro seed;
    cbn [Validator.mode_a_loop]; surround; apply IH.
Qed.

Lemma surroundings_mode_b_loop (evol : Z -> result bytes) (F C : bytes) (window : list Z) :
  preserves surroundings (Validator.mode_b_loop evol F C window).
Proof.
  induction window as [|j window IH]; cbn [Validator.mode_b_loop]; surround.
Qed.

Lemma surroundings_ct_mode_a_loop (F C : bytes) (window : list Z) (seed : bytes)
  (matched : option Z) :
  preserves surroundings (Validator.ct_mode_a_loop F C window seed matched).
Proof.
  revert seed matched. induction window as [|j window IH]; intros seed matched;
    cbn [Validator.ct_mode_a_loop]; surround; apply IH.
Qed.

Lemma surroundings_validate (F payload : bytes) (prepared : bool) :
  preserves surroundings (Validator.validate F payload prepared).
Proof.
  unfold Validator.validate, Validator._validate_mode_a, Validator._validate_mode_b,
    Validator.FragmentValidator__validate_mode_a,
    Validator.ConstantTimeValidator__validate_mode_a,
    Validator.FragmentValidator__validate_mode_b, State.anchor, State.seed.
  surround;
    first [apply surroundings_mode_a_loop | apply surroundings_mode_b_loop
          | apply surroundings_ct_mode_a_loop ].
Qed.

End ValidatorSettings.

(** ** A round of the protocol *)

Section Session.
Context {H : Hashlib}.

(** One [advance()] of a Mode A builder. *)
Lemma advance_mode_a (token_bytes : nat -> bytes) (b : Fragment.FragmentBuilder)
  (K : bytes) :
  Fragment.mode b = "A"%string ->
  Fragment._seed b = Some K ->
  exists b', Fragment.advance token_bytes b = Ok b'
             /\ Fragment.mode b' = "A"%string
             /\ Fragment._seed b' = Some (Crypto.KDF K None)
             /\ Fragment._index b' = Fragment._index b + 1
             /\ Fragment.domain b' = Fragment.domain b
             /\ Fragment.fragment_length b' = Fragment.fragment_length b
             /\ Fragment.use_keyed_mode b' = Fragment.use_keyed_mode b.
Proof.
  intros Hm Hs. unfold Fragment.advance. rewrite Hm, Hs. cbn.
  eexists. split; [reflexivity|]. cbn. repeat split. exact Hm.
Qed.

(** A round from an aligned pair: the sender builds, the receiver commits,
    the sender advances. *)
Lemma round_keeps_aligned (b : Fragment.FragmentBuilder) (h : Heap) (K payload : bytes)
  (token_bytes : nat -> bytes) :
  aligned b h K ->
  (state_cls (state h) = SecureElementStateClass -> _rollback_counter (state h) <> None) ->
  persistence_works h ->
  fragment_parameters_ok (domain (validator h)) (fragment_length (validator h))
                         (use_keyed_mode (validator h)) (sha256 payload) ->
  Z.of_nat (length K) <= 2 ^ 32 - 1 ->
  0 <= window_size (validator h) ->
  exists F b' h',
    Fragment.build b payload false = Ok F
    /\ Validator.validate_and_commit F payload false h
       = (Ok (ACCEPT, Some (_anchor (state h))), h')
    /\ Fragment.advance token_bytes b = Ok b'
    /\ aligned b' h' (Crypto.KDF K None)
    /\ (state_cls (state h') = SecureElementStateClass ->
        _rollback_counter (state h') <> None)
    /\ persistence_works h'
    /\ surroundings h' = surroundings h
    /\ erased h' = K :: erased h.
Proof.
  intros [Hsm Hrm Hss Hrs Hidx Hdom Hlen Hkey] Hcnt Hpw Hp HK Hnu.
  destruct (expected_fragment_returns _ _ _ _ K Hp HK) as [F [EF LF]].
  destruct (validate_within_window h K payload F 0 Hrm Hrs Hp HK EF Hnu)
    as (j & Hj & Ev).
  assert (j = _anchor (state h)) by lia. subst j.
  destruct (advance_mode_a token_bytes b K Hsm Hss)
    as (b' & Eb & Hm' & Hs' & Hi' & Hd' & Hl' & Hk').
  pose proof (validate_receiver_view F payload false h) as (Hvs & _ & Hve).
  pose proof (surroundings_validate F payload false h) as Hvo.
  pose proof (validate_and_commit_unfold F payload false h) as Eu.
  destruct (Validator.validate F payload false h) as [r h1]. cbn [fst snd] in *.
  subst r.
  assert (Eseed : commit_seed (state h) (_anchor (state h)) = Some (Crypto.KDF K None)).
  { unfold commit_seed. rewrite Hrm, Hrs. cbn [String.eqb Ascii.eqb Bool.eqb].
    replace (_anchor (state h) + 1 - _anchor (state h)) with 1 by lia. reflexivity. }
  rewrite Eseed in Eu.
  assert (Hpw1 : persistence_works h1).
  { unfold persistence_works in *. unfold surroundings in Hvo.
    inversion Hvo as [[V1 V2 V3 V4 V5 V6 V7 V8]]. rewrite Hvs, V7, V8. exact Hpw. }
  destruct (advance_done h1 (_anchor (state h) + 1) (Some (Crypto.KDF K None)))
    as (h' & Ea & Ha' & Hmode' & HA & _).
  { rewrite Hvs. split; [intros _; rewrite Hrs; discriminate|exact Hcnt]. }
  { exact Hpw1. }
  { rewrite Hvs. split; [lia|intros _; discriminate]. }
  pose proof (advance_outcome h1 (_anchor (state h) + 1) (Some (Crypto.KDF K None))) as Ho.
  pose proof (advance_outside (_anchor (state h) + 1) (Some (Crypto.KDF K None)) h1) as Hout.
  rewrite Ea in Eu, Ho, Hout. cbn [fst snd] in Ho, Hout.
  destruct Ho as (_ & Hst & _).
  unfold outside_receiver in Hout. inversion Hout as [[O1 O2 O3 O4]].
  unfold surroundings in Hvo. inversion Hvo as [[V1 V2 V3 V4 V5 V6 V7 V8]].
  rewrite Hvs in *.
  destruct (HA Hrm) as (Hseed' & old & Eold & Her).
  rewrite Hrs in Eold. apply (f_equal (fun o => match o with Some x => x | None => K end))
    in Eold. cbn in Eold. subst old.
  exists F, b', h'.
  split; [rewrite (build_mode_a b payload K Hsm Hss), Hdom, Hlen, Hkey; exact EF|].
  split; [exact Eu|]. split; [exact Eb|].
  split; [|split; [|split; [|split]]].
  - constructor.
    + exact Hm'.
    + rewrite Hmode'. exact Hrm.
    + exact Hs'.
    + exact Hseed'.
    + rewrite Hi', Ha', Hidx. reflexivity.
    + rewrite Hd', O1, V2. exact Hdom.
    + rewrite Hl', O1, V4. exact Hlen.
    + rewrite Hk', O1, V5. exact Hkey.
  - rewrite Hst.
    destruct (counted_fields (advanced (state h) (_anchor (state h) + 1)
                                       (Some (Crypto.KDF K None))))
      as (-> & _ & _ & _ & _ & Hc).
    intro Ecls. apply Hc. apply Hcnt. exact Ecls.
  - unfold persistence_works in *.
    assert (Ep : _persistence_path (state h') = _persistence_path (state h)).
    { rewrite Hst.
      destruct (counted_fields (advanced (state h) (_anchor (state h) + 1)
                                         (Some (Crypto.KDF K None))))
        as (_ & _ & _ & _ & -> & _).
      reflexivity. }
    rewrite Ep, O3, O4, V7, V8. exact Hpw.
  - unfold surroundings. rewrite O1, O3, O4, V1, V2, V3, V4, V5, V6, V7, V8. reflexivity.
  - rewrite Her, Hve. reflexivity.
Qed.

End Session.

(** X11.  A round of the protocol keeps sender and receiver aligned.  From
    a pair aligned in Mode A on the seed [K] (with a fragment length of at
    least 256 bits, a window width of at least 0, a domain and a seed the
    encoder accepts, and a persistence step that meets no I/O error):
    [build] returns a fragment, [validate_and_commit] answers ACCEPT at the
    anchor, the sender's [advance] returns, and the pair is aligned again,
    on [KDF(K)], with the old seed erased on the receiver; the conditions
    hold again, so the next round goes the same way. *)
Theorem round_keeps_pair_aligned {H : Hashlib} (b : Fragment.FragmentBuilder) (h : Heap)
  (K payload : bytes) (token_bytes : nat -> bytes) :
  aligned b h K ->
  (state_cls (state h) = SecureElementStateClass -> _rollback_counter (state h) <> None) ->
  persistence_works h ->
  256 <= fragment_length (validator h) ->
  (use_keyed_mode (validator h) = true -> fragment_length (validator h) / 8 <= 2 ^ 32) ->
  Z.of_nat (length (domain (validator h))) <= 2 ^ 32 - 1 ->
  Z.of_nat (length K) <= 2 ^ 32 - 1 ->
  0 <= window_size (validator h) ->
  exists F b' h',
    Fragment.build b payload false = Ok F
    /\ Validator.validate_and_commit F payload false h
       = (Ok (ACCEPT, Some (_anchor (state h))), h')
    /\ Fragment.advance token_bytes b = Ok b'
    /\ aligned b' h' (Crypto.KDF K None)
    /\ erased h' = K :: erased h
    /\ (state_cls (state h') = SecureElementStateClass ->
        _rollback_counter (state h') <> None)
    /\ persistence_works h'
    /\ 256 <= fragment_length (validator h')
    /\ (use_keyed_mode (validator h') = true ->
        fragment_length (validator h') / 8 <= 2 ^ 32)
    /\ Z.of_nat (length (domain (validator h'))) <= 2 ^ 32 - 1
    /\ Z.of_nat (length (Crypto.KDF K None)) <= 2 ^ 32 - 1
    /\ 0 <= window_size (validator h').
Proof.
  intros Hal Hcnt Hpw Hl Hfit HD HK Hnu.
  assert (Hp : fragment_parameters_ok (domain (validator h)) (fragment_length (validator h))
                 (use_keyed_mode (validator h)) (sha256 payload)).
  { repeat split; try assumption. rewrite sha256_digest_size. cbn. lia. }
  destruct (round_keeps_aligned b h K payload token_bytes Hal Hcnt Hpw Hp HK Hnu)
    as (F & b' & h' & EF & Ev & Eb & Hal' & Hcnt' & Hpw' & Hsur & Her).
  unfold surroundings in Hsur. inversion Hsur as [[V1 V2 V3 V4 V5 V6 V7 V8]].
  exists F, b', h'.
  split; [exact EF|]. split; [exact Ev|]. split; [exact Eb|]. split; [exact Hal'|].
  split; [exact Her|]. split; [exact Hcnt'|]. split; [exact Hpw'|].
  rewrite V2, V3, V4, V5. split; [exact Hl|]. split; [exact Hfit|]. split; [exact HD|].
  split; [|exact Hnu]. rewrite KDF_length. cbn. lia.
Qed.

Lemma round_keeps_pair_aligned_witness :
  exists F b' h',
    Fragment.build Demo.builder Demo.content false = Ok F
    /\ Validator.validate_and_commit F Demo.content false
         (Demo.heap ConstantTimeValidatorClass 3 (Some "state.json"%string) [])
       = (Ok (ACCEPT, Some 0), h')
    /\ Fragment.advance (fun n => repeat xff n) Demo.builder = Ok b'
    /\ aligned b' h' (Crypto.KDF Demo.seed None)
    /\ erased h' = [Demo.seed]
    /\ (state_cls (state h') = SecureElementStateClass ->
        _rollback_counter (state h') <> None)
    /\ persistence_works h'
    /\ 256 <= fragment_length (validator h')
    /\ (use_keyed_mode (validator h') = true ->
        fragment_length (validator h') / 8 <= 2 ^ 32)
    /\ Z.of_nat (length (domain (validator h'))) <= 2 ^ 32 - 1
    /\ Z.of_nat (length (Crypto.KDF Demo.seed None)) <= 2 ^ 32 - 1
    /\ 0 <= window_size (validator h').
Proof.
  apply (round_keeps_pair_aligned Demo.builder
           (Demo.heap ConstantTimeValidatorClass 3 (Some "state.json"%string) [])
           Demo.seed Demo.content (fun n => repeat xff n)).
  - apply demo_aligned.
  - intro E. discriminate E.
  - cbn. split; reflexivity.
  - cbn. lia.
  - intros _. cbn. lia.
  - cbn. lia.
  - cbn. lia.
  - cbn. lia.
Defined.

(** ** state.py: persistence *)

Lemma hex_digits_of_byte (x : byte) :
  is_space (hex_digit (Z_of_byte x / 16)) = false
  /\ hex_value (hex_digit (Z_of_byte x / 16)) = Some (Z_of_byte x / 16)
  /\ hex_value (hex_digit (Z_of_byte x mod 16)) = Some (Z_of_byte x mod 16)
  /\ byte_of_Z (16 * (Z_of_byte x / 16) + Z_of_byte x mod 16) = x.
Proof.
  destruct x; vm_compute; (split; [reflexivity|]); (split; [reflexivity|]);
    split; reflexivity.
Qed.

(** [bytes.fromhex(b.hex()) == b] *)
Lemma fromhex_hex (b : bytes) : fromhex (hex b) = Ok b.
Proof.
  induction b as [|x b IH]; [reflexivity|].
  destruct (hex_digits_of_byte x) as (Hs & Hhi & Hlo & Hx).
  cbn [hex fromhex]. rewrite Hs, Hhi, Hlo, IH. cbn [rbind]. rewrite Hx. reflexivity.
Qed.

Lemma length_append (a b : string) :
  String.length (a ++ b) = (String.length a + String.length b)%nat.
Proof. induction a as [|c a IH]; cbn; [reflexivity|]. rewrite IH. reflexivity. Qed.

Lemma temp_path_differs (path : string) :
  (State.temp_path path =? path)%string = false
  /\ (path =? State.temp_path path)%string = false.
Proof.
  assert (Hne : State.temp_path path <> path).
  { intro E. apply (f_equal String.length) in E. unfold State.temp_path in E.
    rewrite length_append in E. cbn in E. lia. }
  split; apply String.eqb_neq; [exact Hne|]. intro E. apply Hne. symmetry. exact E.
Qed.

Lemma fs_lookup_cons (files : list (string * file)) (p q : string) (f : file) :
  fs_lookup ((p, f) :: files) q = if (p =? q)%string then Some f else fs_lookup files q.
Proof. unfold fs_lookup. cbn. destruct (p =? q)%string; reflexivity. Qed.

Lemma fs_lookup_delete (files : list (string * file)) (p q : string) :
  fs_lookup (fs_delete files p) q = if (p =? q)%string then None else fs_lookup files q.
Proof.
  unfold fs_lookup, fs_delete. induction files as [|[k f] files IH]; cbn.
  - destruct (p =? q)%string; reflexivity.
  - destruct (String.eqb_spec k p) as [->|Hkp]; cbn.
    + rewrite IH. destruct (String.eqb_spec p q) as [->|Hpq]; reflexivity.
    + destruct (String.eqb_spec k q) as [->|Hkq].
      * destruct (String.eqb_spec p q) as [->|Hpq]; [contradiction Hkp|]; reflexivity.
      * exact IH.
Qed.

Section Persistence.
Context {H : Hashlib}.

(** The rollback counter [_save_state] writes: none for a [ReceiverState]. *)
Definition persisted_counter (s : ReceiverState) : option Z :=
  match state_cls s with
  | ReceiverStateClass => None
  | SecureElementStateClass => _rollback_counter s
  end.

(** The files after a blob has been written to the temporary path and
    renamed onto [path]. *)
Lemma written_and_renamed (files : list (string * file)) (path q : string) (b : Blob) :
  fs_lookup ((path, Json b)
               :: fs_delete (fs_delete ((State.temp_path path, Json b)
                                          :: fs_delete files (State.temp_path path))
                                       (State.temp_path path)) path) q
  = if (path =? q)%string then Some (Json b)
    else if (State.temp_path path =? q)%string then None
    else fs_lookup files q.
Proof.
  rewrite fs_lookup_cons. destruct (path =? q)%string eqn:Epq; [reflexivity|].
  rewrite fs_lookup_delete, Epq, fs_lookup_delete.
  destruct (State.temp_path path =? q)%string eqn:Etq; [reflexivity|].
  rewrite fs_lookup_cons, Etq, fs_lookup_delete, Etq. reflexivity.
Qed.

(** [_save_state] with a persistence path, by its outcome.  When it
    returns, the path holds the blob of the current state and the temporary
    file is gone.  When it raises, the fault is an [OSError] (or, for a
    [SecureElementState] without counter, an [AttributeError]) and the path
    holds what it held; [ReceiverState] has then removed the temporary
    file.  No other file is touched either way. *)
Lemma save_state_outcome (h : Heap) (c : ascii) (tl : string) :
  _persistence_path (state h) = Some (String c tl) ->
  let path := String c tl in
  let h' := snd (State._save_state h) in
  match fst (State._save_state h) with
  | Ok _ =>
      (state_cls (state h) = SecureElementStateClass -> _rollback_counter (state h) <> None)
      /\ forall q, fs_lookup (fs_files h') q
                   = if (path =? q)%string
                     then Some (Json (State.state_blob (state h)
                                                       (persisted_counter (state h))))
                     else if (State.temp_path path =? q)%string then None
                     else fs_lookup (fs_files h) q
  | Raise e =>
      (e = OSError \/ (e = AttributeError /\ state_cls (state h) = SecureElementStateClass))
      /\ (forall q, (State.temp_path path =? q)%string = false ->
                    fs_lookup (fs_files h') q = fs_lookup (fs_files h) q)
      /\ (state_cls (state h) = ReceiverStateClass ->
          fs_lookup (fs_files h') (State.temp_path path) = None)
  end.
Proof.
  intros Ep path h'. subst h'.
  unfold State._save_state, bind, get_state, persisted_counter.
  destruct (state_cls (state h)) eqn:Ecls.
  - unfold State.ReceiverState__save_state, bind, get_state. rewrite Ep.
    fold path. unfold try_except, bind, write_json.
    destruct (mem_string (State.temp_path path) (fs_unwritable h)) eqn:Ew.
    + (* the temporary file cannot be opened *)
      cbn [State.io_fault]. unfold os_path_exists, os_remove, raise, ret. cbn [fst snd].
      destruct (fs_lookup (fs_files h) (State.temp_path path)) eqn:Et; cbn [fst snd].
      * split; [left; reflexivity|]. cbn [fs_files with_files].
        split; [|intros _; rewrite fs_lookup_delete, String.eqb_refl; reflexivity].
        intros q Hq. rewrite fs_lookup_delete, Hq. reflexivity.
      * split; [left; reflexivity|]. split; [reflexivity|]. intros _. exact Et.
    + unfold os_replace. cbn [fs_files with_files fs_unreplaceable].
      rewrite fs_lookup_head.
      destruct (mem_string path (fs_unreplaceable h)) eqn:Er.
      * (* the rename fails: the handler removes the temporary file *)
        unfold os_path_exists, os_remove, raise, ret. cbn [fst snd fs_files with_files].
        rewrite fs_lookup_head. cbn [fst snd fs_files with_files].
        split; [left; reflexivity|].
        split; [|intros _; rewrite fs_lookup_delete, String.eqb_refl; reflexivity].
        intros q Hq. rewrite fs_lookup_delete, Hq, fs_lookup_cons, Hq, fs_lookup_delete, Hq.
        reflexivity.
      * cbn [fst snd fs_files with_files]. split; [discriminate|].
        intro q. apply written_and_renamed.
  - unfold State.SecureElementState__save_state, bind, get_state. rewrite Ep.
    fold path.
    destruct (_rollback_counter (state h)) as [counter|] eqn:Ec.
    + unfold bind, write_json.
      destruct (mem_string (State.temp_path path) (fs_unwritable h)) eqn:Ew.
      * cbn [fst snd]. split; [left; reflexivity|]. split; [reflexivity|discriminate].
      * unfold os_replace. cbn [fs_files with_files fs_unreplaceable].
        rewrite fs_lookup_head.
        destruct (mem_string path (fs_unreplaceable h)) eqn:Er.
        -- cbn [fst snd fs_files with_files]. split; [left; reflexivity|].
           split; [|discriminate].
           intros q Hq. rewrite fs_lookup_cons, Hq, fs_lookup_delete, Hq. reflexivity.
        -- cbn [fst snd fs_files with_files]. split; [discriminate|].
           intro q. apply written_and_renamed.
    + cbn [fst snd]. split; [right; split; reflexivity|]. split; [reflexivity|discriminate].
Qed.

(** [advance] and the persisted file. *)
Lemma ReceiverState_advance_files (h : Heap) (new_anchor : Z) (new_seed : option bytes)
  (c : ascii) (tl : string) :
  _persistence_path (state h) = Some (String c tl) ->
  let path := String c tl in
  let h' := snd (State.ReceiverState_advance new_anchor new_seed h) in
  match fst (State.ReceiverState_advance new_anchor new_seed h) with
  | Ok true =>
      (state_cls (state h) = SecureElementStateClass -> _rollback_counter (state h) <> None)
      /\ forall q, fs_lookup (fs_files h') q
                   = if (path =? q)%string
                     then Some (Json (State.state_blob
                                        (advanced (state h) new_anchor new_seed)
                                        (persisted_counter (state h))))
                     else if (State.temp_path path =? q)%string then None
                     else fs_lookup (fs_files h) q
  | Ok false => h' = h
  | Raise _ =>
      forall q, (State.temp_path path =? q)%string = false ->
                fs_lookup (fs_files h') q = fs_lookup (fs_files h) q
  end.
Proof.
  intros Ep path h'. subst h'.
  destruct (may_advance_dec (state h) new_anchor new_seed) as [Hg|Hg];
    [|rewrite (ReceiverState_advance_refused h new_anchor new_seed Hg); reflexivity].
  rewrite (ReceiverState_advance_unfold h new_anchor new_seed Hg).
  assert (Hsave : forall h2,
             state h2 = advanced (state h) new_anchor new_seed ->
             fs_files h2 = fs_files h ->
             match fst (persist_and_return (state h) h2) with
             | Ok true =>
                 (state_cls (state h) = SecureElementStateClass ->
                  _rollback_counter (state h) <> None)
                 /\ forall q, fs_lookup (fs_files (snd (persist_and_return (state h) h2))) q
                              = if (path =? q)%string
                                then Some (Json (State.state_blob
                                                   (advanced (state h) new_anchor new_seed)
                                                   (persisted_counter (state h))))
                                else if (State.temp_path path =? q)%string then None
                                else fs_lookup (fs_files h) q
             | Ok false => snd (persist_and_return (state h) h2) = h
             | Raise _ =>
                 forall q, (State.temp_path path =? q)%string = false ->
                           fs_lookup (fs_files (snd (persist_and_return (state h) h2))) q
                           = fs_lookup (fs_files h) q
             end).
  { intros h2 Hs2 Hf2.
    assert (Ep2 : _persistence_path (state h2) = Some (String c tl))
      by (rewrite Hs2; exact Ep).
    pose proof (save_state_outcome h2 c tl Ep2) as Ho. cbv zeta in Ho. fold path in Ho.
    unfold persist_and_return, bind. rewrite Ep. cbn [truthy_path].
    destruct (State._save_state h2) as [[[]|e] h3]; cbn [fst snd] in *.
    - rewrite Hs2, Hf2 in Ho. exact Ho.
    - destruct Ho as (_ & Ho & _). rewrite Hf2 in Ho. exact Ho. }
  destruct (mode (state h) =? "A")%string.
  - destruct (_seed (state h)) as [old|].
    + apply Hsave; reflexivity.
    + cbn [fst snd]. intros q _. reflexivity.
  - apply Hsave; reflexivity.
Qed.

Lemma advance_files (h : Heap) (new_anchor : Z) (new_seed : option bytes)
  (c : ascii) (tl : string) :
  _persistence_path (state h) = Some (String c tl) ->
  let path := String c tl in
  let h' := snd (State.advance new_anchor new_seed h) in
  match fst (State.advance new_anchor new_seed h) with
  | Ok true =>
      (state_cls (state h) = SecureElementStateClass -> _rollback_counter (state h) <> None)
      /\ forall q, fs_lookup (fs_files h') q
                   = if (path =? q)%string
                     then Some (Json (State.state_blob
                                        (advanced (state h) new_anchor new_seed)
                                        (persisted_counter (state h))))
                     else if (State.temp_path path =? q)%string then None
                     else fs_lookup (fs_files h) q
  | Ok false => h' = h
  | Raise _ =>
      forall q, (State.temp_path path =? q)%string = false ->
                fs_lookup (fs_files h') q = fs_lookup (fs_files h) q
  end.
Proof.
  intros Ep path h'. subst h'.
  pose proof (ReceiverState_advance_files h new_anchor new_seed c tl Ep) as Hr.
  cbv zeta in Hr. fold path in Hr.
  pose proof (advance_outcome h new_anchor new_seed) as Ho.
  unfold State.advance, bind, get_state in *.
  destruct (state_cls (state h)) eqn:Ecls.
  - destruct (State.ReceiverState_advance new_anchor new_seed h) as [[[|]|e] h1];
      cbn [fst snd] in *; exact Hr.
  - unfold State.SecureElementState_advance, bind in *.
    destruct (State.ReceiverState_advance new_anchor new_seed h) as [[[|]|e] h1] eqn:Er;
      cbn [fst snd] in *; [|exact Hr|exact Hr].
    unfold get_state, State.set_rollback_counter, ret in *.
    pose proof (ReceiverState_advance_passed h new_anchor new_seed) as Hp.
    rewrite Er in Hp. cbn [fst snd] in Hp.
    destruct Hr as [Hc Hr].
    destruct (_rollback_counter (state h1)) as [counter|] eqn:Ec; cbn [fst snd] in *.
    + split; [exact Hc|exact Hr].
    + exfalso. destruct Ho as [Hg _]. destruct (Hp Hg) as (Hs & _).
      rewrite Hs in Ec. cbn [advanced _rollback_counter] in Ec.
      apply (Hc eq_refl). exact Ec.
Qed.

End Persistence.

(** X12.  [advance] never leaves a half-written state file.  With a
    persistence path: when [advance] answers True the file holds the new
    state (mode, new anchor, version 1, in Mode A the hexadecimal text of a
    non-empty new seed, and for a [SecureElementState] its rollback counter
    as it was before the call) and the temporary file is gone; when it
    answers False no file has changed; when it raises, the file holds what
    it held before the call. *)
Theorem advance_persists_atomically {H : Hashlib} (h : Heap) (new_anchor : Z)
  (new_seed : option bytes) (c : ascii) (tl : string) :
  _persistence_path (state h) = Some (String c tl) ->
  (fst (State.advance new_anchor new_seed h) = Ok true ->
   exists b,
     fs_lookup (fs_files (snd (State.advance new_anchor new_seed h))) (String c tl)
     = Some (Json b)
     /\ blob_mode b = Some (mode (state h))
     /\ blob_anchor b = Some new_anchor
     /\ blob_version b = Some 1
     /\ blob_seed b = (if (mode (state h) =? "A")%string then
                         match new_seed with
                         | Some (x :: rest) => Some (hex (x :: rest))
                         | _ => None
                         end
                       else None)
     /\ blob_rollback_counter b = persisted_counter (state h)
     /\ fs_lookup (fs_files (snd (State.advance new_anchor new_seed h)))
                  (State.temp_path (String c tl)) = None)
  /\ (fst (State.advance new_anchor new_seed h) = Ok false ->
      fs_files (snd (State.advance new_anchor new_seed h)) = fs_files h)
  /\ (forall e, fst (State.advance new_anchor new_seed h) = Raise e ->
      fs_lookup (fs_files (snd (State.advance new_anchor new_seed h))) (String c tl)
      = fs_lookup (fs_files h) (String c tl)).
Proof.
  intro Ep. pose proof (advance_files h new_anchor new_seed c tl Ep) as Hf.
  cbv zeta in Hf.
  destruct (temp_path_differs (String c tl)) as [Ht1 Ht2].
  destruct (fst (State.advance new_anchor new_seed h)) as [[|]|e];
    (split; [intro E|split; [intro E|intros e' E]]); try discriminate E.
  - destruct Hf as [_ Hf].
    exists (State.state_blob (advanced (state h) new_anchor new_seed)
                             (persisted_counter (state h))).
    split; [rewrite Hf, String.eqb_refl; reflexivity|].
    split; [reflexivity|]. split; [reflexivity|]. split; [reflexivity|].
    split; [|split; [reflexivity|]].
    + unfold State.state_blob. cbn [blob_seed advanced mode _seed].
      destruct (mode (state h) =? "A")%string; reflexivity.
    + rewrite Hf, Ht2, String.eqb_refl. reflexivity.
  - rewrite Hf. reflexivity.
  - apply Hf. exact Ht1.
Qed.

(** [state = ReceiverState.mode_a(seed, "state.json")] beside a validator. *)
Definition demo_persistent_heap : Heap :=
  Demo.heap FragmentValidatorClass 7 (Some "state.json"%string) [].

Lemma advance_persists_atomically_witness :
  (fst (State.advance 1 (Some (Crypto.KDF Demo.seed None)) demo_persistent_heap) = Ok true ->
   exists b,
     fs_lookup (fs_files (snd (State.advance 1 (Some (Crypto.KDF Demo.seed None))
                                 demo_persistent_heap))) "state.json"
     = Some (Json b)
     /\ blob_mode b = Some (mode (state demo_persistent_heap))
     /\ blob_anchor b = Some 1
     /\ blob_version b = Some 1
     /\ blob_seed b = (if (mode (state demo_persistent_heap) =? "A")%string then
                         match Some (Crypto.KDF Demo.seed None) with
                         | Some (x :: rest) => Some (hex (x :: rest))
                         | _ => None
                         end
                       else None)
     /\ blob_rollback_counter b = persisted_counter (state demo_persistent_heap)
     /\ fs_lookup (fs_files (snd (State.advance 1 (Some (Crypto.KDF Demo.seed None))
                                    demo_persistent_heap)))
                  (State.temp_path "state.json") = None)
  /\ (fst (State.advance 1 (Some (Crypto.KDF Demo.seed None)) demo_persistent_heap)
      = Ok false ->
      fs_files (snd (State.advance 1 (Some (Crypto.KDF Demo.seed None))
                       demo_persistent_heap))
      = fs_files demo_persistent_heap)
  /\ (forall e,
        fst (State.advance 1 (Some (Crypto.KDF Demo.seed None)) demo_persistent_heap)
        = Raise e ->
        fs_lookup (fs_files (snd (State.advance 1 (Some (Crypto.KDF Demo.seed None))
                                    demo_persistent_heap))) "state.json"
        = fs_lookup (fs_files demo_persistent_heap) "state.json").
Proof.
  exact (advance_persists_atomically demo_persistent_heap 1
           (Some (Crypto.KDF Demo.seed None)) "s"%char "tate.json"%string eq_refl).
Defined.

Section Restart.
Context {H : Hashlib}.

(** [ReceiverState.mode_a(seed, path, initial_anchor)] over a state file
    whose anchor is not older than [initial_anchor] and whose seed text is
    the hexadecimal form of [K]. *)
Lemma mode_a_loads (h : Heap) (seed0 K : bytes) (a0 : Z) (c : ascii) (tl : string)
  (b : Blob) :
  fs_lookup (fs_files h) (String c tl) = Some (Json b) ->
  a0 <= State.default 0 (blob_anchor b) ->
  blob_seed b = Some (hex K) ->
  State.mode_a seed0 (Some (String c tl)) a0 h
  = (Ok tt,
     with_state h {| state_cls := ReceiverStateClass; mode := "A";
                     _anchor := State.default 0 (blob_anchor b); _seed := Some K;
                     _persistence_path := Some (String c tl);
                     _rollback_counter := None |}).
Proof.
  intros Ef Ha Es.
  unfold State.mode_a, State.ReceiverState___init__.
  change (upper "A") with "A"%string. cbv zeta.
  unfold bind, put_state, os_path_exists.
  cbn -[fs_lookup State._load_state]. rewrite Ef.
  unfold State._load_state, State.ReceiverState__load_state, bind, get_state,
    os_path_exists, try_except, read_json, State.set_anchor, State.apply_blob_seed.
  cbn -[fs_lookup Z.geb]. rewrite Ef. cbn -[fs_lookup Z.geb]. rewrite ?Ef.
  cbn -[fs_lookup Z.geb].
  destruct (State.default 0 (blob_anchor b) >=? a0) eqn:E; [|rewrite Z.geb_leb in E; apply Z.leb_gt in E; lia].
  unfold bind, get_state, lift, State.set_seed. cbn -[fs_lookup Z.geb fromhex hex].
  rewrite Es. rewrite fromhex_hex. reflexivity.
Qed.

End Restart.

(** X13.  The state a [ReceiverState] persists survives a restart.  After
    a Mode A [advance] with a persistence path has answered True with a
    non-empty new seed, constructing a new
    [ReceiverState.mode_a(seed0, path, a0)] over the files it left, with any
    constructor seed [seed0] and any [a0] not above the new anchor, returns
    a state with the advanced anchor and the advanced seed. *)
Theorem receiver_state_survives_restart {H : Hashlib} (h : Heap) (new_anchor : Z)
  (x : byte) (rest seed0 : bytes) (a0 : Z) (c : ascii) (tl : string) :
  mode (state h) = "A"%string ->
  _persistence_path (state h) = Some (String c tl) ->
  fst (State.advance new_anchor (Some (x :: rest)) h) = Ok true ->
  a0 <= new_anchor ->
  exists h'',
    State.mode_a seed0 (Some (String c tl)) a0
      (snd (State.advance new_anchor (Some (x :: rest)) h))
    = (Ok tt, h'')
    /\ mode (state h'') = "A"%string
    /\ _anchor (state h'') = new_anchor
    /\ _seed (state h'') = Some (x :: rest)
    /\ _persistence_path (state h'') = Some (String c tl)
    /\ fs_files h'' = fs_files (snd (State.advance new_anchor (Some (x :: rest)) h)).
Proof.
  intros Hm Ep Ea Ha.
  pose proof (advance_files h new_anchor (Some (x :: rest)) c tl Ep) as Hf.
  cbv zeta in Hf. rewrite Ea in Hf. destruct Hf as [_ Hf].
  specialize (Hf (String c tl)). rewrite String.eqb_refl in Hf.
  eexists. split.
  - apply (mode_a_loads _ seed0 (x :: rest) a0 c tl _ Hf).
    + cbn. exact Ha.
    + unfold State.state_blob. cbn [blob_seed advanced mode _seed]. rewrite Hm.
      reflexivity.
  - cbn. repeat split.
Qed.

Lemma receiver_state_survives_restart_witness :
  exists h'',
    State.mode_a (repeat x02 32) (Some "state.json"%string) 0
      (snd (State.advance 1 (Some (x07 :: repeat x09 31)) demo_persistent_heap))
    = (Ok tt, h'')
    /\ mode (state h'') = "A"%string
    /\ _anchor (state h'') = 1
    /\ _seed (state h'') = Some (x07 :: repeat x09 31)
    /\ _persistence_path (state h'') = Some "state.json"%string
    /\ fs_files h''
       = fs_files (snd (State.advance 1 (Some (x07 :: repeat x09 31))
                          demo_persistent_heap)).
Proof.
  apply (receiver_state_survives_restart demo_persistent_heap 1 x07 (repeat x09 31)
           (repeat x02 32) 0 "s"%char "tate.json"%string).
  - reflexivity.
  - reflexivity.
  - vm_compute. reflexivity.
  - lia.
Defined.

(** [SecureElementState(mode, anchor, seed, path)] on a secure element. *)
Definition demo_secure_heap : Heap :=
  snd (State.SecureElementState___init__ "A" 0 (Some Demo.seed) (Some "state.json"%string)
         (Demo.heap FragmentValidatorClass 7 None [])).

(** X14.  A [SecureElementState] persists a rollback counter that is one
    behind its own: [advance] saves the state before it increments the
    counter.  So after an [advance] with a persistence path has answered
    True, the file holds the counter of before the call, and [_load_state]
    on the same object takes its own latest file for a rollback: it raises
    [SecurityError] and applies nothing. *)
Theorem secure_element_counter_lags {H : Hashlib} (h : Heap) (new_anchor : Z)
  (new_seed : option bytes) (c : ascii) (tl : string) :
  state_cls (state h) = SecureElementStateClass ->
  _persistence_path (state h) = Some (String c tl) ->
  fst (State.advance new_anchor new_seed h) = Ok true ->
  exists counter b,
    _rollback_counter (state h) = Some counter
    /\ _rollback_counter (state (snd (State.advance new_anchor new_seed h)))
       = Some (counter + 1)
    /\ fs_lookup (fs_files (snd (State.advance new_anchor new_seed h))) (String c tl)
       = Some (Json b)
    /\ blob_rollback_counter b = Some counter
    /\ State._load_state (snd (State.advance new_anchor new_seed h))
       = (Raise SecurityError, snd (State.advance new_anchor new_seed h)).
Proof.
  intros Ecls Ep Ea.
  pose proof (advance_files h new_anchor new_seed c tl Ep) as Hf.
  pose proof (advance_outcome h new_anchor new_seed) as Ho.
  cbv zeta in Hf. rewrite Ea in Hf, Ho. destruct Hf as [Hc Hf]. destruct Ho as (_ & Hs & _).
  destruct (_rollback_counter (state h)) as [counter|] eqn:Ec;
    [|contradiction (Hc Ecls); reflexivity].
  specialize (Hf (String c tl)). rewrite String.eqb_refl in Hf.
  assert (Hs' : state (snd (State.advance new_anchor new_seed h))
                = {| state_cls := SecureElementStateClass; mode := mode (state h);
                     _anchor := new_anchor;
                     _seed := if (mode (state h) =? "A")%string then new_seed
                              else _seed (state h);
                     _persistence_path := Some (String c tl);
                     _rollback_counter := Some (counter + 1) |}).
  { rewrite Hs. unfold counted, advanced. cbn. rewrite Ecls, Ec, Ep. reflexivity. }
  exists counter, (State.state_blob (advanced (state h) new_anchor new_seed)
                                    (persisted_counter (state h))).
  split; [reflexivity|]. split; [rewrite Hs'; reflexivity|]. split; [exact Hf|].
  split; [unfold persisted_counter; rewrite Ecls; exact Ec|].
  set (h1 := snd (State.advance new_anchor new_seed h)) in *. clearbody h1.
  clear Hs. destruct h1 as [s1 v1 files1 uw1 ur1 tb1 er1 calls1].
  cbn [state fs_files] in Hs', Hf. subst s1.
  unfold State._load_state, State.SecureElementState__load_state, bind, get_state,
    os_path_exists, try_except, read_json.
  unfold persisted_counter in Hf. rewrite Ecls, Ec in Hf.
  cbn -[fs_lookup Z.ltb]. rewrite !Hf. cbn -[fs_lookup Z.ltb].
  rewrite ?Hf. cbn -[fs_lookup Z.ltb].
  destruct (counter <? counter + 1) eqn:E; [reflexivity|apply Z.ltb_ge in E; lia].
Qed.

Lemma secure_element_counter_lags_witness :
  exists counter b,
    _rollback_counter (state demo_secure_heap) = Some counter
    /\ _rollback_counter (state (snd (State.advance 1 (Some (Crypto.KDF Demo.seed None))
                                        demo_secure_heap)))
       = Some (counter + 1)
    /\ fs_lookup (fs_files (snd (State.advance 1 (Some (Crypto.KDF Demo.seed None))
                                   demo_secure_heap))) "state.json"
       = Some (Json b)
    /\ blob_rollback_counter b = Some counter
    /\ State._load_state (snd (State.advance 1 (Some (Crypto.KDF Demo.seed None))
                                 demo_secure_heap))
       = (Raise SecurityError,
          snd (State.advance 1 (Some (Crypto.KDF Demo.seed None)) demo_secure_heap)).
Proof.
  apply (secure_element_counter_lags demo_secure_heap 1 (Some (Crypto.KDF Demo.seed None))
           "s"%char "tate.json"%string).
  - reflexivity.
  - reflexivity.
  - vm_compute. reflexivity.
Defined.

(** X15.  A [SecureElementState] cannot be constructed over a state file:
    whenever the persistence path holds a JSON object, whatever its fields,
    [SecureElementState.__init__] raises [AttributeError], because
    [_load_state] runs inside [ReceiverState.__init__], before
    [_rollback_counter] exists.  (Only a Mode A construction without seed
    fails earlier, with [ValueError].) *)
Theorem secure_element_init_over_state_file {H : Hashlib} (h : Heap) (m : string)
  (anchor : Z) (seed : option bytes) (c : ascii) (tl : string) (b : Blob) :
  fs_lookup (fs_files h) (String c tl) = Some (Json b) ->
  (upper m = "A"%string -> seed <> None) ->
  fst (State.SecureElementState___init__ m anchor seed (Some (String c tl)) h)
  = Raise AttributeError.
Proof.
  intros Ef Hseed.
  unfold State.SecureElementState___init__, State.ReceiverState___init__. cbv zeta.
  assert (Hload : forall s, state_cls s = SecureElementStateClass ->
                            _persistence_path s = Some (String c tl) ->
                            _rollback_counter s = None ->
                            fst (State._load_state (with_state h s)) = Raise AttributeError).
  { intros [cls md an sd pp rc] E1 E2 E3. cbn in E1, E2, E3. subst cls pp rc.
    unfold State._load_state, State.SecureElementState__load_state, bind, get_state,
      os_path_exists, try_except, read_json.
    cbn -[fs_lookup]. rewrite !Ef. cbn -[fs_lookup]. rewrite ?Ef. reflexivity. }
  unfold bind at 1.
  match goal with
  | |- fst (let (r, h') := bind ?m ?k h in _) = _ =>
      assert (Hinit : fst (bind m k h) = Raise AttributeError)
  end.
  { unfold bind, put_state, os_path_exists.
    destruct (String.eqb_spec (upper m) "A") as [Em|Em].
    - destruct seed as [seed|]; [|contradiction (Hseed Em); reflexivity].
      cbn -[fs_lookup State._load_state]. rewrite Ef. apply Hload; reflexivity.
    - cbn -[fs_lookup State._load_state]. rewrite Ef. apply Hload; reflexivity. }
  match goal with
  | |- fst (let (r, h') := ?x in _) = _ => destruct x as [[u|e] h1]
  end; cbn [fst] in *; [discriminate Hinit|exact Hinit].
Qed.

Lemma secure_element_init_over_state_file_witness :
  fst (State.SecureElementState___init__ "a" 0 (Some Demo.seed) (Some "state.json"%string)
         (DemoLoad.heap ReceiverStateClass None DemoLoad.old_blob))
  = Raise AttributeError.
Proof.
  apply (secure_element_init_over_state_file
           (DemoLoad.heap ReceiverStateClass None DemoLoad.old_blob)
           "a" 0 (Some Demo.seed) "s"%char "tate.json"%string DemoLoad.old_blob).
  - reflexivity.
  - intros _. discriminate.
Defined.

(** X16.  What [_load_state] of either class does with a state file it
    cannot use.  It returns without raising and keeps the state as it is
    when there is no persistence path (or an empty one), when the path holds
    no file, when the file cannot be opened, and when the file holds text
    that is not JSON.  A file whose bytes cannot be decoded as text is not
    among these: [json.load] then raises [UnicodeDecodeError], which the
    [except] clause does not name, so [_load_state] raises it (the state is
    still as it was). *)
Theorem load_state_ignores_unusable_file {H : Hashlib} (h : Heap) :
  (_persistence_path (state h) = None -> State._load_state h = (Ok tt, h))
  /\ (_persistence_path (state h) = Some EmptyString ->
      State._load_state h = (Ok tt, h))
  /\ (forall p, _persistence_path (state h) = Some p ->
        fs_lookup (fs_files h) p = None
        \/ fs_lookup (fs_files h) p = Some Unreadable
        \/ fs_lookup (fs_files h) p = Some NotJson ->
        State._load_state h = (Ok tt, h))
  /\ (forall p, _persistence_path (state h) = Some p -> p <> EmptyString ->
        fs_lookup (fs_files h) p = Some NotText ->
        State._load_state h = (Raise UnicodeDecodeError, h)).
Proof.
  destruct h as [s v files uw ur tb er cl]. destruct s as [cls md an sd pp rc].
  cbn [state fs_files _persistence_path].
  unfold State._load_state, State.ReceiverState__load_state,
    State.SecureElementState__load_state, bind, get_state, os_path_exists, try_except,
    read_json.
  split; [|split; [|split]].
  - intros ->. destruct cls; reflexivity.
  - intros ->. destruct cls; reflexivity.
  - intros p Ep Hf. rewrite Ep. destruct p as [|c tl]; [destruct cls; reflexivity|].
    destruct Hf as [Ef|[Ef|Ef]]; destruct cls;
      cbn -[fs_lookup]; rewrite !Ef; cbn -[fs_lookup]; rewrite ?Ef; reflexivity.
  - intros p Ep Hp Ef. rewrite Ep. destruct p as [|c tl]; [contradiction|].
    destruct cls; cbn -[fs_lookup]; rewrite !Ef; cbn -[fs_lookup]; rewrite ?Ef;
      reflexivity.
Qed.

Lemma load_state_ignores_unusable_file_witness :
  State._load_state
    (with_files (DemoLoad.heap SecureElementStateClass (Some 2) DemoLoad.old_blob)
                [("state.json"%string, NotJson)])
  = (Ok tt,
     with_files (DemoLoad.heap SecureElementStateClass (Some 2) DemoLoad.old_blob)
                [("state.json"%string, NotJson)])
  /\ State._load_state
       (with_files (DemoLoad.heap ReceiverStateClass None DemoLoad.old_blob)
                   [("state.json"%string, NotText)])
     = (Raise UnicodeDecodeError,
        with_files (DemoLoad.heap ReceiverStateClass None DemoLoad.old_blob)
                   [("state.json"%string, NotText)]).
Proof.
  split.
  - apply (proj1 (proj2 (proj2 (load_state_ignores_unusable_file
             (with_files (DemoLoad.heap SecureElementStateClass (Some 2)
                            DemoLoad.old_blob)
                         [("state.json"%string, NotJson)]))))
             "state.json"%string).
    + reflexivity.
    + right. right. reflexivity.
  - apply (proj2 (proj2 (proj2 (load_state_ignores_unusable_file
             (with_files (DemoLoad.heap ReceiverStateClass None DemoLoad.old_blob)
                         [("state.json"%string, NotText)]))))
             "state.json"%string).
    + reflexivity.
    + discriminate.
    + reflexivity.
Defined.

Lemma fromhex_cons (c : ascii) (tl : string) :
  fromhex (String c tl)
  = if is_space c then fromhex tl
    else match tl with
         | EmptyString => Raise ValueError
         | String c' tl' =>
             match hex_value c, hex_value c' with
             | Some hi, Some lo =>
                 rbind (fromhex tl') (fun rest => Ok (byte_of_Z (16 * hi + lo) :: rest))
             | _, _ => Raise ValueError
             end
         end.
Proof. reflexivity. Qed.

(** [bytes.fromhex] raises nothing but [ValueError]. *)
Lemma fromhex_raises_ValueError (text : string) (e : exn) :
  fromhex text = Raise e -> e = ValueError.
Proof.
  assert (Hn : forall n s, (String.length s <= n)%nat -> fromhex s = Raise e ->
                           e = ValueError).
  { induction n as [|n IH]; intros s Hlen.
    - destruct s; [discriminate|cbn in Hlen; lia].
    - destruct s as [|c0 s]; [discriminate|]. cbn in Hlen. rewrite fromhex_cons.
      destruct (is_space c0); [apply IH; lia|].
      destruct s as [|c1 s]; [intro E; inversion E; reflexivity|]. cbn in Hlen.
      destruct (hex_value c0); [|intro E; inversion E; reflexivity].
      destruct (hex_value c1); [|intro E; inversion E; reflexivity].
      destruct (fromhex s) eqn:Er; cbn [rbind]; [discriminate|].
      intro E. inversion E; subst. apply (IH s); [lia|exact Er]. }
  apply (Hn (String.length text)). lia.
Qed.

(** X17.  A state file whose seed is not hexadecimal text is applied by
    halves.  [ReceiverState._load_state] in Mode A, on a blob whose anchor
    is not older than the current one and whose seed text [bytes.fromhex]
    rejects: the [ValueError] is not among the exceptions the method
    catches, so it escapes, after the anchor has been replaced by the
    blob's; the seed is still the old one. *)
Theorem load_state_malformed_seed {H : Hashlib} (h : Heap) (c : ascii) (tl : string)
  (b : Blob) (text : string) (e : exn) :
  state_cls (state h) = ReceiverStateClass ->
  mode (state h) = "A"%string ->
  _persistence_path (state h) = Some (String c tl) ->
  fs_lookup (fs_files h) (String c tl) = Some (Json b) ->
  _anchor (state h) <= State.default 0 (blob_anchor b) ->
  blob_seed b = Some text ->
  fromhex text = Raise e ->
  e = ValueError
  /\ fst (State._load_state h) = Raise ValueError
  /\ _anchor (state (snd (State._load_state h))) = State.default 0 (blob_anchor b)
  /\ _seed (state (snd (State._load_state h))) = _seed (state h).
Proof.
  intros Ecls Em Ep Ef Ha Es Ex.
  pose proof (fromhex_raises_ValueError text e Ex) as ->. split; [reflexivity|].
  destruct h as [s v files uw ur tb er cl]. destruct s as [cls md an sd pp rc].
  cbn in Ecls, Em, Ep, Ef, Ha. subst cls md pp.
  unfold State._load_state, State.ReceiverState__load_state, bind, get_state,
    os_path_exists, try_except, read_json, State.set_anchor, State.apply_blob_seed.
  cbn -[fs_lookup Z.geb]. rewrite !Ef. cbn -[fs_lookup Z.geb]. rewrite ?Ef.
  cbn -[fs_lookup Z.geb].
  destruct (State.default 0 (blob_anchor b) >=? an) eqn:E;
    [|rewrite Z.geb_leb in E; apply Z.leb_gt in E; lia].
  unfold bind, get_state, lift, State.set_seed. cbn -[fs_lookup Z.geb fromhex].
  rewrite Es, Ex. cbn. split; [reflexivity|]. split; reflexivity.
Qed.

Lemma load_state_malformed_seed_witness :
  ValueError = ValueError
  /\ fst (State._load_state
            (with_files demo_persistent_heap
               [("state.json"%string,
                 Json {| blob_mode := Some "A"%string; blob_anchor := Some 4;
                         blob_version := Some 1; blob_seed := Some "0g"%string;
                         blob_rollback_counter := None |})]))
     = Raise ValueError
  /\ _anchor (state (snd (State._load_state
                            (with_files demo_persistent_heap
                               [("state.json"%string,
                                 Json {| blob_mode := Some "A"%string;
                                         blob_anchor := Some 4;
                                         blob_version := Some 1;
                                         blob_seed := Some "0g"%string;
                                         blob_rollback_counter := None |})]))))
     = 4
  /\ _seed (state (snd (State._load_state
                          (with_files demo_persistent_heap
                             [("state.json"%string,
                               Json {| blob_mode := Some "A"%string;
                                       blob_anchor := Some 4;
                                       blob_version := Some 1;
                                       blob_seed := Some "0g"%string;
                                       blob_rollback_counter := None |})]))))
     = Some Demo.seed.
Proof.
  apply (load_state_malformed_seed
           (with_files demo_persistent_heap
              [("state.json"%string,
                Json {| blob_mode := Some "A"%string; blob_anchor := Some 4;
                        blob_version := Some 1; blob_seed := Some "0g"%string;
                        blob_rollback_counter := None |})])
           "s"%char "tate.json"%string
           {| blob_mode := Some "A"%string; blob_anchor := Some 4;
              blob_version := Some 1; blob_seed := Some "0g"%string;
              blob_rollback_counter := None |}
           "0g"%string ValueError).
  - reflexivity.
  - reflexivity.
  - reflexivity.
  - reflexivity.
  - cbn. lia.
  - reflexivity.
  - reflexivity.
Defined.

(** ** validator.py: Mode B and the two validator classes *)

Section ModeB.
Context {H : Hashlib}.

(** In Mode B [build] computes the unkeyed fragment of [Evol(index)]. *)
Lemma build_mode_b (b : Fragment.FragmentBuilder) (evol : Z -> result bytes)
  (payload : bytes) (prepared : bool) (F : bytes) :
  Fragment.mode b <> "A"%string ->
  Fragment._evol_func b = Some evol ->
  Fragment.build b payload prepared = Ok F ->
  exists z,
    evol (Fragment._index b) = Ok z
    /\ Crypto.compute_fragment (Fragment.domain b)
         (if prepared then payload else sha256 payload) z
         (Fragment.fragment_length b) None = Ok F.
Proof.
  intros Hm He. unfold Fragment.build, Crypto.prepare_content.
  destruct (String.eqb_spec (Fragment.mode b) "A") as [E|_]; [contradiction|].
  rewrite He. destruct (evol (Fragment._index b)) as [z|e]; [|discriminate].
  cbn [rbind fst snd]. intro E. exists z. split; [reflexivity|].
  destruct (Fragment.use_keyed_mode b); exact E.
Qed.

End ModeB.

(** X18.  Round trip in Mode B.  A builder and a receiver that are both in
    Mode B with the same Evol function, domain and fragment length, the
    builder's index equal to the anchor, and a window width of at least 0:
    whatever fragment [build] returns, [validate] answers (ACCEPT, anchor)
    to it, for both validator classes and whatever the keyed settings. *)
Theorem mode_b_round_trip {H : Hashlib} (b : Fragment.FragmentBuilder) (h : Heap)
  (evol : Z -> result bytes) (payload : bytes) (prepared : bool) (F : bytes) :
  Fragment.mode b = "B"%string ->
  mode (state h) = "B"%string ->
  Fragment._evol_func b = Some evol ->
  evol_func (validator h) = Some evol ->
  Fragment._index b = _anchor (state h) ->
  Fragment.domain b = domain (validator h) ->
  Fragment.fragment_length b = fragment_length (validator h) ->
  0 <= window_size (validator h) ->
  Fragment.build b payload prepared = Ok F ->
  fst (Validator.validate F payload prepared h) = Ok (ACCEPT, Some (_anchor (state h))).
Proof.
  intros Hbm Hsm Hbe Hve Hidx Hdom Hlen Hnu Hbuild.
  destruct (build_mode_b b evol payload prepared F) as (z & Ez & EF);
    [rewrite Hbm; discriminate|exact Hbe|exact Hbuild|].
  rewrite Hidx in Ez. rewrite Hdom, Hlen in EF.
  destruct (compute_fragment_length _ _ _ _ _ _ EF) as [_ LF].
  rewrite validate_answer_correct. unfold validate_answer. cbv zeta.
  rewrite LF, Z.eqb_refl, Hsm, Hve. cbn [negb String.eqb Ascii.eqb Bool.eqb].
  rewrite range_window by exact Hnu. cbn [seq map first_match_b].
  rewrite Z.add_0_r, Ez. cbn [rbind]. rewrite EF. cbn [rbind].
  rewrite constant_time_equal_refl. reflexivity.
Qed.

Lemma mode_b_round_trip_witness :
  fst (Validator.validate
         (match Fragment.build DemoB.builder Demo.content false with
          | Ok F => F
          | Raise _ => []
          end)
         Demo.content false DemoB.heap)
  = Ok (ACCEPT, Some (_anchor (state DemoB.heap))).
Proof.
  apply (mode_b_round_trip DemoB.builder DemoB.heap DemoB.counter_evol Demo.content false).
  - reflexivity.
  - reflexivity.
  - reflexivity.
  - reflexivity.
  - reflexivity.
  - reflexivity.
  - reflexivity.
  - cbn. lia.
  - vm_compute. reflexivity.
Defined.

Section TwoClasses.
Context {H : Hashlib}.

(** Whether the extension loop returns depends on the lengths alone. *)
Lemma extend_output_defined (key encoded_input key' encoded_input' : bytes) (n : nat)
  (output output' : bytes) :
  length output = length output' ->
  (exists out, Crypto.extend_output key encoded_input n output = Ok out) ->
  exists out', Crypto.extend_output key' encoded_input' n output' = Ok out'.
Proof.
  revert output'.
  apply (Crypto.extend_output_elim
           (fun key encoded_input n output r =>
              forall output', length output = length output' ->
                              (exists out, r = Ok out) ->
                              exists out', Crypto.extend_output key' encoded_input' n output'
                                           = Ok out')).
  - intros k e m o E _ o' Hlen _. rewrite extend_output_unfold, <- Hlen, E.
    exists o'. reflexivity.
  - intros k e m o counter Hlt IH Hc _ o' Hlen Hout.
    rewrite extend_output_unfold, <- Hlen, Hlt, Hc.
    apply IH; [|exact Hout].
    rewrite !length_app, !hmac_sha256_digest_size, Hlen. reflexivity.
  - intros k e m o x Hlt _ _ o' _ [out Hout]. discriminate Hout.
Qed.

(** If the expected fragment of one seed is defined, so is the expected
    fragment of every seed down the chain: the next seeds have 32 bytes. *)
Lemma expected_fragment_next (D : bytes) (l : Z) (keyed : bool) (C K K' : bytes) :
  length K' = 32%nat ->
  (exists e, expected_fragment D l keyed C K = Ok e) ->
  exists e', expected_fragment D l keyed C K' = Ok e'.
Proof.
  intros HK' [e He]. unfold expected_fragment, Crypto.compute_fragment in *.
  destruct (l <? 256); [discriminate|].
  assert (Henc : exists enc', Crypto.encode D C K' = Ok enc').
  { unfold Crypto.encode in *.
    destruct (Crypto.length_prefix D) as [d|]; [|discriminate].
    destruct (Crypto.length_prefix C) as [c|]; [|discriminate].
    cbn [rbind] in *. rewrite length_prefix_Ok by (rewrite HK'; cbn; lia).
    cbn [rbind]. eexists. reflexivity. }
  destruct Henc as [enc' ->].
  destruct (Crypto.encode D C K) as [enc|]; [|discriminate].
  cbn [rbind] in *.
  destruct keyed.
  - destruct (Crypto.extend_output K enc (Z.to_nat (l / 8)) (hmac_sha256 K enc))
      as [out|] eqn:Eo; [|discriminate].
    destruct (extend_output_defined K enc K' enc' (Z.to_nat (l / 8))
                (hmac_sha256 K enc) (hmac_sha256 K' enc')) as [out' ->].
    + rewrite !hmac_sha256_digest_size. reflexivity.
    + exists out. exact Eo.
    + cbn [rbind]. eexists. reflexivity.
  - cbn [rbind]. eexists. reflexivity.
Qed.

Lemma all_defined_from_first (D : bytes) (l : Z) (keyed : bool) (C : bytes)
  (window : list Z) (K : bytes) :
  (exists e, expected_fragment D l keyed C K = Ok e) ->
  all_defined D l keyed C window K.
Proof.
  revert K. induction window as [|j window IH]; intros K He; [exact I|].
  split; [exact He|]. apply IH.
  apply (expected_fragment_next D l keyed C K); [apply KDF_length|exact He].
Qed.

(** Walking the whole window finds what the early stop finds, whatever
    the configuration: if the first expected fragment raises, both raise
    the same exception at once. *)
Lemma ct_first_match_agrees (D : bytes) (l : Z) (keyed : bool) (F C : bytes)
  (window : list Z) (K : bytes) :
  ct_first_match D l keyed F C window K None = first_match D l keyed F C window K.
Proof.
  destruct window as [|j window]; [reflexivity|].
  destruct (expected_fragment D l keyed C K) as [e|x] eqn:He.
  - apply ct_first_match_first. apply all_defined_from_first. exists e. exact He.
  - cbn [ct_first_match first_match]. rewrite He. reflexivity.
Qed.

(** The heap with the validator object turned into one of class [cls]. *)
Definition as_class (cls : validator_class) (h : Heap) : Heap :=
  with_validator h
    {| validator_cls := cls; domain := domain (validator h);
       window_size := window_size (validator h);
       fragment_length := fragment_length (validator h);
       use_keyed_mode := use_keyed_mode (validator h);
       evol_func := evol_func (validator h); _stats := _stats (validator h) |}.

End TwoClasses.

(** X19.  [ConstantTimeValidator.validate] answers exactly what
    [FragmentValidator.validate] answers: on every fragment, payload and
    state, in both modes, the two classes (configured alike) return the same
    result and index, or raise the same exception. *)
Theorem validator_classes_agree {H : Hashlib} (F payload : bytes) (prepared : bool)
  (h : Heap) :
  fst (Validator.validate F payload prepared (as_class ConstantTimeValidatorClass h))
  = fst (Validator.validate F payload prepared (as_class FragmentValidatorClass h)).
Proof.
  rewrite !validate_answer_correct. unfold validate_answer, as_class. cbn.
  destruct (negb _); [reflexivity|].
  destruct (mode (state h) =? "A")%string; [|reflexivity].
  destruct (_seed (state h)) as [K|]; [|reflexivity].
  rewrite ct_first_match_agrees. reflexivity.
Qed.

(** X20.  In Mode A [ConstantTimeValidator.validate] makes the same calls
    whatever fragment it is given: for a fragment of the expected length,
    a window width of at least 0 and a first expected fragment that
    [compute_fragment] returns, it calls each of [compute_fragment],
    [constant_time_equal] and [KDF] exactly [window_size + 1] times, match
    or no match, wherever the match is. *)
Theorem constant_time_validator_calls {H : Hashlib} (F payload K e : bytes) (h : Heap) :
  validator_cls (validator h) = ConstantTimeValidatorClass ->
  mode (state h) = "A"%string ->
  _seed (state h) = Some K ->
  Z.of_nat (length F) = fragment_length (validator h) / 8 ->
  0 <= window_size (validator h) ->
  expected_fragment (domain (validator h)) (fragment_length (validator h))
                    (use_keyed_mode (validator h)) (sha256 payload) K = Ok e ->
  n_compute_fragment (calls (snd (Validator.validate F payload false h)))
  = (n_compute_fragment (calls h) + S (Z.to_nat (window_size (validator h))))%nat
  /\ n_constant_time_equal (calls (snd (Validator.validate F payload false h)))
     = (n_constant_time_equal (calls h) + S (Z.to_nat (window_size (validator h))))%nat
  /\ n_KDF (calls (snd (Validator.validate F payload false h)))
     = (n_KDF (calls h) + S (Z.to_nat (window_size (validator h))))%nat.
Proof.
  intros Hcls Hm Hs Hlen Hnu He.
  rewrite (constant_time_mode_a_uniform F payload K h Hcls Hm Hs Hlen Hnu)
    by (apply all_defined_from_first; exists e; exact He).
  unfold add_calls. cbn [n_compute_fragment n_constant_time_equal n_KDF].
  split; [lia|]. split; lia.
Qed.

Lemma constant_time_validator_calls_witness :
  n_compute_fragment
    (calls (snd (Validator.validate (repeat x00 32) Demo.content false
                   (Demo.heap ConstantTimeValidatorClass 3 None []))))
  = (0 + 4)%nat
  /\ n_constant_time_equal
       (calls (snd (Validator.validate (repeat x00 32) Demo.content false
                      (Demo.heap ConstantTimeValidatorClass 3 None []))))
     = (0 + 4)%nat
  /\ n_KDF (calls (snd (Validator.validate (repeat x00 32) Demo.content false
                          (Demo.heap ConstantTimeValidatorClass 3 None []))))
     = (0 + 4)%nat.
Proof.
  apply (constant_time_validator_calls (repeat x00 32) Demo.content Demo.seed
           demo_fragment (Demo.heap ConstantTimeValidatorClass 3 None [])).
  - reflexivity.
  - reflexivity.
  - reflexivity.
  - reflexivity.
  - cbn. lia.
  - vm_compute. reflexivity.
Defined.

(** ** state.py: deriving seeds, the window *)

(** X21.  The receiver derives the sender's seeds.  For a builder and a
    receiver that hold the same Mode A seed, the builder's index being the
    anchor: after [k] calls of [advance()] the builder is at index
    [anchor + k] and holds the very seed [get_seed_for_index(anchor + k)]
    returns; [get_seed_for_index] leaves the heap as it is, and returns
    None for an index before the anchor. *)
Theorem get_seed_for_index_follows_sender {H : Hashlib} (b : Fragment.FragmentBuilder)
  (h : Heap) (K : bytes) (token_bytes : nat -> bytes) (k : nat) :
  Fragment.mode b = "A"%string ->
  mode (state h) = "A"%string ->
  Fragment._seed b = Some K ->
  _seed (state h) = Some K ->
  Fragment._index b = _anchor (state h) ->
  (exists b',
     Fragment.advance_times token_bytes k b = Ok b'
     /\ Fragment._index b' = _anchor (state h) + Z.of_nat k
     /\ State.get_seed_for_index (Fragment._index b') h = (Ok (Fragment._seed b'), h))
  /\ (forall index, index < _anchor (state h) ->
                    State.get_seed_for_index index h = (Ok None, h)).
Proof.
  intros Hbm Hsm Hbs Hss Hidx. split.
  - destruct (advance_times_mode_a token_bytes k b K Hbm Hbs)
      as (b' & E & _ & Hs' & Hi' & _).
    exists b'. split; [exact E|]. split; [rewrite Hi', Hidx; reflexivity|].
    unfold State.get_seed_for_index, bind, get_state, ret.
    rewrite Hsm, Hss, Hs', Hi', Hidx. cbn [String.eqb Ascii.eqb Bool.eqb negb].
    destruct (_anchor (state h) + Z.of_nat k <? _anchor (state h)) eqn:E1;
      [apply Z.ltb_lt in E1; lia|].
    replace (_anchor (state h) + Z.of_nat k - _anchor (state h)) with (Z.of_nat k) by lia.
    rewrite Nat2Z.id. reflexivity.
  - intros index Hlt. unfold State.get_seed_for_index, bind, get_state, ret.
    rewrite Hsm. cbn [String.eqb Ascii.eqb Bool.eqb negb].
    destruct (index <? _anchor (state h)) eqn:E1; [reflexivity|].
    apply Z.ltb_ge in E1. lia.
Qed.

Lemma get_seed_for_index_follows_sender_witness :
  (exists b',
     Fragment.advance_times (fun n => repeat xff n) 3 Demo.builder = Ok b'
     /\ Fragment._index b'
        = _anchor (state (Demo.heap FragmentValidatorClass 7 None [])) + Z.of_nat 3
     /\ State.get_seed_for_index (Fragment._index b')
          (Demo.heap FragmentValidatorClass 7 None [])
        = (Ok (Fragment._seed b'), Demo.heap FragmentValidatorClass 7 None []))
  /\ (forall index,
        index < _anchor (state (Demo.heap FragmentValidatorClass 7 None [])) ->
        State.get_seed_for_index index (Demo.heap FragmentValidatorClass 7 None [])
        = (Ok None, Demo.heap FragmentValidatorClass 7 None [])).
Proof.
  apply (get_seed_for_index_follows_sender Demo.builder
           (Demo.heap FragmentValidatorClass 7 None []) Demo.seed
           (fun n => repeat xff n) 3); reflexivity.
Defined.

(** X22.  [is_in_window(index, window_size)] is true exactly for the
    indices that [get_window_range(window_size)] enumerates, and the range
    holds [window_size + 1] indices (none when [window_size < 0]); neither
    method changes the heap. *)
Theorem is_in_window_iff_in_range {H : Hashlib} (h : Heap) (index window_size : Z) :
  exists (inside : bool) (window : list Z),
    State.is_in_window index window_size h = (Ok inside, h)
    /\ State.get_window_range window_size h = (Ok window, h)
    /\ (inside = true <-> In index window)
    /\ Z.of_nat (length window) = Z.max 0 (window_size + 1).
Proof.
  unfold State.is_in_window, State.get_window_range, bind, get_state, ret.
  eexists. eexists. split; [reflexivity|]. split; [reflexivity|]. split.
  - rewrite andb_true_iff, Z.leb_le, Z.leb_le. unfold range. rewrite in_map_iff. split.
    + intros [H1 H2]. exists (Z.to_nat (index - _anchor (state h))).
      split; [lia|]. apply in_seq. lia.
    + intros [i [E Hi]]. apply in_seq in Hi. lia.
  - unfold range. rewrite length_map, length_seq. lia.
Qed.

Section NoIndexTwice.
Context {H : Hashlib}.

Lemma validate_and_commit_accept_anchor (F payload : bytes) (prepared : bool) (h : Heap)
  (o : option Z) :
  fst (Validator.validate_and_commit F payload prepared h) = Ok (ACCEPT, o) ->
  exists j, o = Some j
            /\ _anchor (state (snd (Validator.validate_and_commit F payload prepared h)))
               = j + 1.
Proof.
  intro E. apply validate_and_commit_outcome in E. destruct E as (j & h1 & -> & Ev & Ea).
  pose proof (validate_receiver_view F payload prepared h) as (Hs & _ & _).
  rewrite Ev in Hs. cbn [snd] in Hs.
  pose proof (advance_outcome h1 (j + 1) (commit_seed (state h) j)) as Ho.
  rewrite Ea in Ho. cbn [fst snd] in Ho. destruct Ho as (_ & Hst & _).
  exists j. split; [reflexivity|]. rewrite Hst.
  destruct (counted_fields (advanced (state h1) (j + 1) (commit_seed (state h) j)))
    as (_ & _ & -> & _).
  reflexivity.
Qed.

End NoIndexTwice.

(** The fragment the demonstration's sender emits after one [advance()]. *)
Definition demo_next_fragment : bytes :=
  Eval vm_compute in
    match rbind (Fragment.advance_times (fun n => repeat xff n) 1 Demo.builder)
                (fun b => Fragment.build b Demo.content false) with
    | Ok F => F
    | Raise _ => []
    end.

(** X23.  No index is accepted twice.  Once [validate_and_commit] has
    answered ACCEPT at index [j], [validate] never returns an index up to
    [j] again: on the heap the commit left, and on any later heap whose
    anchor is not smaller (the anchor never moves back), every index that
    [validate] returns, for any fragment and payload, is greater than [j]. *)
Theorem accepted_index_is_never_returned_again {H : Hashlib} (F payload : bytes)
  (prepared : bool) (h : Heap) (j : Z) (later : Heap) (F' payload' : bytes)
  (prepared' : bool) (res : ValidationResult) (j' : Z) :
  fst (Validator.validate_and_commit F payload prepared h) = Ok (ACCEPT, Some j) ->
  _anchor (state (snd (Validator.validate_and_commit F payload prepared h)))
  <= _anchor (state later) ->
  fst (Validator.validate F' payload' prepared' later) = Ok (res, Some j') ->
  j < j'.
Proof.
  intros E Hlater Ev.
  destruct (validate_and_commit_accept_anchor F payload prepared h (Some j) E)
    as (j0 & Ej & Ha).
  apply (f_equal (fun o => match o with Some x => x | None => j end)) in Ej.
  cbn in Ej. subst j0.
  destruct (validate_index_bounds F' payload' prepared' later res j' Ev) as [_ Hj'].
  lia.
Qed.

Lemma accepted_index_is_never_returned_again_witness :
  fst (Validator.validate_and_commit demo_fragment Demo.content false
         (Demo.heap FragmentValidatorClass 3 None []))
  = Ok (ACCEPT, Some 0)
  /\ fst (Validator.validate demo_next_fragment Demo.content false
            (snd (Validator.validate_and_commit demo_fragment Demo.content false
                    (Demo.heap FragmentValidatorClass 3 None []))))
     = Ok (ACCEPT, Some 1)
  /\ 0 < 1.
Proof.
  assert (E : fst (Validator.validate_and_commit demo_fragment Demo.content false
                     (Demo.heap FragmentValidatorClass 3 None []))
              = Ok (ACCEPT, Some 0)) by (vm_compute; reflexivity).
  assert (E' : fst (Validator.validate demo_next_fragment Demo.content false
                      (snd (Validator.validate_and_commit demo_fragment Demo.content false
                              (Demo.heap FragmentValidatorClass 3 None []))))
               = Ok (ACCEPT, Some 1)) by (vm_compute; reflexivity).
  split; [exact E|]. split; [exact E'|].
  apply (accepted_index_is_never_returned_again demo_fragment Demo.content false
           (Demo.heap FragmentValidatorClass 3 None []) 0
           (snd (Validator.validate_and_commit demo_fragment Demo.content false
                   (Demo.heap FragmentValidatorClass 3 None [])))
           demo_next_fragment Demo.content false ACCEPT 1 E).
  - lia.
  - exact E'.
Defined.

(** ** crypto.py: the encoder's domain *)

Section EncoderDomain.
Context {H : Hashlib}.

Lemma length_prefix_overflow (data : bytes) :
  2 ^ 32 <= Z.of_nat (length data) -> Crypto.length_prefix data = Raise OverflowError.
Proof.
  intro Hd. unfold Crypto.length_prefix, to_bytes.
  change (256 ^ Z.of_nat 4) with (2 ^ 32).
  destruct (Z.of_nat (length data) <? 0) eqn:E1; [reflexivity|].
  destruct (2 ^ 32 <=? Z.of_nat (length data)) eqn:E2; [reflexivity|].
  apply Z.leb_gt in E2. lia.
Qed.

End EncoderDomain.

(** X24.  [encode] returns exactly when each of its three arguments has at
    most 2^32 - 1 bytes; its result is then the three arguments, each after
    its length on four big-endian bytes, [12 + len(domain) + len(content) +
    len(evolution_param)] bytes in all.  With a longer argument it raises
    [OverflowError]. *)
Theorem encode_returns_iff_lengths_fit {H : Hashlib} (D C Zi : bytes) :
  if (Z.of_nat (length D) <=? 2 ^ 32 - 1) && (Z.of_nat (length C) <=? 2 ^ 32 - 1)
     && (Z.of_nat (length Zi) <=? 2 ^ 32 - 1)
  then
    exists e,
      Crypto.encode D C Zi = Ok e
      /\ e = be_bytes 4 (Z.of_nat (length D)) ++ D
             ++ be_bytes 4 (Z.of_nat (length C)) ++ C
             ++ be_bytes 4 (Z.of_nat (length Zi)) ++ Zi
      /\ length e = (12 + length D + length C + length Zi)%nat
  else Crypto.encode D C Zi = Raise OverflowError.
Proof.
  unfold Crypto.encode.
  destruct (Z.of_nat (length D) <=? 2 ^ 32 - 1) eqn:ED; cbn [andb].
  - apply Z.leb_le in ED. rewrite (length_prefix_Ok D ED). cbn [rbind].
    destruct (Z.of_nat (length C) <=? 2 ^ 32 - 1) eqn:EC; cbn [andb].
    + apply Z.leb_le in EC. rewrite (length_prefix_Ok C EC). cbn [rbind].
      destruct (Z.of_nat (length Zi) <=? 2 ^ 32 - 1) eqn:EZ.
      * apply Z.leb_le in EZ. rewrite (length_prefix_Ok Zi EZ). cbn [rbind].
        rewrite <- !app_assoc. eexists. split; [reflexivity|]. split; [reflexivity|].
        rewrite !length_app, !be_bytes_length. lia.
      * apply Z.leb_gt in EZ. rewrite length_prefix_overflow by lia. reflexivity.
    + apply Z.leb_gt in EC. rewrite length_prefix_overflow by lia. reflexivity.
  - apply Z.leb_gt in ED. rewrite length_prefix_overflow by lia. reflexivity.
Qed.

(** ** fragment.py: saving and restoring a builder *)

Module Snapshot.
Section WithHashlib.
Context {H : Hashlib}.

(** The dictionary [get_state] returns, or any dictionary handed to
    [from_state] whose present fields have the types [get_state] writes. *)
Record SavedState : Type := {
  saved_mode : option string;
  saved_index : option Z;
  saved_domain : option string;
  saved_fragment_length : option Z;
  saved_seed : option string
}.

(** What [from_state] comes to: a builder, an exception of the kinds met
    so far, or the [KeyError] of a missing dictionary key. *)
Inductive restored : Type :=
| Restored (b : Fragment.FragmentBuilder)
| Raised (e : exn)
| RaisedKeyError.

(** [FragmentBuilder.get_state()] *)
Definition get_state (self : Fragment.FragmentBuilder) : result SavedState :=
  if (Fragment.mode self =? "A")%string then
    match Fragment._seed self with
    | Some seed =>
        Ok {| saved_mode := Some (Fragment.mode self);
              saved_index := Some (Fragment._index self);
              saved_domain := Some (hex (Fragment.domain self));
              saved_fragment_length := Some (Fragment.fragment_length self);
              saved_seed := Some (hex seed) |}
    | None => Raise TypeError
    end
  else
    Ok {| saved_mode := Some (Fragment.mode self);
          saved_index := Some (Fragment._index self);
          saved_domain := Some (hex (Fragment.domain self));
          saved_fragment_length := Some (Fragment.fragment_length self);
          saved_seed := None |}.

(** [state[key]] *)
Definition item {A} (field : option A) (k : A -> restored) : restored :=
  match field with
  | Some a => k a
  | None => RaisedKeyError
  end.

Definition returned {A} (r : result A) (k : A -> restored) : restored :=
  match r with
  | Ok a => k a
  | Raise e => Raised e
  end.

(** [FragmentBuilder.from_state(state, evol_func)] *)
Definition from_state (state : SavedState) (evol_func : option (Z -> result bytes))
  : restored :=
  item (saved_domain state) (fun domain_text =>
  returned (fromhex domain_text) (fun domain =>
  item (saved_mode state) (fun mode =>
  let with_index (builder : Fragment.FragmentBuilder) :=
    item (saved_index state) (fun index => Restored (Fragment.set_index builder index)) in
  if (mode =? "A")%string then
    item (saved_seed state) (fun seed_text =>
    returned (fromhex seed_text) (fun seed =>
    item (saved_fragment_length state) (fun fragment_length =>
    returned (Fragment.mode_a domain seed fragment_length true) with_index)))
  else
    match evol_func with
    | None => Raised ValueError
    | Some evol_func =>
        item (saved_fragment_length state) (fun fragment_length =>
        returned (Fragment.mode_b domain evol_func fragment_length) with_index)
    end))).

End WithHashlib.
End Snapshot.

(** A builder as [__init__] returns it, whatever its seed and index have
    become since: in Mode A with a seed and no Evol function, or in Mode B
    with an Evol function and no seed. *)
Definition constructed (b : Fragment.FragmentBuilder) : Prop :=
  (Fragment.mode b = "A"%string /\ Fragment._seed b <> None /\ Fragment._evol_func b = None)
  \/ (Fragment.mode b = "B"%string /\ Fragment._seed b = None
      /\ Fragment._evol_func b <> None).

(** X25.  Saving and restoring a builder.  For a builder as [__init__]
    leaves it, [get_state] returns a dictionary from which [from_state]
    (given the builder's Evol function in Mode B) restores the mode, the
    index, the domain, the fragment length and the seed; but the restored
    builder is always in keyed mode: [use_keyed_mode] is neither saved nor
    passed on, so a builder made with [use_keyed_mode=False] does not come
    back as it was. *)
Theorem get_state_from_state {H : Hashlib} (b : Fragment.FragmentBuilder) :
  constructed b ->
  exists saved,
    Snapshot.get_state b = Ok saved
    /\ Snapshot.from_state saved (Fragment._evol_func b)
       = Snapshot.Restored
           {| Fragment.domain := Fragment.domain b; Fragment.mode := Fragment.mode b;
              Fragment.fragment_length := Fragment.fragment_length b;
              Fragment.use_keyed_mode := true;
              Fragment._index := Fragment._index b;
              Fragment._seed := Fragment._seed b;
              Fragment._evol_func := Fragment._evol_func b |}
    /\ (Snapshot.from_state saved (Fragment._evol_func b) = Snapshot.Restored b
        <-> Fragment.use_keyed_mode b = true).
Proof.
  intros [(Hm & Hs & He)|(Hm & Hs & He)].
  - destruct (Fragment._seed b) as [K|] eqn:EK; [|contradiction Hs; reflexivity].
    unfold Snapshot.get_state. rewrite Hm, EK. cbn [String.eqb Ascii.eqb Bool.eqb].
    eexists. split; [reflexivity|].
    assert (E : Snapshot.from_state
                  {| Snapshot.saved_mode := Some "A"%string;
                     Snapshot.saved_index := Some (Fragment._index b);
                     Snapshot.saved_domain := Some (hex (Fragment.domain b));
                     Snapshot.saved_fragment_length := Some (Fragment.fragment_length b);
                     Snapshot.saved_seed := Some (hex K) |} (Fragment._evol_func b)
                = Snapshot.Restored
                    {| Fragment.domain := Fragment.domain b; Fragment.mode := "A";
                       Fragment.fragment_length := Fragment.fragment_length b;
                       Fragment.use_keyed_mode := true;
                       Fragment._index := Fragment._index b;
                       Fragment._seed := Some K;
                       Fragment._evol_func := Fragment._evol_func b |}).
    { unfold Snapshot.from_state, Snapshot.item, Snapshot.returned.
      cbn [Snapshot.saved_mode Snapshot.saved_index Snapshot.saved_domain
           Snapshot.saved_fragment_length Snapshot.saved_seed].
      rewrite !fromhex_hex, He. reflexivity. }
    rewrite E. split; [reflexivity|].
    destruct b as [D m l keyed i s ev]. cbn in *. subst m s ev.
    split.
    + intro R. inversion R. reflexivity.
    + intros ->. reflexivity.
  - destruct (Fragment._evol_func b) as [evol|] eqn:Ee; [|contradiction He; reflexivity].
    unfold Snapshot.get_state. rewrite Hm. cbn [String.eqb Ascii.eqb Bool.eqb].
    eexists. split; [reflexivity|].
    assert (E : Snapshot.from_state
                  {| Snapshot.saved_mode := Some "B"%string;
                     Snapshot.saved_index := Some (Fragment._index b);
                     Snapshot.saved_domain := Some (hex (Fragment.domain b));
                     Snapshot.saved_fragment_length := Some (Fragment.fragment_length b);
                     Snapshot.saved_seed := None |} (Some evol)
                = Snapshot.Restored
                    {| Fragment.domain := Fragment.domain b; Fragment.mode := "B";
                       Fragment.fragment_length := Fragment.fragment_length b;
                       Fragment.use_keyed_mode := true;
                       Fragment._index := Fragment._index b;
                       Fragment._seed := Fragment._seed b;
                       Fragment._evol_func := Some evol |}).
    { unfold Snapshot.from_state, Snapshot.item, Snapshot.returned.
      cbn [Snapshot.saved_mode Snapshot.saved_index Snapshot.saved_domain
           Snapshot.saved_fragment_length Snapshot.saved_seed].
      rewrite !fromhex_hex, Hs. reflexivity. }
    rewrite E. split; [reflexivity|].
    destruct b as [D m l keyed i s ev]. cbn in *. subst m s ev.
    split.
    + intro R. inversion R. reflexivity.
    + intros ->. reflexivity.
Qed.

Lemma get_state_from_state_witness :
  exists saved,
    Snapshot.get_state Demo.builder = Ok saved
    /\ Snapshot.from_state saved (Fragment._evol_func Demo.builder)
       = Snapshot.Restored
           {| Fragment.domain := Fragment.domain Demo.builder;
              Fragment.mode := Fragment.mode Demo.builder;
              Fragment.fragment_length := Fragment.fragment_length Demo.builder;
              Fragment.use_keyed_mode := true;
              Fragment._index := Fragment._index Demo.builder;
              Fragment._seed := Fragment._seed Demo.builder;
              Fragment._evol_func := Fragment._evol_func Demo.builder |}
    /\ (Snapshot.from_state saved (Fragment._evol_func Demo.builder)
        = Snapshot.Restored Demo.builder
        <-> Fragment.use_keyed_mode Demo.builder = true).
Proof.
  apply (get_state_from_state Demo.builder).
  left. split; [reflexivity|]. split; [discriminate|reflexivity].
Defined.

(** ** validator.py: the window search, collisions included *)

Section WindowSearch.
Context {H : Hashlib}.

(** The search along a chain stops at the first offset whose expected
    fragment is the received one, and finds nothing exactly when there is no
    such offset in the window. *)
Lemma first_match_least (D : bytes) (l : Z) (keyed : bool) (F C K : bytes)
  (t : Z) (n a : nat) :
  (forall i, exists e, expected_fragment D l keyed C (State.derive i K) = Ok e) ->
  (exists j, (a <= j < a + n)%nat
             /\ first_match D l keyed F C (map (fun i => t + Z.of_nat i) (seq a n))
                            (State.derive a K)
                = Ok (Some (t + Z.of_nat j))
             /\ expected_fragment D l keyed C (State.derive j K) = Ok F
             /\ forall i, (a <= i < j)%nat ->
                          expected_fragment D l keyed C (State.derive i K) <> Ok F)
  \/ (first_match D l keyed F C (map (fun i => t + Z.of_nat i) (seq a n))
                  (State.derive a K)
      = Ok None
      /\ forall i, (a <= i < a + n)%nat ->
                   expected_fragment D l keyed C (State.derive i K) <> Ok F).
Proof.
  intro Hdef. revert a. induction n as [|n IH]; intro a.
  - right. split; [reflexivity|]. intros i Hi. lia.
  - cbn [seq map first_match].
    destruct (Hdef a) as [e Ee]. rewrite Ee. cbn [rbind].
    destruct (Crypto.constant_time_equal e F) eqn:Ecmp.
    + apply constant_time_equal_iff in Ecmp. subst e.
      left. exists a. split; [lia|]. split; [reflexivity|]. split; [exact Ee|].
      intros i Hi. lia.
    + assert (Hne : expected_fragment D l keyed C (State.derive a K) <> Ok F).
      { rewrite Ee. intro E. apply Ok_inj in E. subst e.
        rewrite constant_time_equal_refl in Ecmp. discriminate Ecmp. }
      rewrite <- derive_succ.
      destruct (IH (S a)) as [(j & Hj & Ej & EF & Hleast)|(En & Hnone)].
      * left. exists j. split; [lia|]. split; [exact Ej|]. split; [exact EF|].
        intros i Hi. destruct (Nat.eq_dec i a) as [->|Hia]; [exact Hne|].
        apply Hleast. lia.
      * right. split; [exact En|].
        intros i Hi. destruct (Nat.eq_dec i a) as [->|Hia]; [exact Hne|].
        apply Hnone. lia.
Qed.

(** [validate] in Mode A on a state that holds the seed [K]: ACCEPT at the
    first index of the window whose expected fragment is the received one,
    REJECT when the window holds none. *)
Lemma validate_first_match (h : Heap) (K payload F : bytes) :
  mode (state h) = "A"%string ->
  _seed (state h) = Some K ->
  fragment_parameters_ok (domain (validator h)) (fragment_length (validator h))
                         (use_keyed_mode (validator h)) (sha256 payload) ->
  Z.of_nat (length K) <= 2 ^ 32 - 1 ->
  Z.of_nat (length F) = fragment_length (validator h) / 8 ->
  (exists j, _anchor (state h) <= j <= _anchor (state h) + window_size (validator h)
             /\ fst (Validator.validate F payload false h) = Ok (ACCEPT, Some j)
             /\ expected_fragment (domain (validator h)) (fragment_length (validator h))
                  (use_keyed_mode (validator h)) (sha256 payload)
                  (State.derive (Z.to_nat (j - _anchor (state h))) K)
                = Ok F
             /\ forall i, _anchor (state h) <= i < j ->
                  expected_fragment (domain (validator h)) (fragment_length (validator h))
                    (use_keyed_mode (validator h)) (sha256 payload)
                    (State.derive (Z.to_nat (i - _anchor (state h))) K)
                  <> Ok F)
  \/ (fst (Validator.validate F payload false h) = Ok (REJECT, None)
      /\ forall i, _anchor (state h) <= i <= _anchor (state h) + window_size (validator h) ->
           expected_fragment (domain (validator h)) (fragment_length (validator h))
             (use_keyed_mode (validator h)) (sha256 payload)
             (State.derive (Z.to_nat (i - _anchor (state h))) K)
           <> Ok F).
Proof.
  intros Hrm Hrs Hp HK LF.
  rewrite (validate_mode_a_result F payload K h Hrm Hrs LF)
    by (intros _; apply all_defined_chain; assumption).
  destruct (Z_lt_le_dec (window_size (validator h)) 0) as [Hneg|Hnu].
  { right. unfold range.
    replace (Z.to_nat (_anchor (state h) + window_size (validator h) + 1
                       - _anchor (state h))) with 0%nat by lia.
    split; [reflexivity|]. intros i Hi. lia. }
  rewrite range_window by exact Hnu.
  assert (Hdef : forall i, exists e,
             expected_fragment (domain (validator h)) (fragment_length (validator h))
               (use_keyed_mode (validator h)) (sha256 payload) (State.derive i K) = Ok e).
  { intro i.
    destruct (expected_fragment_returns _ _ _ _ (State.derive i K) Hp (derive_length i K HK))
      as [e [Ee _]].
    exists e. exact Ee. }
  destruct (first_match_least _ _ _ F (sha256 payload) K (_anchor (state h))
              (S (Z.to_nat (window_size (validator h)))) 0%nat Hdef)
    as [(j & Hj & Ej & EF & Hleast)|(En & Hnone)].
  - left. exists (_anchor (state h) + Z.of_nat j).
    cbn [State.derive] in Ej. rewrite Ej. cbn [verdict].
    split; [lia|]. split; [reflexivity|].
    replace (_anchor (state h) + Z.of_nat j - _anchor (state h)) with (Z.of_nat j) by lia.
    rewrite Nat2Z.id. split; [exact EF|].
    intros i Hi. apply Hleast. lia.
  - right. cbn [State.derive] in En. rewrite En. cbn [verdict].
    split; [reflexivity|]. intros i Hi. apply Hnone. lia.
Qed.

End WindowSearch.

(** X26.  Fragments lost on the way, collisions included.  From a sender and
    a receiver aligned in Mode A at anchor [t] on the seed [K] (fragment
    length at least 256 bits, domain and seed the encoder accepts), after
    [k] sender advances [build] returns the fragment [F] of the [k]-th seed
    of the chain, and [validate] answers ACCEPT or REJECT to it: ACCEPT at
    [j] exactly for the first index [j] of the window [t .. t + window_size]
    whose expected fragment is [F], and (REJECT, None) exactly when no
    expected fragment of the window is [F].  In particular, when
    [k <= window_size], it answers ACCEPT at an index between [t] and
    [t + k]. *)
Theorem validate_after_lost_fragments {H : Hashlib} (b : Fragment.FragmentBuilder)
  (h : Heap) (K payload : bytes) (token_bytes : nat -> bytes) (k : nat) :
  aligned b h K ->
  256 <= fragment_length (validator h) ->
  (use_keyed_mode (validator h) = true -> fragment_length (validator h) / 8 <= 2 ^ 32) ->
  Z.of_nat (length (domain (validator h))) <= 2 ^ 32 - 1 ->
  Z.of_nat (length K) <= 2 ^ 32 - 1 ->
  exists b' F,
    Fragment.advance_times token_bytes k b = Ok b'
    /\ Fragment.build b' payload false = Ok F
    /\ expected_fragment (domain (validator h)) (fragment_length (validator h))
         (use_keyed_mode (validator h)) (sha256 payload) (State.derive k K)
       = Ok F
    /\ (fst (Validator.validate F payload false h) = Ok (REJECT, None)
        \/ exists j, fst (Validator.validate F payload false h) = Ok (ACCEPT, Some j))
    /\ (forall j, fst (Validator.validate F payload false h) = Ok (ACCEPT, Some j) ->
          _anchor (state h) <= j <= _anchor (state h) + window_size (validator h)
          /\ expected_fragment (domain (validator h)) (fragment_length (validator h))
               (use_keyed_mode (validator h)) (sha256 payload)
               (State.derive (Z.to_nat (j - _anchor (state h))) K)
             = Ok F
          /\ forall i, _anchor (state h) <= i < j ->
               expected_fragment (domain (validator h)) (fragment_length (validator h))
                 (use_keyed_mode (validator h)) (sha256 payload)
                 (State.derive (Z.to_nat (i - _anchor (state h))) K)
               <> Ok F)
    /\ (fst (Validator.validate F payload false h) = Ok (REJECT, None)
        <-> forall i,
              _anchor (state h) <= i <= _anchor (state h) + window_size (validator h) ->
              expected_fragment (domain (validator h)) (fragment_length (validator h))
                (use_keyed_mode (validator h)) (sha256 payload)
                (State.derive (Z.to_nat (i - _anchor (state h))) K)
              <> Ok F)
    /\ (Z.of_nat k <= window_size (validator h) ->
        exists j, _anchor (state h) <= j <= _anchor (state h) + Z.of_nat k
                  /\ fst (Validator.validate F payload false h) = Ok (ACCEPT, Some j)).
Proof.
  intros Hal Hl Hfit HD HK.
  assert (Hp : fragment_parameters_ok (domain (validator h)) (fragment_length (validator h))
                 (use_keyed_mode (validator h)) (sha256 payload)).
  { repeat split; try assumption. rewrite sha256_digest_size. cbn. lia. }
  pose proof Hal as [Hsm Hrm Hss Hrs Hidx Hdom Hlen Hkey].
  destruct (advance_times_mode_a token_bytes k b K Hsm Hss)
    as (b' & Eadv & Hm' & Hs' & _ & Hd' & Hl' & Hk').
  destruct (expected_fragment_returns _ _ _ _ (State.derive k K) Hp (derive_length k K HK))
    as [F [EF LF]].
  assert (Ebuild : Fragment.build b' payload false = Ok F).
  { rewrite (build_mode_a b' payload _ Hm' Hs'), Hd', Hl', Hk', Hdom, Hlen, Hkey. exact EF. }
  exists b', F. split; [exact Eadv|]. split; [exact Ebuild|]. split; [exact EF|].
  destruct (validate_first_match h K payload F Hrm Hrs Hp HK LF)
    as [(j & Hj & Ej & EFj & Hleast)|(Er & Hnone)].
  - split; [right; exists j; exact Ej|].
    split; [|split].
    + intros j' E. rewrite Ej in E. apply Ok_inj in E. injection E as <-.
      split; [exact Hj|]. split; [exact EFj|exact Hleast].
    + rewrite Ej. split; [discriminate|].
      intro Hnone. contradiction (Hnone j Hj EFj).
    + intros _. exists j. split; [|exact Ej].
      split; [lia|].
      destruct (Z_le_gt_dec j (_anchor (state h) + Z.of_nat k)) as [Hle|Hgt];
        [exact Hle|].
      exfalso. apply (Hleast (_anchor (state h) + Z.of_nat k)); [lia|].
      replace (_anchor (state h) + Z.of_nat k - _anchor (state h)) with (Z.of_nat k) by lia.
      rewrite Nat2Z.id. exact EF.
  - rewrite Er.
    split; [left; reflexivity|].
    split; [|split].
    + intros j' E. discriminate E.
    + split; [intros _; exact Hnone|reflexivity].
    + intro Hk. exfalso.
      apply (Hnone (_anchor (state h) + Z.of_nat k)); [lia|].
      replace (_anchor (state h) + Z.of_nat k - _anchor (state h)) with (Z.of_nat k) by lia.
      rewrite Nat2Z.id. exact EF.
Qed.

Lemma validate_after_lost_fragments_witness :
  exists b' F j,
    Fragment.advance_times (fun n => repeat xff n) 4 Demo.builder = Ok b'
    /\ Fragment.build b' Demo.content false = Ok F
    /\ 0 <= j <= 4
    /\ fst (Validator.validate F Demo.content false
                               (Demo.heap FragmentValidatorClass 7 None []))
       = Ok (ACCEPT, Some j).
Proof.
  destruct (validate_after_lost_fragments
              Demo.builder (Demo.heap FragmentValidatorClass 7 None [])
              Demo.seed Demo.content (fun n => repeat xff n) 4)
    as (b' & F & Eadv & Ebuild & _ & _ & _ & _ & Hacc).
  - apply demo_aligned.
  - cbn. lia.
  - intros _. cbn. lia.
  - cbn. lia.
  - cbn. lia.
  - destruct Hacc as (j & Hj & Ej); [cbn; lia|].
    exists b', F, j. split; [exact Eadv|]. split; [exact Ebuild|].
    split; [exact Hj|exact Ej].
Defined.

(** On the demo pair with a window of 7: the fragment sent after 4 advances
    is accepted at index 4, the one sent after 8 advances is rejected. *)
Example demo_window_reaches_4 :
  exists b' F,
    Fragment.advance_times (fun n => repeat xff n) 4 Demo.builder = Ok b'
    /\ Fragment.build b' Demo.content false = Ok F
    /\ fst (Validator.validate F Demo.content false
                               (Demo.heap FragmentValidatorClass 7 None []))
       = Ok (ACCEPT, Some 4).
Proof.
  eexists. eexists. split; [vm_compute; reflexivity|].
  split; [vm_compute; reflexivity|].
  vm_compute. reflexivity.
Qed.

Example demo_window_misses_8 :
  exists b' F,
    Fragment.advance_times (fun n => repeat xff n) 8 Demo.builder = Ok b'
    /\ Fragment.build b' Demo.content false = Ok F
    /\ fst (Validator.validate F Demo.content false
                               (Demo.heap FragmentValidatorClass 7 None []))
       = Ok (REJECT, None).
Proof.
  eexists. eexists. split; [vm_compute; reflexivity|].
  split; [vm_compute; reflexivity|].
  vm_compute. reflexivity.
Qed.
